(** * Batch inference for transcript summarisation: a verified model

    Shallow embedding of the notebook
    [batch-inference/batch-inference-transcript-summarization.ipynb]:
    the input collector [prepare_model_inputs], the uploader [upload_to_s3],
    the serialiser [write_jsonl], the job-status polling loop and the
    output-retrieval cell; with them the cells that name the batch file
    and the job, the reranker's [predict_fn] and the loop that generates
    questions in batches.

    Python values are modelled as they are at run time: a [str] is a
    sequence of Unicode code points, a [dict] is an insertion-ordered
    association list, and an exception is a value of the left summand of
    [result]. *)

From Stdlib Require Import List ZArith NArith Bool Lia String Ascii.
From Stdlib Require DecimalFacts DecimalPos DecimalZ.
From Stdlib Require Import Sorted Permutation.
Import ListNotations.

Set Implicit Arguments.

(** ** Python strings *)

(** One Unicode code point. *)
Definition codepoint := N.

(** A Python [str]. *)
Definition pystr := list codepoint.

(** The [str] written by an ASCII literal of the source. *)
Definition py (s : string) : pystr := map N_of_ascii (list_ascii_of_string s).

Definition pystr_eqb (a b : pystr) : bool :=
  if list_eq_dec N.eq_dec a b then true else false.

(** ** Exceptions *)

(** A raised Python exception: its class name and its message. *)
Record exn := Exn { exn_class : pystr; exn_msg : pystr }.

(** The outcome of a call that may raise. *)
Definition result (A : Type) : Type := (exn + A)%type.

Definition ret {A} (a : A) : result A := inr a.
Definition raise {A} (e : exn) : result A := inl e.
Definition bind {A B} (m : result A) (k : A -> result B) : result B :=
  match m with
  | inl e => inl e
  | inr a => k a
  end.

Declare Scope py_scope.
Delimit Scope py_scope with pyres.
Notation "'let*' x ':=' m 'in' k" := (bind m (fun x => k))
  (at level 10, x name, m at level 100, k at level 200) : py_scope.
Open Scope py_scope.

(** Exception classes used below. *)
Definition KeyError (key : pystr) : exn := Exn (py "KeyError") key.
Definition TypeError (what : pystr) : exn := Exn (py "TypeError") what.
Definition IndexError (what : pystr) : exn := Exn (py "IndexError") what.
Definition NameError (name : pystr) : exn := Exn (py "NameError") name.
Definition UnicodeDecodeError : exn :=
  Exn (py "UnicodeDecodeError") (py "'utf-8' codec can't decode bytes").
Definition JSONDecodeError (what : pystr) : exn :=
  Exn (py "JSONDecodeError") what.

(** ** Python values *)

(** The values the notebook builds and reads: [None], [bool], [int],
    [float], [str], [list] and [dict] with [str] keys.  The program never
    computes with a [float]: it writes the literal [0.1] and copies what
    [json.loads] read.  A [float] is therefore kept as the decimal literal
    that denotes it ([float.__repr__] on the way out, the matched number
    text on the way in). *)
Unset Elimination Schemes.
Inductive pyval :=
| PNone
| PBool (b : bool)
| PInt (z : Z)
| PFloat (literal : pystr)
| PStr (s : pystr)
| PList (items : list pyval)
| PDict (items : list (pystr * pyval)).
Set Elimination Schemes.

(** [d[k]] on the items of a dict. *)
Fixpoint dict_get (k : pystr) (items : list (pystr * pyval)) : option pyval :=
  match items with
  | [] => None
  | (k', v) :: rest => if pystr_eqb k k' then Some v else dict_get k rest
  end.

(** [d[k] = v]: an existing key keeps its position, a new key goes last. *)
Fixpoint dict_set (k : pystr) (v : pyval) (items : list (pystr * pyval))
  : list (pystr * pyval) :=
  match items with
  | [] => [(k, v)]
  | (k', v') :: rest =>
      if pystr_eqb k k' then (k, v) :: rest else (k', v') :: dict_set k v rest
  end.

(** [v[key]] for a [str] key. *)
Definition getitem (v : pyval) (key : pystr) : result pyval :=
  match v with
  | PDict items =>
      match dict_get key items with
      | Some x => ret x
      | None => raise (KeyError key)
      end
  | PList _ => raise (TypeError (py "list indices must be integers or slices, not str"))
  | PStr _ => raise (TypeError (py "string indices must be integers, not 'str'"))
  | _ => raise (TypeError (py "object is not subscriptable"))
  end.

(** [v[0]]; a decoded JSON object has [str] keys only, so [0] is none of
    them. *)
Definition getitem0 (v : pyval) : result pyval :=
  match v with
  | PList (x :: _) => ret x
  | PList [] => raise (IndexError (py "list index out of range"))
  | PStr (c :: _) => ret (PStr [c])
  | PStr [] => raise (IndexError (py "string index out of range"))
  | PDict _ => raise (KeyError (py "0"))
  | _ => raise (TypeError (py "object is not subscriptable"))
  end.

(** One subscript: [[key]] with a [str] key, or [[0]]. *)
Inductive subscript := K (key : string) | I0.

(** [v[s1][s2]...] *)
Fixpoint lookup (v : pyval) (path : list subscript) : result pyval :=
  match path with
  | [] => ret v
  | K key :: rest => let* x := getitem v (py key) in lookup x rest
  | I0 :: rest => let* x := getitem0 v in lookup x rest
  end.

(** ** [str(n)] for an [int] *)

Definition char_of_digit (d : N) : codepoint := (48 + d)%N.

Fixpoint digits_of_uint (u : Decimal.uint) : pystr :=
  match u with
  | Decimal.Nil => []
  | Decimal.D0 u' => char_of_digit 0 :: digits_of_uint u'
  | Decimal.D1 u' => char_of_digit 1 :: digits_of_uint u'
  | Decimal.D2 u' => char_of_digit 2 :: digits_of_uint u'
  | Decimal.D3 u' => char_of_digit 3 :: digits_of_uint u'
  | Decimal.D4 u' => char_of_digit 4 :: digits_of_uint u'
  | Decimal.D5 u' => char_of_digit 5 :: digits_of_uint u'
  | Decimal.D6 u' => char_of_digit 6 :: digits_of_uint u'
  | Decimal.D7 u' => char_of_digit 7 :: digits_of_uint u'
  | Decimal.D8 u' => char_of_digit 8 :: digits_of_uint u'
  | Decimal.D9 u' => char_of_digit 9 :: digits_of_uint u'
  end.

Definition MINUS : codepoint := 45%N.

(** [str(z)]: decimal digits without leading zeros, [-] in front of a
    negative number. *)
Definition str_of_int (z : Z) : pystr :=
  match Z.to_int z with
  | Decimal.Pos u => digits_of_uint u
  | Decimal.Neg u => MINUS :: digits_of_uint u
  end.

(** [lo <= c <= hi] *)
Definition between (lo c hi : N) : bool := (lo <=? c)%N && (c <=? hi)%N.

(** * The [json] module

    [json.dumps] with its default options ([ensure_ascii=True], separators
    [", "] and [": "]) and [json.loads] with the default decoder, on the
    values of [pyval], after CPython's [json.encoder], [json.decoder] and
    [json.scanner].  Two limits of the interpreter are left out: the
    recursion limit on nested arrays and objects, and the limit on the
    number of digits of an [int]. *)

Module Json.

Definition QUOTE : codepoint := 34%N.
Definition BACKSLASH : codepoint := 92%N.
Definition LETTER_u : codepoint := 117%N.
Definition COMMA : codepoint := 44%N.
Definition COLON : codepoint := 58%N.
Definition SPACE : codepoint := 32%N.
Definition LBRACKET : codepoint := 91%N.
Definition RBRACKET : codepoint := 93%N.
Definition LBRACE : codepoint := 123%N.
Definition RBRACE : codepoint := 125%N.

(** ** Encoding *)

(** ["0123456789abcdef"[d]] *)
Definition hex_char (d : N) : codepoint :=
  if (d <? 10)%N then (48 + d)%N else (87 + d)%N.

(** ['\\u{0:04x}'.format(n)] *)
Definition u_escape (n : N) : pystr :=
  [ BACKSLASH; LETTER_u;
    hex_char (N.land (N.shiftr n 12) 15);
    hex_char (N.land (N.shiftr n 8) 15);
    hex_char (N.land (N.shiftr n 4) 15);
    hex_char (N.land n 15) ].

(** The replacement of one character under [ensure_ascii]: the short
    escapes, the printable ASCII characters as they are, [\uXXXX] for the
    rest, as a surrogate pair above U+FFFF. *)
Definition encode_char (c : codepoint) : pystr :=
  if (c =? 34)%N then [BACKSLASH; QUOTE]
  else if (c =? 92)%N then [BACKSLASH; BACKSLASH]
  else if (c =? 10)%N then [BACKSLASH; 110%N]
  else if (c =? 13)%N then [BACKSLASH; 114%N]
  else if (c =? 9)%N then [BACKSLASH; 116%N]
  else if (c =? 12)%N then [BACKSLASH; 102%N]
  else if (c =? 8)%N then [BACKSLASH; 98%N]
  else if between 32 c 126 then [c]
  else if (c <? 65536)%N then u_escape c
  else
    let n := (c - 65536)%N in
    u_escape (N.lor 55296 (N.land (N.shiftr n 10) 1023))
    ++ u_escape (N.lor 56320 (N.land n 1023)).

Definition encode_string (s : pystr) : pystr :=
  [QUOTE] ++ flat_map encode_char s ++ [QUOTE].

(** [sep.join(parts)] *)
Fixpoint join (sep : pystr) (parts : list pystr) : pystr :=
  match parts with
  | [] => []
  | [p] => p
  | p :: rest => p ++ sep ++ join sep rest
  end.

Definition item_separator : pystr := [COMMA; SPACE].
Definition key_separator : pystr := [COLON; SPACE].

Fixpoint dumps (v : pyval) : pystr :=
  match v with
  | PNone => py "null"
  | PBool true => py "true"
  | PBool false => py "false"
  | PInt z => str_of_int z
  | PFloat literal => literal
  | PStr s => encode_string s
  | PList items =>
      [LBRACKET] ++ join item_separator (map dumps items) ++ [RBRACKET]
  | PDict items =>
      [LBRACE]
      ++ join item_separator
           (map (fun kv => encode_string (fst kv) ++ key_separator
                           ++ dumps (snd kv)) items)
      ++ [RBRACE]
  end.

(** ** Decoding *)

(** [WHITESPACE = [ \t\n\r]*] *)
Definition is_whitespace (c : codepoint) : bool :=
  (c =? 32)%N || (c =? 9)%N || (c =? 10)%N || (c =? 13)%N.

Fixpoint skip_whitespace (s : pystr) : pystr :=
  match s with
  | c :: r => if is_whitespace c then skip_whitespace r else s
  | [] => []
  end.

Definition hex_value (c : codepoint) : option N :=
  if between 48 c 57 then Some (c - 48)%N
  else if between 97 c 102 then Some (c - 87)%N
  else if between 65 c 70 then Some (c - 55)%N
  else None.

(** The four hexadecimal digits of a [\uXXXX] escape. *)
Definition decode_hex4 (a b c d : codepoint) : option N :=
  match hex_value a, hex_value b, hex_value c, hex_value d with
  | Some x, Some y, Some z, Some w =>
      Some (((x * 16 + y) * 16 + z) * 16 + w)%N
  | _, _, _, _ => None
  end.

(** [BACKSLASH[esc]] *)
Definition unescape (esc : codepoint) : option codepoint :=
  if (esc =? 34)%N then Some 34%N
  else if (esc =? 92)%N then Some 92%N
  else if (esc =? 47)%N then Some 47%N
  else if (esc =? 98)%N then Some 8%N
  else if (esc =? 102)%N then Some 12%N
  else if (esc =? 110)%N then Some 10%N
  else if (esc =? 114)%N then Some 13%N
  else if (esc =? 116)%N then Some 9%N
  else None.

Definition cons_char (c : codepoint) (x : option (pystr * pystr))
  : option (pystr * pystr) :=
  match x with
  | Some (str, rest) => Some (c :: str, rest)
  | None => None
  end.

(** [scanstring] in strict mode, from the character after the opening
    quote: the decoded string and what follows the closing quote. *)
Fixpoint scan_string (s : pystr) : option (pystr * pystr) :=
  match s with
  | [] => None
  | c :: r =>
      if (c =? QUOTE)%N then Some ([], r)
      else if (c =? BACKSLASH)%N then
        match r with
        | [] => None
        | esc :: r1 =>
            if (esc =? LETTER_u)%N then
              match r1 with
              | h1 :: h2 :: h3 :: h4 :: r5 =>
                  match decode_hex4 h1 h2 h3 h4 with
                  | None => None
                  | Some uni =>
                      if between 55296 uni 56319 then
                        match r5 with
                        | b :: u :: r7 =>
                            if (b =? BACKSLASH)%N && (u =? LETTER_u)%N then
                              match r7 with
                              | l1 :: l2 :: l3 :: l4 :: r11 =>
                                  match decode_hex4 l1 l2 l3 l4 with
                                  | None => None
                                  | Some uni2 =>
                                      if between 56320 uni2 57343 then
                                        cons_char
                                          (65536
                                           + N.lor
                                               (N.shiftl (uni - 55296) 10)
                                               (uni2 - 56320))%N
                                          (scan_string r11)
                                      else cons_char uni (scan_string r5)
                                  end
                              | _ => None
                              end
                            else cons_char uni (scan_string r5)
                        | _ => cons_char uni (scan_string r5)
                        end
                      else cons_char uni (scan_string r5)
                  end
              | _ => None
              end
            else
              match unescape esc with
              | Some ch => cons_char ch (scan_string r1)
              | None => None
              end
        end
      else if (c <? 32)%N then None
      else cons_char c (scan_string r)
  end.

Definition is_digit (c : codepoint) : bool := between 48 c 57.

(** The longest run of digits in front of [s], and the rest. *)
Fixpoint span_digits (s : pystr) : pystr * pystr :=
  match s with
  | c :: r =>
      if is_digit c then
        let (ds, rest) := span_digits r in (c :: ds, rest)
      else ([], s)
  | [] => ([], [])
  end.

(** [0|[1-9][0-9]*] *)
Definition match_int_digits (s : pystr) : option (pystr * pystr) :=
  match s with
  | c :: r =>
      if (c =? 48)%N then Some ([c], r)
      else if between 49 c 57 then
        let (ds, rest) := span_digits r in Some (c :: ds, rest)
      else None
  | [] => None
  end.

(** The integer part of [NUMBER_RE]: an optional [-] and the digits. *)
Definition match_integer (s : pystr) : option (pystr * pystr) :=
  match s with
  | c :: r =>
      if (c =? MINUS)%N then
        match match_int_digits r with
        | Some (ds, rest) => Some (MINUS :: ds, rest)
        | None => None
        end
      else match_int_digits s
  | [] => None
  end.

(** [(\.[0-9]+)?] *)
Definition match_frac (s : pystr) : pystr * pystr :=
  match s with
  | c :: r =>
      if (c =? 46)%N then
        match span_digits r with
        | ([], _) => ([], s)
        | (ds, rest) => (c :: ds, rest)
        end
      else ([], s)
  | [] => ([], [])
  end.

(** [([eE][-+]?[0-9]+)?] *)
Definition match_exp (s : pystr) : pystr * pystr :=
  match s with
  | c :: r =>
      if (c =? 101)%N || (c =? 69)%N then
        match r with
        | sign :: r' =>
            if (sign =? 45)%N || (sign =? 43)%N then
              match span_digits r' with
              | ([], _) => ([], s)
              | (ds, rest) => (c :: sign :: ds, rest)
              end
            else
              match span_digits r with
              | ([], _) => ([], s)
              | (ds, rest) => (c :: ds, rest)
              end
        | [] => ([], s)
        end
      else ([], s)
  | [] => ([], [])
  end.

Definition digit_of_char (c : codepoint) (u : Decimal.uint) : Decimal.uint :=
  if (c =? 48)%N then Decimal.D0 u
  else if (c =? 49)%N then Decimal.D1 u
  else if (c =? 50)%N then Decimal.D2 u
  else if (c =? 51)%N then Decimal.D3 u
  else if (c =? 52)%N then Decimal.D4 u
  else if (c =? 53)%N then Decimal.D5 u
  else if (c =? 54)%N then Decimal.D6 u
  else if (c =? 55)%N then Decimal.D7 u
  else if (c =? 56)%N then Decimal.D8 u
  else Decimal.D9 u.

Definition uint_of_digits (ds : pystr) : Decimal.uint :=
  fold_right digit_of_char Decimal.Nil ds.

(** [int(text)] on the text matched by [match_integer]. *)
Definition int_of_text (text : pystr) : Z :=
  match text with
  | c :: r =>
      if (c =? MINUS)%N then Z.of_int (Decimal.Neg (uint_of_digits r))
      else Z.of_int (Decimal.Pos (uint_of_digits text))
  | [] => 0
  end.

(** [NUMBER_RE.match]: an [int] when neither fraction nor exponent is
    there, a [float] otherwise. *)
Definition match_number (s : pystr) : option (pyval * pystr) :=
  match match_integer s with
  | None => None
  | Some (integer, r1) =>
      let (frac, r2) := match_frac r1 in
      let (exp, r3) := match_exp r2 in
      match frac ++ exp with
      | [] => Some (PInt (int_of_text integer), r3)
      | _ :: _ => Some (PFloat (integer ++ frac ++ exp), r3)
      end
  end.

(** [s[idx:idx + len(word)] == word], with what follows. *)
Fixpoint strip_prefix (word s : pystr) : option pystr :=
  match word, s with
  | [], _ => Some s
  | w :: word', c :: s' => if (w =? c)%N then strip_prefix word' s' else None
  | _ :: _, [] => None
  end.

(** The constants and the numbers, tried in the order of the scanner. *)
Definition scan_atom (s : pystr) : option (pyval * pystr) :=
  match strip_prefix (py "null") s with
  | Some r => Some (PNone, r)
  | None =>
  match strip_prefix (py "true") s with
  | Some r => Some (PBool true, r)
  | None =>
  match strip_prefix (py "false") s with
  | Some r => Some (PBool false, r)
  | None =>
  match match_number s with
  | Some res => Some res
  | None =>
  match strip_prefix (py "NaN") s with
  | Some r => Some (PFloat (py "NaN"), r)
  | None =>
  match strip_prefix (py "Infinity") s with
  | Some r => Some (PFloat (py "Infinity"), r)
  | None =>
  match strip_prefix (py "-Infinity") s with
  | Some r => Some (PFloat (py "-Infinity"), r)
  | None => None
  end end end end end end end.

(** [dict(pairs)]: a repeated key keeps its first position and takes the
    last value. *)
Definition dict_of_pairs (pairs : list (pystr * pyval))
  : list (pystr * pyval) :=
  fold_left (fun d kv => dict_set (fst kv) (snd kv) d) pairs [].

(** [scan_once], [JSONArray] and [JSONObject]; [fuel] bounds the depth of
    the calls. *)
Fixpoint scan_once (fuel : nat) (s : pystr) : option (pyval * pystr) :=
  match fuel with
  | O => None
  | S fuel' =>
      match s with
      | [] => None
      | c :: r =>
          if (c =? QUOTE)%N then
            match scan_string r with
            | Some (str, rest) => Some (PStr str, rest)
            | None => None
            end
          else if (c =? LBRACE)%N then
            match skip_whitespace r with
            | c' :: r' =>
                if (c' =? RBRACE)%N then Some (PDict [], r')
                else
                  match parse_members fuel' (c' :: r') with
                  | Some (pairs, rest) => Some (PDict (dict_of_pairs pairs), rest)
                  | None => None
                  end
            | [] => None
            end
          else if (c =? LBRACKET)%N then
            match skip_whitespace r with
            | c' :: r' =>
                if (c' =? RBRACKET)%N then Some (PList [], r')
                else
                  match parse_items fuel' (c' :: r') with
                  | Some (items, rest) => Some (PList items, rest)
                  | None => None
                  end
            | [] => None
            end
          else scan_atom s
      end
  end

with parse_items (fuel : nat) (s : pystr) : option (list pyval * pystr) :=
  match fuel with
  | O => None
  | S fuel' =>
      match scan_once fuel' s with
      | None => None
      | Some (value, r) =>
          match skip_whitespace r with
          | c :: r' =>
              if (c =? RBRACKET)%N then Some ([value], r')
              else if (c =? COMMA)%N then
                match parse_items fuel' (skip_whitespace r') with
                | Some (items, rest) => Some (value :: items, rest)
                | None => None
                end
              else None
          | [] => None
          end
      end
  end

with parse_members (fuel : nat) (s : pystr)
  : option (list (pystr * pyval) * pystr) :=
  match fuel with
  | O => None
  | S fuel' =>
      match s with
      | c :: r =>
          if (c =? QUOTE)%N then
            match scan_string r with
            | None => None
            | Some (key, r1) =>
                match skip_whitespace r1 with
                | c1 :: r2 =>
                    if (c1 =? COLON)%N then
                      match scan_once fuel' (skip_whitespace r2) with
                      | None => None
                      | Some (value, r3) =>
                          match skip_whitespace r3 with
                          | c3 :: r4 =>
                              if (c3 =? RBRACE)%N then
                                Some ([(key, value)], r4)
                              else if (c3 =? COMMA)%N then
                                match parse_members fuel'
                                        (skip_whitespace r4) with
                                | Some (pairs, rest) =>
                                    Some ((key, value) :: pairs, rest)
                                | None => None
                                end
                              else None
                          | [] => None
                          end
                      end
                    else None
                | [] => None
                end
            end
          else None
      | [] => None
      end
  end.

(** [json.loads(s)]: one value, white space around it, nothing else.  The
    fuel is never what stops a scan ([loads_fuel_enough] below). *)
Definition loads (s : pystr) : result pyval :=
  match scan_once (S (List.length s)) (skip_whitespace s) with
  | Some (value, rest) =>
      match skip_whitespace rest with
      | [] => ret value
      | _ :: _ => raise (JSONDecodeError (py "Extra data"))
      end
  | None => raise (JSONDecodeError (py "Expecting value"))
  end.

(** ** The values that survive a round trip *)

(** A Unicode scalar value: a code point that is no surrogate.  These are
    the characters of every [str] obtained by decoding UTF-8. *)
Definition scalar (c : codepoint) : bool :=
  (c <? 55296)%N || between 57344 c 1114111.

(** The literal of a finite [float]: a number with a fraction or an
    exponent, and nothing after it. *)
Definition float_literal (literal : pystr) : bool :=
  match match_number literal with
  | Some (PFloat _, []) => true
  | _ => false
  end.

Fixpoint distinct (keys : list pystr) : bool :=
  match keys with
  | [] => true
  | k :: rest => negb (existsb (pystr_eqb k) rest) && distinct rest
  end.

(** Strings of scalar values, finite floats, and dicts that hold each key
    once (as every Python dict does). *)
Fixpoint well_formed (v : pyval) : bool :=
  match v with
  | PNone | PBool _ | PInt _ => true
  | PFloat literal => float_literal literal
  | PStr s => forallb scalar s
  | PList items => forallb well_formed items
  | PDict items =>
      forallb (fun kv => forallb scalar (fst kv) && well_formed (snd kv)) items
      && distinct (map fst items)
  end.

(** ** Notions used in the proofs *)

(** What may follow a number without being taken for a part of it. *)
Definition delimited (rest : pystr) : bool :=
  match rest with
  | [] => true
  | c :: _ =>
      negb (is_digit c || (c =? 46)%N || (c =? 101)%N || (c =? 69)%N
            || (c =? 43)%N || (c =? 45)%N)
  end.

Definition number_char (c : codepoint) : bool :=
  is_digit c || (c =? 45)%N || (c =? 43)%N || (c =? 46)%N
  || (c =? 101)%N || (c =? 69)%N.

(** The text begins with a character that is neither white space nor a
    closing bracket. *)
Definition value_start (s : pystr) : Prop :=
  exists c r, s = c :: r /\ is_whitespace c = false /\
              (c =? RBRACKET)%N = false /\ (c =? RBRACE)%N = false.

(** [v], written and followed by a delimiter, is read back as [v] by any
    scanner that may go as deep as the text is long. *)
Definition reads_back (v : pyval) : Prop :=
  forall fuel rest,
    List.length (dumps v) <= fuel -> delimited rest = true ->
    scan_once fuel (dumps v ++ rest) = Some (v, rest).

Definition dump_member (kv : pystr * pyval) : pystr :=
  encode_string (fst kv) ++ key_separator ++ dumps (snd kv).

Definition printable (c : codepoint) : bool := between 32 c 126.

(** A scan that succeeds takes at least one character, and succeeds with
    the same result on any fuel that is at least the number of characters
    it took. *)
Definition settled {A} (scan : nat -> pystr -> option (A * pystr))
    (fuel : nat) : Prop :=
  forall s a r,
    scan fuel s = Some (a, r) ->
    List.length r < List.length s /\
    forall fuel', List.length s - List.length r <= fuel' ->
                  scan fuel' s = Some (a, r).

End Json.

(** ** [str.splitlines()] *)

(** The line boundaries of [str.splitlines]. *)
Definition is_line_boundary (c : codepoint) : bool :=
  (c =? 10)%N || (c =? 13)%N || (c =? 11)%N || (c =? 12)%N
  || (c =? 28)%N || (c =? 29)%N || (c =? 30)%N
  || (c =? 133)%N || (c =? 8232)%N || (c =? 8233)%N.

(** [line] holds, reversed, the characters of the line being read. *)
Fixpoint splitlines_from (line : pystr) (s : pystr) : list pystr :=
  match s with
  | [] => match line with [] => [] | _ :: _ => [rev line] end
  | c :: r =>
      if (c =? 13)%N then
        match r with
        | c' :: r' =>
            if (c' =? 10)%N then rev line :: splitlines_from [] r'
            else rev line :: splitlines_from [] r
        | [] => [rev line]
        end
      else if is_line_boundary c then rev line :: splitlines_from [] r
      else splitlines_from (c :: line) r
  end.

Definition splitlines (s : pystr) : list pystr := splitlines_from [] s.

(** ** [bytes.decode('utf-8')] *)

Definition bytes := list Byte.byte.

Definition continuation (b : N) : bool := (128 <=? b)%N && (b <=? 191)%N.

(** Strict UTF-8: shortest forms only, no surrogates, nothing above
    U+10FFFF; [None] is [UnicodeDecodeError]. *)
Fixpoint utf8_decode (bs : list N) : option pystr :=
  match bs with
  | [] => Some []
  | b0 :: r0 =>
      if (b0 <? 128)%N then option_map (cons b0) (utf8_decode r0)
      else
        match r0 with
        | [] => None
        | b1 :: r1 =>
            if between 194 b0 223 then
              if continuation b1 then
                option_map (cons ((b0 - 192) * 64 + (b1 - 128))%N)
                           (utf8_decode r1)
              else None
            else
              match r1 with
              | [] => None
              | b2 :: r2 =>
                  if between 224 b0 239 then
                    if (if (b0 =? 224)%N then between 160 b1 191
                        else if (b0 =? 237)%N then between 128 b1 159
                        else continuation b1) && continuation b2
                    then
                      option_map
                        (cons ((b0 - 224) * 4096 + (b1 - 128) * 64
                               + (b2 - 128))%N)
                        (utf8_decode r2)
                    else None
                  else
                    match r2 with
                    | [] => None
                    | b3 :: r3 =>
                        if between 240 b0 244 then
                          if (if (b0 =? 240)%N then between 144 b1 191
                              else if (b0 =? 244)%N then between 128 b1 143
                              else continuation b1)
                             && continuation b2 && continuation b3
                          then
                            option_map
                              (cons ((b0 - 240) * 262144 + (b1 - 128) * 4096
                                     + (b2 - 128) * 64 + (b3 - 128))%N)
                              (utf8_decode r3)
                          else None
                        else None
                    end
              end
        end
  end.

Definition decode_utf8 (b : bytes) : result pystr :=
  match utf8_decode (map Byte.to_N b) with
  | Some s => ret s
  | None => raise UnicodeDecodeError
  end.

(** The UTF-8 bytes of an ASCII literal. *)
Definition ascii_bytes (s : string) : bytes :=
  map byte_of_ascii (list_ascii_of_string s).

(** ** The S3 client *)

(** One entry of [response['Contents']]; only ['Key'] is read. *)
Record s3_object := S3Object { Key : pystr }.

(** The answer of [list_objects_v2]: the key ['Contents'] is absent when
    nothing matches the prefix. *)
Record list_response := ListResponse { Contents : option (list s3_object) }.

(** The calls the notebook makes on the client [s3]; each either answers
    or raises.  [get_object] stands for the call together with
    [['Body'].read()]. *)
Record s3_client := S3Client {
  list_objects_v2 : pystr -> pystr -> result list_response;
  get_object : pystr -> pystr -> result bytes;
  upload_file : pystr -> pystr -> pystr -> result unit
}.

(** * The input collector *)

Module Collector.

(** [int(datetime.now().timestamp())]: the clock is read in microseconds
    since the epoch, the resolution of [datetime]; [int] drops the
    fraction. *)
Definition int_timestamp (micros : Z) : Z := Z.quot micros 1000000.

Definition NEWLINE : codepoint := 10%N.

(** The instruction in front of the transcript: the f-string of the source
    runs over two lines, so it holds the line break and the indentation of
    its second line. *)
Definition instruction : pystr :=
  py "Write an accurate 250 word gender-neutral summary of the following text without adding preamble or "
  ++ [NEWLINE]
  ++ py "                        additonal information not present in the original text: ".

(** [body = {...}] *)
Definition request_body (input_text : pystr) : pyval :=
  PDict
    [ (py "anthropic_version", PStr (py "bedrock-2023-05-31"));
      (py "messages",
       PList
         [ PDict
             [ (py "role", PStr (py "user"));
               (py "content",
                PList
                  [ PDict [ (py "type", PStr (py "text"));
                            (py "text", PStr input_text) ] ]) ] ]);
      (py "max_tokens", PInt 300);
      (py "temperature", PFloat (py "0.1"));
      (py "top_p", PFloat (py "0.1"));
      (py "top_k", PInt 100) ].

(** [model_input = {"recordId": record_id, "modelInput": body}] *)
Definition model_input (record_id : pystr) (body : pyval) : pyval :=
  PDict [ (py "recordId", PStr record_id); (py "modelInput", body) ].

Section Run.

(** The client [s3] and the clock: [now i] is what the [i]-th reading of
    [datetime.now()] during the call returns. *)
Variable s3 : s3_client.
Variable now : nat -> Z.
Variable bucket_name : pystr.

(** The [for obj in ...] loop: [i] objects have been processed and
    [model_inputs] holds their records. *)
Fixpoint for_each_object (i : nat) (objs : list s3_object)
    (model_inputs : list pyval) : result (list pyval) :=
  match objs with
  | [] => ret model_inputs
  | obj :: rest =>
      let file_path := Key obj in
      let* file_obj := get_object s3 bucket_name file_path in
      let* file_content := decode_utf8 file_obj in
      let record_id := str_of_int (int_timestamp (now i)) in
      let input_text := instruction ++ file_content in
      let body := request_body input_text in
      for_each_object (S i) rest (model_inputs ++ [model_input record_id body])
  end.

(** [response.get('Contents', [])] *)
Definition contents_or_empty (response : list_response) : list s3_object :=
  match Contents response with
  | Some objs => objs
  | None => []
  end.

Definition prepare_model_inputs (prefix : pystr) : result (list pyval) :=
  let* response := list_objects_v2 s3 bucket_name prefix in
  for_each_object 0 (contents_or_empty response) [].

(** Reading one object: the download and the decoding. *)
Definition read_object (obj : s3_object) : result pystr :=
  let* file_obj := get_object s3 bucket_name (Key obj) in
  decode_utf8 file_obj.

(** The record made of the [i]-th object, whose text is [text]. *)
Definition record_for (i : nat) (text : pystr) : pyval :=
  model_input (str_of_int (int_timestamp (now i)))
              (request_body (instruction ++ text)).

Fixpoint records_from (i : nat) (texts : list pystr) : list pyval :=
  match texts with
  | [] => []
  | text :: rest => record_for i text :: records_from (S i) rest
  end.

End Run.

(** [body['messages'][0]['content'][0]['text']]: the prompt a request
    body carries. *)
Definition prompt_of (body : pyval) : result pyval :=
  let* messages := getitem body (py "messages") in
  let* message := getitem0 messages in
  let* content := getitem message (py "content") in
  let* part := getitem0 content in
  getitem part (py "text").

(** The [recordId] of a record, when it has one. *)
Definition record_id_of (record : pyval) : option pyval :=
  match record with
  | PDict items => dict_get (py "recordId") items
  | _ => None
  end.

End Collector.

(** * The uploader *)

Module Uploader.

(** The [os] functions the uploader calls. *)
Record os_module := OS {
  isfile : pystr -> bool;
  isdir : pystr -> bool;
  basename : pystr -> pystr;
  join : pystr -> pystr -> pystr;
  relpath : pystr -> pystr -> pystr;
  (* os.walk(top): the (root, dirs, files) triples in the order yielded *)
  walk : pystr -> list (pystr * list pystr * list pystr)
}.

Inductive event :=
| Uploaded (file bucket object_name : pystr)     (* upload_file returned *)
| UploadFailed (file bucket object_name : pystr) (* upload_file raised *)
| PrintedSuccess (file bucket object_name : pystr)
| PrintedError (file : pystr) (e : exn)
| PrintedNotFound (path : pystr).

Definition SLASH : codepoint := 47%N.

(** [name if bucket_subfolder is None else f"{bucket_subfolder}/{name}"] *)
Definition object_name_for (bucket_subfolder : option pystr) (name : pystr)
  : pystr :=
  match bucket_subfolder with
  | None => name
  | Some sub => sub ++ [SLASH] ++ name
  end.

Section Run.

Variable os : os_module.
Variable s3 : s3_client.
Variable path bucket_name : pystr.
Variable bucket_subfolder : option pystr.

(** The body of [for file in files], with its [try]/[except]. *)
Definition upload_one (root file : pystr) : list event :=
  let file_path := join os root file in
  let relative_path := relpath os file_path path in
  let object_name := object_name_for bucket_subfolder relative_path in
  match upload_file s3 file_path bucket_name object_name with
  | inr _ => [Uploaded file_path bucket_name object_name]
  | inl e => [UploadFailed file_path bucket_name object_name;
              PrintedError file_path e]
  end.

(** [for root, dirs, files in os.walk(path): for file in files: ...] *)
Definition upload_tree
    (triples : list (pystr * list pystr * list pystr)) : list event :=
  flat_map (fun '(root, _, files) => flat_map (upload_one root) files)
           triples.

(** The value returned ([True], [False] or [None]) and the effects. *)
Definition upload_to_s3 : pyval * list event :=
  if isfile os path then
    let object_name := object_name_for bucket_subfolder (basename os path) in
    match upload_file s3 path bucket_name object_name with
    | inr _ =>
        (PBool true, [Uploaded path bucket_name object_name;
                      PrintedSuccess path bucket_name object_name])
    | inl e =>
        (PBool false, [UploadFailed path bucket_name object_name;
                       PrintedError path e])
    end
  else if isdir os path then
    (PNone, upload_tree (walk os path))
  else
    (PNone, [PrintedNotFound path]).

End Run.

(** The uploads attempted, successful or not. *)
Definition attempted (ev : event) : bool :=
  match ev with
  | Uploaded _ _ _ | UploadFailed _ _ _ => true
  | _ => false
  end.

Definition failed (ev : event) : bool :=
  match ev with
  | UploadFailed _ _ _ => true
  | _ => false
  end.

End Uploader.

(** * The serialiser *)

Module Writer.

(** The local files: the text stored under each path. *)
Definition files := pystr -> option pystr.

(** [open(file_path, 'w')] followed by the [write] calls and the close. *)
Definition store (fs : files) (file_path text : pystr) : files :=
  fun p => if pystr_eqb p file_path then Some text else fs p.

(** What the loop writes: [json.dumps(item) + '\n'] for each item. *)
Fixpoint written (data : list pyval) : pystr :=
  match data with
  | [] => []
  | item :: rest =>
      let json_str := Json.dumps item in
      (json_str ++ [Collector.NEWLINE]) ++ written rest
  end.

Definition write_jsonl (data : list pyval) (file_path : pystr) (fs : files)
  : files :=
  store fs file_path (written data).

End Writer.

(** * The job poller *)

Module Poller.

(** What [bedrock.get_model_invocation_job] answers: only the [status]
    field is inspected by the loop, the whole response is printed on
    failure. *)
Record job_response := JobResponse { status : pystr; message : pystr }.

Definition Completed : pystr := py "Completed".
Definition Failed : pystr := py "Failed".
Definition Submitted : pystr := py "Submitted".
Definition InProgress : pystr := py "InProgress".

(** [status in ['Completed', 'Failed']] *)
Definition terminal (s : pystr) : bool :=
  pystr_eqb s Completed || pystr_eqb s Failed.

(** Effects of the loop, in the order they happen. *)
Inductive event :=
| Observed (s : pystr)            (* status = job_response['status'] *)
| PrintedResponse (r : job_response)
| PrintedStatus (s : pystr)
| Slept (seconds : Z).            (* time.sleep(seconds) *)

(** The variables of the cell and the effects so far. *)
Record state := State {
  status_var : pystr;             (* the variable [status] *)
  calls : nat;                    (* status queries issued so far *)
  trace : list event
}.

(** [status = ''] *)
Definition init : state := State [] 0 [].

Inductive control := Continue | Break | Raised (e : exn).

(** The service, as the sequence of answers to successive status queries. *)
Definition service := nat -> result job_response.

(** One execution of the loop body. *)
Definition body (svc : service) (st : state) : control * state :=
  match svc (calls st) with
  | inl e => (Raised e, State (status_var st) (S (calls st)) (trace st))
  | inr job =>
      let s := status job in
      let tr := trace st ++ [Observed s] in
      if pystr_eqb s Failed then
        (Continue, State s (S (calls st)) (tr ++ [PrintedResponse job]))
      else if pystr_eqb s Completed then
        (Break, State s (S (calls st)) (tr ++ [PrintedStatus s]))
      else
        (Continue, State s (S (calls st)) (tr ++ [PrintedStatus s; Slept 300]))
  end.

Inductive outcome :=
| Exited (st : state)             (* the loop was left normally *)
| Aborted (e : exn) (st : state)  (* an exception left the cell *)
| Running (st : state).           (* still looping when the fuel ran out *)

(** [while status not in ['Completed', 'Failed']: body]; [fuel] bounds the
    number of executions of the body. *)
Fixpoint while (fuel : nat) (svc : service) (st : state) : outcome :=
  if terminal (status_var st) then Exited st
  else
    match fuel with
    | O => Running st
    | S fuel' =>
        match body svc st with
        | (Continue, st') => while fuel' svc st'
        | (Break, st') => Exited st'
        | (Raised e, st') => Aborted e st'
        end
    end.

Definition poll (fuel : nat) (svc : service) : outcome := while fuel svc init.

(** The statuses observed, in order. *)
Fixpoint observations (tr : list event) : list pystr :=
  match tr with
  | [] => []
  | Observed s :: tr' => s :: observations tr'
  | _ :: tr' => observations tr'
  end.

(** The suspensions, in order. *)
Fixpoint sleeps (tr : list event) : list Z :=
  match tr with
  | [] => []
  | Slept z :: tr' => z :: sleeps tr'
  | _ :: tr' => sleeps tr'
  end.

Definition final_state (o : outcome) : state :=
  match o with
  | Exited st | Aborted _ st | Running st => st
  end.

(** The traces in which every observation of a non-terminal status is
    followed by its report and by one suspension of 300 seconds, and the
    observation of a terminal status by no suspension and no further
    observation. *)
Inductive paced : list event -> Prop :=
| paced_nil : paced []
| paced_wait s tr :
    terminal s = false -> paced tr ->
    paced (Observed s :: PrintedStatus s :: Slept 300 :: tr)
| paced_stop s tr :
    terminal s = true -> sleeps tr = [] -> observations tr = [] ->
    paced (Observed s :: tr).

(** The answers to the first [n] queries were the statuses [obs]. *)
Definition answered (svc : service) (n : nat) (obs : list pystr) : Prop :=
  Forall2 (fun i s => exists job, svc i = inr job /\ status job = s)
          (seq 0 n) obs.

(** What holds of the state each time the loop condition is evaluated. *)
Definition at_guard (svc : service) (st : state) : Prop :=
  answered svc (calls st) (observations (trace st)) /\
  ((observations (trace st) = [] /\ status_var st = []) \/
   exists earlier,
     observations (trace st) = earlier ++ [status_var st] /\
     Forall (fun s => terminal s = false) earlier).

(** The events of the iterations that ended in a suspension. *)
Definition wait_events (statuses : list pystr) : list event :=
  flat_map (fun s => [Observed s; PrintedStatus s; Slept 300]) statuses.

(** The service never answers with a terminal status. *)
Definition never_terminal (svc : service) : Prop :=
  forall i, exists job, svc i = inr job /\ terminal (status job) = false.

End Poller.

(** * The result retriever *)

Module Retriever.

(** [output_entry = {...}]: the items are evaluated in the order
    written. *)
Definition output_entry_of (data : pyval) : result pyval :=
  let* request_id := getitem data (py "recordId") in
  let* output_text :=
    (let* model_output := getitem data (py "modelOutput") in
     let* content := getitem model_output (py "content") in
     let* first := getitem0 content in
     getitem first (py "text")) in
  let* input_tokens :=
    (let* model_output := getitem data (py "modelOutput") in
     let* usage := getitem model_output (py "usage") in
     getitem usage (py "input_tokens")) in
  let* output_tokens :=
    (let* model_output := getitem data (py "modelOutput") in
     let* usage := getitem model_output (py "usage") in
     getitem usage (py "output_tokens")) in
  let* model :=
    (let* model_output := getitem data (py "modelOutput") in
     getitem model_output (py "model")) in
  let* stop_reason :=
    (let* model_output := getitem data (py "modelOutput") in
     getitem model_output (py "stop_reason")) in
  let* request_id' := getitem data (py "recordId") in
  let* max_tokens :=
    (let* model_in := getitem data (py "modelInput") in
     getitem model_in (py "max_tokens")) in
  let* temperature :=
    (let* model_in := getitem data (py "modelInput") in
     getitem model_in (py "temperature")) in
  let* top_p :=
    (let* model_in := getitem data (py "modelInput") in
     getitem model_in (py "top_p")) in
  let* top_k :=
    (let* model_in := getitem data (py "modelInput") in
     getitem model_in (py "top_k")) in
  ret (PDict
         [ (py "request_id", request_id);
           (py "output_text", output_text);
           (py "observability",
            PDict
              [ (py "input_tokens", input_tokens);
                (py "output_tokens", output_tokens);
                (py "model", model);
                (py "stop_reason", stop_reason);
                (py "request_id", request_id');
                (py "max_tokens", max_tokens);
                (py "temperature", temperature);
                (py "top_p", top_p);
                (py "top_k", top_k) ]) ]).

(** The body of [for line in json_data.splitlines()]. *)
Definition entry_of_line (line : pystr) : result pyval :=
  let* data := Json.loads line in
  output_entry_of data.

(** The variables the loop assigns: the list [output_data] and the
    variable [output_entry], unbound until a line has been processed. *)
Record vars := Vars {
  output_data : list pyval;
  output_entry : option pyval
}.

(** The loop, up to its end or to the first exception. *)
Fixpoint for_each_line (lines : list pystr) (vs : vars) : option exn * vars :=
  match lines with
  | [] => (None, vs)
  | line :: rest =>
      match entry_of_line line with
      | inl e => (Some e, vs)
      | inr entry =>
          for_each_line rest (Vars (output_data vs ++ [entry]) (Some entry))
      end
  end.

Inductive event :=
| Requested (bucket key : pystr)      (* s3.get_object(Bucket, Key) *)
| PrintedCount (n : nat)              (* "Successfully read n JSON objects" *)
| PrintedError (e : exn)              (* "Error reading JSON file from S3" *)
| PrintedSampleHeader
| PrintedEntry (entry : pyval).

(** What the cell leaves behind. *)
Record outcome := Outcome {
  final : vars;
  events : list event;
  raised : option exn                 (* an exception that left the cell *)
}.

Definition SLASH : codepoint := 47%N.

Section Cell.

Variable s3 : s3_client.
Variables bucket_name model_input_summary_prefix output_prefix : pystr.
Variables job_id filename : pystr.

(** The binding of [output_entry] when the cell starts: [None] in a fresh
    kernel. *)
Variable output_entry0 : option pyval.

(** [prefix = f"{model_input_summary_prefix}/{output_prefix}/{job_id}/"] *)
Definition prefix : pystr :=
  model_input_summary_prefix ++ [SLASH] ++ output_prefix ++ [SLASH]
  ++ job_id ++ [SLASH].

(** [object_key = f"{prefix}{filename}.out"] *)
Definition object_key : pystr := prefix ++ filename ++ py ".out".

(** The [try] block. *)
Definition try_block : option exn * vars :=
  let start := Vars [] output_entry0 in
  match get_object s3 bucket_name object_key with
  | inl e => (Some e, start)
  | inr body =>
      match decode_utf8 body with
      | inl e => (Some e, start)
      | inr json_data => for_each_line (splitlines json_data) start
      end
  end.

Definition retrieve : outcome :=
  let (failure, vs) := try_block in
  let report :=
    match failure with
    | None => PrintedCount (List.length (output_data vs))
    | Some e => PrintedError e
    end in
  let log := [Requested bucket_name object_key; report; PrintedSampleHeader] in
  match output_entry vs with
  | Some entry => Outcome vs (log ++ [PrintedEntry entry]) None
  | None => Outcome vs log (Some (NameError (py "output_entry")))
  end.

End Cell.

(** Where each item of an output entry comes from in the decoded line:
    the path read in the line and the path it is stored under. *)
Definition fields : list (list subscript * list subscript) :=
  [ ([K "recordId"], [K "request_id"]);
    ([K "modelOutput"; K "content"; I0; K "text"], [K "output_text"]);
    ([K "modelOutput"; K "usage"; K "input_tokens"],
     [K "observability"; K "input_tokens"]);
    ([K "modelOutput"; K "usage"; K "output_tokens"],
     [K "observability"; K "output_tokens"]);
    ([K "modelOutput"; K "model"], [K "observability"; K "model"]);
    ([K "modelOutput"; K "stop_reason"], [K "observability"; K "stop_reason"]);
    ([K "recordId"], [K "observability"; K "request_id"]);
    ([K "modelInput"; K "max_tokens"], [K "observability"; K "max_tokens"]);
    ([K "modelInput"; K "temperature"], [K "observability"; K "temperature"]);
    ([K "modelInput"; K "top_p"], [K "observability"; K "top_p"]);
    ([K "modelInput"; K "top_k"], [K "observability"; K "top_k"]) ].

(** [entry] holds, under each of its paths, the value [data] has under
    the corresponding path. *)
Definition carries (data entry : pyval) : Prop :=
  Forall (fun ft => exists x,
            lookup data (fst ft) = inr x /\ lookup entry (snd ft) = inr x)
         fields.

(** The keys asked of S3. *)
Fixpoint requested_keys (evs : list event) : list pystr :=
  match evs with
  | [] => []
  | Requested _ key :: rest => key :: requested_keys rest
  | _ :: rest => requested_keys rest
  end.

End Retriever.

(** * Sample runs *)

(** A job that is submitted, runs and completes. *)
Definition svc_completes : Poller.service :=
  fun i =>
    match i with
    | 0 => inr (Poller.JobResponse Poller.Submitted [])
    | 1 => inr (Poller.JobResponse Poller.InProgress [])
    | _ => inr (Poller.JobResponse Poller.Completed [])
    end.

(** A job that stays in progress for ever. *)
Definition svc_stuck : Poller.service :=
  fun _ => inr (Poller.JobResponse Poller.InProgress []).

(** What [get_object] raises on a key that is not there. *)
Definition NoSuchKey : exn :=
  Exn (py "NoSuchKey") (py "The specified key does not exist.").

(** A bucket with two transcripts, [raw/a.txt] and [raw/b.txt]. *)
Definition s3_two : s3_client :=
  S3Client
    (fun _ _ =>
       inr (ListResponse (Some [S3Object (py "raw/a.txt");
                                S3Object (py "raw/b.txt")])))
    (fun _ key =>
       if pystr_eqb key (py "raw/a.txt") then inr (ascii_bytes "Hello")
       else if pystr_eqb key (py "raw/b.txt") then inr (ascii_bytes "World")
       else inl NoSuchKey)
    (fun _ _ _ => inr tt).

(** The same listing, but [raw/b.txt] is not valid UTF-8. *)
Definition s3_broken : s3_client :=
  S3Client
    (list_objects_v2 s3_two)
    (fun _ key =>
       if pystr_eqb key (py "raw/a.txt") then inr (ascii_bytes "Hello")
       else if pystr_eqb key (py "raw/b.txt") then inr [Byte.xff; Byte.xfe]
       else inl NoSuchKey)
    (fun _ _ _ => inr tt).

(** A bucket in which nothing lies under the prefix. *)
Definition s3_empty : s3_client :=
  S3Client (fun _ _ => inr (ListResponse None))
           (fun _ _ => inl NoSuchKey)
           (fun _ _ _ => inr tt).

(** A clock read twice a second, from 2023-11-14 22:13:20.2 UTC on. *)
Definition clock_fast (i : nat) : Z :=
  (1700000000200000 + Z.of_nat i * 500000)%Z.

(** A directory with two files and a sub-directory with a third. *)
Definition os_tree : Uploader.os_module :=
  Uploader.OS
    (fun _ => false)
    (fun p => pystr_eqb p (py "./unzipped_transcripts"))
    (fun p => p)
    (fun root file => root ++ [Uploader.SLASH] ++ file)
    (fun file_path start => skipn (S (List.length start)) file_path)
    (fun top =>
       [ (top, [py "calls"], [py "a.txt"; py "b.txt"]);
         (top ++ py "/calls", [], [py "c.txt"]) ]).

(** A client on which every call fails. *)
Definition s3_down : s3_client :=
  S3Client (fun _ _ => inl (Exn (py "EndpointConnectionError") []))
           (fun _ _ => inl (Exn (py "EndpointConnectionError") []))
           (fun _ _ _ => inl (Exn (py "S3UploadFailedError") [])).

(** A line of the output file, as the service writes it. *)
Definition served_line (record_id summary : string) : pyval :=
  PDict
    [ (py "modelInput",
       Collector.request_body (Collector.instruction ++ py "Hello"));
      (py "modelOutput",
       PDict
         [ (py "id", PStr (py "msg_01"));
           (py "type", PStr (py "message"));
           (py "role", PStr (py "assistant"));
           (py "model", PStr (py "claude-3-haiku-20240307"));
           (py "content",
            PList [ PDict [ (py "type", PStr (py "text"));
                            (py "text", PStr (py summary)) ] ]);
           (py "stop_reason", PStr (py "end_turn"));
           (py "stop_sequence", PNone);
           (py "usage",
            PDict [ (py "input_tokens", PInt 42);
                    (py "output_tokens", PInt 7) ]) ]);
      (py "recordId", PStr (py record_id)) ].

(** The entry the cell builds from such a line. *)
Definition entry_for (record_id summary : string) : pyval :=
  PDict
    [ (py "request_id", PStr (py record_id));
      (py "output_text", PStr (py summary));
      (py "observability",
       PDict
         [ (py "input_tokens", PInt 42);
           (py "output_tokens", PInt 7);
           (py "model", PStr (py "claude-3-haiku-20240307"));
           (py "stop_reason", PStr (py "end_turn"));
           (py "request_id", PStr (py record_id));
           (py "max_tokens", PInt 300);
           (py "temperature", PFloat (py "0.1"));
           (py "top_p", PFloat (py "0.1"));
           (py "top_k", PInt 100) ]) ].

(** The bytes of an ASCII text. *)
Definition encode_ascii (s : pystr) : bytes :=
  flat_map (fun c => match Byte.of_N c with Some b => [b] | None => [] end) s.

(** An output file whose second line is cut short. *)
Definition text_truncated : pystr :=
  Json.dumps (served_line "1700000000" "A summary.") ++ [Collector.NEWLINE]
  ++ py "{oops" ++ [Collector.NEWLINE].

(** An output file with two well-formed lines. *)
Definition text_complete : pystr :=
  Json.dumps (served_line "1700000000" "A summary.") ++ [Collector.NEWLINE]
  ++ Json.dumps (served_line "1700000001" "Another one.")
  ++ [Collector.NEWLINE].

(** A bucket that holds [text] as the output file of job [job123]. *)
Definition s3_serving (text : pystr) : s3_client :=
  S3Client
    (fun _ _ => inr (ListResponse None))
    (fun _ key =>
       if pystr_eqb key (py "in/out/job123/batch-1700000000.jsonl.out")
       then inr (encode_ascii text)
       else inl NoSuchKey)
    (fun _ _ _ => inr tt).

(** The retrieval cell run on that bucket in a fresh kernel. *)
Definition retrieve_from (text : pystr) : Retriever.outcome :=
  Retriever.retrieve (s3_serving text) (py "bucket") (py "in") (py "out")
                     (py "job123") (py "batch-1700000000.jsonl") None.

(** The records of two transcripts. *)
Definition sample_batch : list pyval :=
  [ Collector.model_input (py "1700000000")
      (Collector.request_body (Collector.instruction ++ py "Hello"));
    Collector.model_input (py "1700000001")
      (Collector.request_body (Collector.instruction ++ py "World")) ].

(** A job whose second status query is throttled. *)
Definition svc_throttled : Poller.service :=
  fun i =>
    match i with
    | 0 => inr (Poller.JobResponse Poller.Submitted [])
    | _ => inl (Exn (py "ThrottlingException") (py "Rate exceeded"))
    end.

(** * The cells between the functions *)

Module Cells.

Definition SLASH : codepoint := 47%N.

Definition AttributeError (what : pystr) : exn :=
  Exn (py "AttributeError") what.

(** [s.split(sep)] for a separator of one character; [part] holds,
    reversed, the characters read since the last separator. *)
Fixpoint split_from (sep : codepoint) (part : pystr) (s : pystr)
  : list pystr :=
  match s with
  | [] => [rev part]
  | c :: r =>
      if (c =? sep)%N then rev part :: split_from sep [] r
      else split_from sep (c :: part) r
  end.

Definition split (sep : codepoint) (s : pystr) : list pystr :=
  split_from sep [] s.

(** [jobArn = response.get('jobArn')] and [job_id = jobArn.split('/')[1]]:
    the two variables, or the exception of the second statement. *)
Definition job_cell (response : list (pystr * pyval))
  : result (pyval * pystr) :=
  let jobArn :=
    match dict_get (py "jobArn") response with
    | Some v => v
    | None => PNone
    end in
  match jobArn with
  | PStr arn =>
      match nth_error (split SLASH arn) 1 with
      | Some job_id => ret (jobArn, job_id)
      | None => raise (IndexError (py "list index out of range"))
      end
  | _ => raise (AttributeError (py "object has no attribute 'split'"))
  end.

(** [model_id = repository.split("/")[-1]]; [split] never returns the
    empty list. *)
Definition model_id_of (repository : pystr) : pystr :=
  last (split SLASH repository) [].

(** [p.rfind(c)]: the index of the last [c] in [p], or [-1]. *)
Fixpoint rfind (c : codepoint) (p : pystr) : Z :=
  match p with
  | [] => -1
  | x :: r =>
      let i := rfind c r in
      if (0 <=? i)%Z then (i + 1)%Z
      else if (x =? c)%N then 0%Z
      else (-1)%Z
  end.

(** [posixpath.basename]: [i = p.rfind('/') + 1; return p[i:]] *)
Definition posix_basename (p : pystr) : pystr :=
  skipn (Z.to_nat (rfind SLASH p + 1)) p.

(** [filename = 'batch-' + str(int(datetime.now().timestamp())) +
    '.jsonl'], for a clock read in microseconds. *)
Definition filename_at (micros : Z) : pystr :=
  py "batch-" ++ str_of_int (Collector.int_timestamp micros) ++ py ".jsonl".

Section Notebook.

(** The configuration variables of the notebook. *)
Variables bucket_name model_input_summary_prefix output_prefix : pystr.

(** [upload_to_s3(path=f"./{filename}", bucket_name=bucket_name,
    bucket_subfolder=model_input_summary_prefix)] *)
Definition upload_cell (os : Uploader.os_module) (s3 : s3_client)
    (filename : pystr) : pyval * list Uploader.event :=
  Uploader.upload_to_s3 os s3 (py "./" ++ filename) bucket_name
                        (Some model_input_summary_prefix).

(** [inputDataConfig["s3InputDataConfig"]["s3Uri"]] *)
Definition input_s3_uri (filename : pystr) : pystr :=
  py "s3://" ++ bucket_name ++ py "/" ++ model_input_summary_prefix
  ++ py "/" ++ filename.

(** [outputDataConfig["s3OutputDataConfig"]["s3Uri"]] *)
Definition output_s3_uri : pystr :=
  py "s3://" ++ bucket_name ++ py "/" ++ model_input_summary_prefix
  ++ py "/" ++ output_prefix ++ py "/".

End Notebook.

End Cells.

(** * The reranker's inference script *)

Module Reranker.

(** [for x in v]: the items of a list, the characters of a str, the keys
    of a dict. *)
Definition iterate (v : pyval) : result (list pyval) :=
  match v with
  | PList items => ret items
  | PStr s => ret (map (fun c => PStr [c]) s)
  | PDict items => ret (map (fun kv => PStr (fst kv)) items)
  | _ => raise (TypeError (py "object is not iterable"))
  end.

(** [l[:stop]]: a negative [stop] counts from the end. *)
Definition slice_to {A} (stop : pyval) (l : list A) : result (list A) :=
  match stop with
  | PNone => ret l
  | PInt z =>
      ret (if (0 <=? z)%Z then firstn (Z.to_nat z) l
           else firstn (List.length l - Z.to_nat (- z)) l)
  | PBool b => ret (firstn (if b then 1 else 0) l)
  | _ => raise (TypeError (py "slice indices must be integers or None or have an __index__ method"))
  end.

Section Model.

(** The scores are the elements of a tensor: all the script does with
    them is to compare them with [<] and to return them. *)
Variable score : Type.
Variable lt : score -> score -> bool.

(** The tokenizer and the model: the logits of the pairs of [pair_list],
    flattened by [view(-1)] and converted by [float()]. *)
Variable run_model : list (pyval * pyval) -> result (list score).

(** One element of [response]: [{"index": x, "score": scores[x]}]. *)
Record hit := Hit { index : nat; score_of : score }.

(** [range(len(scores))] with the key of each index, [scores[k]]: the
    sort computes each key once and moves it with its index. *)
Definition keyed (scores : list score) : list (nat * score) :=
  combine (seq 0 (List.length scores)) scores.

(** One insertion of a stable ascending sort: [x] goes in front of the
    first element whose key is not below its own. *)
Fixpoint insert (x : nat * score) (l : list (nat * score))
  : list (nat * score) :=
  match l with
  | [] => [x]
  | y :: l' => if lt (snd y) (snd x) then y :: insert x l' else x :: l
  end.

(** [list.sort]: stable, ascending, comparing keys with [<] only.  When
    [<] is a strict weak order on the keys this is the result of every
    stable sort. *)
Definition sort_ascending (l : list (nat * score)) : list (nat * score) :=
  fold_right insert [] l.

(** [sorted(..., reverse=True)]: the list is reversed, sorted and
    reversed again, which keeps equal keys in their first order. *)
Definition sorted_reverse (l : list (nat * score)) : list (nat * score) :=
  rev (sort_ascending (rev l)).

Definition predict_fn (data : pyval) : result (list hit) :=
  let* query := getitem data (py "query") in
  let* documents := getitem data (py "documents") in
  let* topk := getitem data (py "topk") in
  let* docs := iterate documents in
  let pair_list := map (fun x => (query, x)) docs in
  let* scores := run_model pair_list in
  let* sorted_indexes := slice_to topk (sorted_reverse (keyed scores)) in
  ret (map (fun x => Hit (fst x) (snd x)) sorted_indexes).

(** The order of a stable ascending sort of elements that stood in the
    order [earlier]: keys do not fall, and equal keys keep their order. *)
Definition stable_order (earlier : nat * score -> nat * score -> Prop)
    (x y : nat * score) : Prop :=
  lt (snd y) (snd x) = false /\ (lt (snd x) (snd y) = false -> earlier x y).

(** The order of [response]: scores do not rise, and of two equal scores
    the one of the lower index comes first. *)
Definition ranked_before (a b : hit) : Prop :=
  lt (score_of a) (score_of b) = false /\
  (lt (score_of b) (score_of a) = false -> index a < index b).

End Model.

End Reranker.

(** * The generation of questions *)

Module Questions.

(** [doc_size = 700] *)
Definition doc_size : nat := 700.

(** [math.ceil(n / d)]: the quotient is a float, and for the lengths a
    list can have its ceiling is the ceiling of the exact quotient. *)
Definition ceil_div (n d : nat) : nat :=
  if n mod d =? 0 then n / d else S (n / d).

(** The variables of the loop: [start], the two lists of [data_samples],
    and the texts sent to [generate_questions] so far. *)
Record vars := Vars {
  start : nat;
  question : list pyval;
  ground_truth : list pyval;
  asked : list pystr
}.

Section Run.

(** [helper.generate_questions(bedrock_runtime, model_id, batch_text)],
    from [utils/helper.py]: what it returns for a text, or raises. *)
Variable generate_questions : pystr -> result pyval.

Variable my_texts : list pystr.

(** [data_samples[key].extend(ds[key])] *)
Definition extension (ds : pyval) (key : pystr) : result (list pyval) :=
  let* items := getitem ds key in
  Reranker.iterate items.

(** [for batch in range(batches): ...], up to its end or to the first
    exception. *)
Fixpoint for_each_batch (batches : nat) (vs : vars) : option exn * vars :=
  match batches with
  | O => (None, vs)
  | S batches' =>
      let batch_text_arr := firstn doc_size (skipn (start vs) my_texts) in
      let batch_text := List.concat batch_text_arr in
      let start' := start vs + doc_size in
      let asked' := asked vs ++ [batch_text] in
      match generate_questions batch_text with
      | inl e => (Some e, Vars start' (question vs) (ground_truth vs) asked')
      | inr ds =>
          match extension ds (py "question") with
          | inl e =>
              (Some e, Vars start' (question vs) (ground_truth vs) asked')
          | inr qs =>
              match extension ds (py "ground_truth") with
              | inl e =>
                  (Some e,
                   Vars start' (question vs ++ qs) (ground_truth vs) asked')
              | inr gs =>
                  for_each_batch batches'
                    (Vars start' (question vs ++ qs) (ground_truth vs ++ gs)
                          asked')
              end
          end
      end
  end.

(** The two cells: [batches = math.ceil(len(my_texts) / doc_size)], the
    initialisation of [data_samples] and the loop. *)
Definition generate_all : option exn * vars :=
  let batches := ceil_div (List.length my_texts) doc_size in
  for_each_batch batches (Vars 0 [] [] []).

(** The [b]-th slice of [my_texts], joined. *)
Definition batch_text_of (b : nat) : pystr :=
  List.concat (firstn doc_size (skipn (b * doc_size) my_texts)).

(** The same, counting the slices from the text at [first] on. *)
Definition batch_text_from (first b : nat) : pystr :=
  List.concat (firstn doc_size (skipn (first + b * doc_size) my_texts)).

(** What a batch text adds to [data_samples[key]] when its call and the
    extension succeed. *)
Definition answers_to (key : pystr) (batch_text : pystr) : list pyval :=
  match bind (generate_questions batch_text)
             (fun ds => extension ds key) with
  | inr items => items
  | inl _ => []
  end.

End Run.

End Questions.

(** * Further sample values *)

(** The answer of [create_model_invocation_job]. *)
Definition job_created : list (pystr * pyval) :=
  [ (py "ResponseMetadata", PDict [(py "HTTPStatusCode", PInt 200)]);
    (py "jobArn",
     PStr (py "arn:aws:bedrock:us-east-1:123456789012:model-invocation-job/6zgf2xl1jk4w")) ].

(** A working directory in which the batch file of [clock_fast 0] lies. *)
Definition os_flat : Uploader.os_module :=
  Uploader.OS
    (fun p => pystr_eqb p (py "./batch-1700000000.jsonl"))
    (fun _ => false)
    Cells.posix_basename
    (fun root file => root ++ [Uploader.SLASH] ++ file)
    (fun file_path start => skipn (S (List.length start)) file_path)
    (fun _ => []).

(** A model that scores a document by its length. *)
Definition model_by_length (pair_list : list (pyval * pyval))
  : result (list Z) :=
  ret (map (fun p => match snd p with
                     | PStr s => Z.of_nat (List.length s)
                     | _ => 0%Z
                     end) pair_list).

(** A request to the reranker: four documents, the best two wanted. *)
Definition rerank_request : pyval :=
  PDict [ (py "query", PStr (py "q"));
          (py "documents",
           PList [PStr (py "aaa"); PStr (py "b"); PStr (py "ccc");
                  PStr (py "dd")]);
          (py "topk", PInt 2) ].

(** A generator that asks one question on a text, the text itself. *)
Definition questions_echo (batch_text : pystr) : result pyval :=
  ret (PDict [ (py "question", PList [PStr (py "What is said?")]);
               (py "ground_truth", PList [PStr batch_text]) ]).

(** A generator whose answer lacks the key ['ground_truth']. *)
Definition questions_only (batch_text : pystr) : result pyval :=
  ret (PDict [ (py "question", PList [PStr (py "What is said?")]) ]).

(** * Properties *)

(** ** Strings *)

Lemma pystr_eqb_eq (a b : pystr) : pystr_eqb a b = true <-> a = b.
Proof.
  unfold pystr_eqb. destruct (list_eq_dec N.eq_dec a b); split; congruence.
Qed.

Lemma pystr_eqb_refl (a : pystr) : pystr_eqb a a = true.
Proof. now apply pystr_eqb_eq. Qed.

Lemma pystr_eqb_neq (a b : pystr) : pystr_eqb a b = false <-> a <> b.
Proof.
  unfold pystr_eqb. destruct (list_eq_dec N.eq_dec a b); split; congruence.
Qed.

(** ** The job poller *)

Section PollerFacts.

Import Poller.

Variable svc : service.

Lemma terminal_spec (s : pystr) :
  terminal s = true <-> s = Completed \/ s = Failed.
Proof.
  unfold terminal. rewrite orb_true_iff, !pystr_eqb_eq. tauto.
Qed.

Lemma observations_app (tr1 tr2 : list event) :
  observations (tr1 ++ tr2) = observations tr1 ++ observations tr2.
Proof.
  induction tr1 as [|ev tr1 IH]; simpl; [reflexivity|].
  destruct ev; simpl; now rewrite IH.
Qed.

Lemma sleeps_app (tr1 tr2 : list event) :
  sleeps (tr1 ++ tr2) = sleeps tr1 ++ sleeps tr2.
Proof.
  induction tr1 as [|ev tr1 IH]; simpl; [reflexivity|].
  destruct ev; simpl; now rewrite IH.
Qed.

Lemma answered_snoc n obs job :
  answered svc n obs -> svc n = inr job -> answered svc (S n) (obs ++ [status job]).
Proof.
  unfold answered. intros H Hn. rewrite seq_S. simpl.
  apply Forall2_app; [exact H|]. constructor; [|constructor]. now exists job.
Qed.

Lemma at_guard_init : at_guard svc init.
Proof. split; [constructor|]. now left. Qed.

Lemma at_guard_earlier st :
  at_guard svc st -> terminal (status_var st) = false ->
  Forall (fun s => terminal s = false) (observations (trace st)).
Proof.
  intros [_ [[-> _]|(earlier & -> & Hall)]] Hnt; [constructor|].
  apply Forall_app. split; [exact Hall|]. now constructor.
Qed.

Lemma body_at_guard st c st' :
  at_guard svc st -> terminal (status_var st) = false ->
  body svc st = (c, st') ->
  match c with
  | Raised _ => True
  | Continue => at_guard svc st'
  | Break => at_guard svc st' /\ terminal (status_var st') = true
  end.
Proof.
  intros Hg Hnt Hb. pose proof (at_guard_earlier Hg Hnt) as Hall.
  destruct Hg as [Hans _]. unfold body in Hb.
  destruct (svc (calls st)) as [e|job] eqn:Hsvc; [now inversion Hb|].
  assert (Hstep : forall extra, observations extra = [] ->
             at_guard svc (State (status job) (S (calls st))
                             ((trace st ++ [Observed (status job)]) ++ extra))).
  { intros extra Hx.
    split; simpl; rewrite !observations_app, Hx, app_nil_r; simpl.
    - now apply answered_snoc.
    - right. now exists (observations (trace st)). }
  destruct (pystr_eqb (status job) Failed) eqn:HF.
  - inversion Hb; subst. now apply Hstep.
  - destruct (pystr_eqb (status job) Completed) eqn:HC; inversion Hb; subst.
    + split; [now apply Hstep|]. simpl. unfold terminal. now rewrite HC.
    + now apply Hstep.
Qed.

Lemma while_exit fuel : forall st st',
  at_guard svc st -> while fuel svc st = Exited st' ->
  at_guard svc st' /\ terminal (status_var st') = true.
Proof.
  induction fuel as [|fuel IH]; intros st st' Hg Hw; simpl in Hw.
  - destruct (terminal (status_var st)) eqn:Ht; [|discriminate].
    inversion Hw; subst. now split.
  - destruct (terminal (status_var st)) eqn:Ht.
    + inversion Hw; subst. now split.
    + destruct (body svc st) as [c st1] eqn:Hb.
      pose proof (body_at_guard Hg Ht Hb) as Hc.
      destruct c.
      * now apply (IH st1).
      * now inversion Hw; subst.
      * discriminate.
Qed.

Lemma at_guard_calls st :
  at_guard svc st -> calls st = List.length (observations (trace st)).
Proof.
  intros [Hans _]. unfold answered in Hans.
  apply Forall2_length in Hans. now rewrite length_seq in Hans.
Qed.

Lemma body_calls st c st' :
  body svc st = (c, st') -> calls st' = S (calls st).
Proof.
  unfold body. destruct (svc (calls st)) as [e|job].
  - intros H. now inversion H.
  - destruct (pystr_eqb (status job) Failed);
      [|destruct (pystr_eqb (status job) Completed)];
      intros H; now inversion H.
Qed.

Lemma body_raised st e st' :
  body svc st = (Raised e, st') ->
  svc (calls st) = inl e /\ trace st' = trace st.
Proof.
  unfold body. destruct (svc (calls st)) as [e0|job].
  - intros H. now inversion H.
  - destruct (pystr_eqb (status job) Failed);
      [|destruct (pystr_eqb (status job) Completed)]; discriminate.
Qed.

(** What the loop has done when it stops, whichever way it stops: the
    statuses observed are the answers to the queries made, in order, and
    the way it stopped is the one these answers call for. *)
Lemma while_final fuel : forall st,
  at_guard svc st ->
  let obs := observations (trace (final_state (while fuel svc st))) in
  answered svc (List.length obs) obs /\
  match while fuel svc st with
  | Exited st' => at_guard svc st' /\ terminal (status_var st') = true
  | Aborted e _ =>
      svc (List.length obs) = inl e /\
      Forall (fun s => terminal s = false) obs
  | Running st' =>
      at_guard svc st' /\ calls st' = calls st + fuel /\
      Forall (fun s => terminal s = false) obs
  end.
Proof.
  assert (Hstay : forall st,
             at_guard svc st ->
             answered svc (List.length (observations (trace st)))
                      (observations (trace st))).
  { intros st Hg. rewrite <- (at_guard_calls Hg). exact (proj1 Hg). }
  induction fuel as [|fuel IH]; intros st Hg; cbn [while].
  - destruct (terminal (status_var st)) eqn:Ht; cbn [final_state].
    + split; [now apply Hstay|now split].
    + split; [now apply Hstay|].
      split; [exact Hg|]. split; [lia|now apply at_guard_earlier].
  - destruct (terminal (status_var st)) eqn:Ht; cbn [final_state].
    + split; [now apply Hstay|now split].
    + destruct (body svc st) as [c st1] eqn:Hb.
      pose proof (body_at_guard Hg Ht Hb) as Hc.
      pose proof (body_calls _ Hb) as Hcalls.
      destruct c.
      * specialize (IH st1 Hc). cbn zeta in IH.
        destruct IH as [Hans Hout]. split; [exact Hans|].
        destruct (while fuel svc st1); try exact Hout.
        destruct Hout as (Hg' & Hn & Hall).
        split; [exact Hg'|]. split; [lia|exact Hall].
      * cbn [final_state]. destruct Hc as [Hg1 Ht1].
        split; [now apply Hstay|now split].
      * cbn [final_state]. destruct (body_raised _ Hb) as [Hsvc Htr].
        rewrite Htr. split; [now apply Hstay|].
        rewrite <- (at_guard_calls Hg).
        split; [exact Hsvc|now apply at_guard_earlier].
Qed.

Lemma while_terminal fuel st :
  terminal (status_var st) = true -> while fuel svc st = Exited st.
Proof. intros Ht. destruct fuel; simpl; now rewrite Ht. Qed.

Lemma wait_events_paced statuses tail :
  Forall (fun s => terminal s = false) statuses -> paced tail ->
  paced (wait_events statuses ++ tail).
Proof.
  induction 1 as [|s ss Hs _ IH]; intros Htail; simpl; [exact Htail|].
  apply paced_wait; [exact Hs|now apply IH].
Qed.

Lemma while_paced fuel : forall st statuses,
  Forall (fun s => terminal s = false) statuses ->
  trace st = wait_events statuses ->
  paced (trace (final_state (while fuel svc st))).
Proof.
  induction fuel as [|fuel IH]; intros st statuses Hnt Htr.
  - simpl. destruct (terminal (status_var st)); simpl; rewrite Htr;
      rewrite <- (app_nil_r (wait_events statuses));
      apply wait_events_paced; auto using paced_nil.
  - simpl. destruct (terminal (status_var st)) eqn:Ht.
    + simpl. rewrite Htr, <- (app_nil_r (wait_events statuses)).
      apply wait_events_paced; auto using paced_nil.
    + unfold body. destruct (svc (calls st)) as [e|job]; simpl.
      * rewrite Htr, <- (app_nil_r (wait_events statuses)).
        apply wait_events_paced; auto using paced_nil.
      * destruct (pystr_eqb (status job) Failed) eqn:HF.
        -- rewrite while_terminal
             by (simpl; unfold terminal; rewrite HF; apply orb_true_r).
           simpl. rewrite Htr, <- app_assoc.
           apply wait_events_paced; [exact Hnt|].
           apply paced_stop; [|reflexivity|reflexivity].
           unfold terminal. rewrite HF. apply orb_true_r.
        -- destruct (pystr_eqb (status job) Completed) eqn:HC; simpl.
           ++ rewrite Htr, <- app_assoc.
              apply wait_events_paced; [exact Hnt|].
              apply paced_stop; [|reflexivity|reflexivity].
              unfold terminal. now rewrite HC.
           ++ apply (IH _ (statuses ++ [status job])).
              ** apply Forall_app. split; [exact Hnt|].
                 constructor; [|constructor]. unfold terminal.
                 now rewrite HC, HF.
              ** simpl. unfold wait_events in *.
                 rewrite flat_map_app, Htr, <- app_assoc. reflexivity.
Qed.

Lemma paced_sleeps tr :
  paced tr ->
  sleeps tr =
  map (fun _ => 300%Z)
      (filter (fun s => negb (terminal s)) (observations tr)).
Proof.
  induction 1 as [|s tr Hs _ IH|s tr Hs Hsl Hobs]; simpl.
  - reflexivity.
  - rewrite Hs. simpl. now rewrite IH.
  - rewrite Hs, Hsl, Hobs. reflexivity.
Qed.

Lemma while_keeps_running fuel : forall st,
  never_terminal svc -> terminal (status_var st) = false ->
  exists st',
    while fuel svc st = Running st' /\
    calls st' = calls st + fuel /\
    sleeps (trace st') = sleeps (trace st) ++ repeat 300%Z fuel.
Proof.
  induction fuel as [|fuel IH]; intros st Hnever Ht; simpl; rewrite Ht.
  - exists st. rewrite app_nil_r, Nat.add_0_r. auto.
  - unfold body. destruct (Hnever (calls st)) as (job & -> & Hjob).
    unfold terminal in Hjob. apply orb_false_iff in Hjob as [HC HF].
    rewrite HF, HC.
    destruct (IH (State (status job) (S (calls st))
                    ((trace st ++ [Observed (status job)])
                     ++ [PrintedStatus (status job); Slept 300])))
      as (st' & Hw & Hcalls & Hsl); [exact Hnever| |].
    + simpl. unfold terminal. now rewrite HC, HF.
    + exists st'. split; [exact Hw|]. split.
      * rewrite Hcalls. simpl. lia.
      * rewrite Hsl. simpl. rewrite !sleeps_app. simpl.
        rewrite app_nil_r, <- app_assoc. reflexivity.
Qed.

(** The loop does stop: at the first terminal status, after as many
    iterations as there were queries. *)
Lemma while_reaches k : forall st job fuel,
  terminal (status_var st) = false ->
  (forall j, j < k -> exists job',
       svc (calls st + j) = inr job' /\ terminal (status job') = false) ->
  svc (calls st + k) = inr job -> terminal (status job) = true ->
  k < fuel ->
  exists st',
    while fuel svc st = Exited st' /\
    status_var st' = status job /\ calls st' = S (calls st + k).
Proof.
  induction k as [|k IH]; intros st job fuel Hst Hbefore Hk Hterm Hfuel;
    (destruct fuel as [|fuel]; [lia|]); simpl; rewrite Hst; unfold body.
  - rewrite Nat.add_0_r in Hk. rewrite Hk.
    unfold terminal in Hterm.
    destruct (pystr_eqb (status job) Failed) eqn:HF.
    + eexists. split; [apply while_terminal; simpl; unfold terminal;
                        now rewrite HF, orb_true_r|].
      simpl. split; [reflexivity|lia].
    + rewrite orb_false_r in Hterm. rewrite Hterm.
      eexists. split; [reflexivity|]. simpl. split; [reflexivity|lia].
  - destruct (Hbefore 0 ltac:(lia)) as (job0 & Hj0 & Hnt0).
    rewrite Nat.add_0_r in Hj0. rewrite Hj0.
    unfold terminal in Hnt0. apply orb_false_iff in Hnt0 as [HC HF].
    rewrite HF, HC.
    destruct (IH (State (status job0) (S (calls st))
                    ((trace st ++ [Observed (status job0)])
                     ++ [PrintedStatus (status job0); Slept 300]))
                 job fuel) as (st' & Hw & Hs & Hc).
    + simpl. unfold terminal. now rewrite HC, HF.
    + intros j Hj. simpl. destruct (Hbefore (S j) ltac:(lia)) as (job' & Hj' & Hnt').
      exists job'. split; [|exact Hnt'].
      now replace (S (calls st + j)) with (calls st + S j) by lia.
    + simpl. now replace (S (calls st + k)) with (calls st + S k) by lia.
    + exact Hterm.
    + lia.
    + exists st'. split; [exact Hw|]. split; [exact Hs|].
      rewrite Hc. simpl. lia.
Qed.

End PollerFacts.

(** C1. The polling loop is left normally only on a terminal status: when
    the loop has exited, the statuses observed are exactly the answers of
    the service to the queries made, the last of them is the value of
    [status] and is ['Completed'] or ['Failed'], and every one before it
    was non-terminal. *)
Theorem C1_poller_exits_only_on_terminal :
  forall (fuel : nat) (svc : Poller.service) (st : Poller.state),
    Poller.poll fuel svc = Poller.Exited st ->
    exists earlier last,
      Poller.observations (Poller.trace st) = earlier ++ [last] /\
      Poller.status_var st = last /\
      (last = Poller.Completed \/ last = Poller.Failed) /\
      Forall (fun s => Poller.terminal s = false) earlier /\
      Forall2 (fun i s => exists job,
                 svc i = inr job /\ Poller.status job = s)
              (seq 0 (Poller.calls st)) (earlier ++ [last]).
Proof.
  intros fuel svc st Hpoll.
  destruct (while_exit fuel (at_guard_init svc) Hpoll) as [[Hans Hshape] Hterm].
  destruct Hshape as [[_ Hempty]|(earlier & Hobs & Hall)].
  - rewrite Hempty in Hterm. discriminate.
  - exists earlier, (Poller.status_var st). rewrite <- Hobs.
    repeat split; try assumption. now apply terminal_spec.
Qed.

Lemma C1_poller_exits_only_on_terminal_witness :
  exists st,
    Poller.poll 5 svc_completes = Poller.Exited st /\
    exists earlier last,
      Poller.observations (Poller.trace st) = earlier ++ [last] /\
      Poller.status_var st = last /\
      (last = Poller.Completed \/ last = Poller.Failed) /\
      Forall (fun s => Poller.terminal s = false) earlier /\
      Forall2 (fun i s => exists job,
                 svc_completes i = inr job /\ Poller.status job = s)
              (seq 0 (Poller.calls st)) (earlier ++ [last]).
Proof.
  eexists. split; [reflexivity|].
  apply (@C1_poller_exits_only_on_terminal 5 svc_completes). reflexivity.
Defined.

(** C2. The polling loop as a function of the answers of
    [get_model_invocation_job]: in every run the statuses observed are
    these answers, in order; each observation of a non-terminal status is
    followed by one suspension of 300 seconds and an observation of
    ['Completed'] or ['Failed'] by none, so that the suspensions are one
    of 300 seconds per non-terminal status observed; the loop is left
    only after a terminal answer, it is aborted only by a query that
    raises after non-terminal answers, and it goes on as long as the
    answers are non-terminal.  There is no ceiling: when the service never
    answers with a terminal status, the loop is still running after any
    number of iterations, having queried and slept that many times. *)
Theorem C2_poller_paces_and_never_gives_up :
  forall svc : Poller.service,
    (forall fuel,
        let tr := Poller.trace (Poller.final_state (Poller.poll fuel svc)) in
        let obs := Poller.observations tr in
        Poller.paced tr /\
        Poller.sleeps tr =
        map (fun _ => 300%Z)
            (filter (fun s => negb (Poller.terminal s)) obs) /\
        Forall2 (fun i s => exists job,
                   svc i = inr job /\ Poller.status job = s)
                (seq 0 (List.length obs)) obs /\
        match Poller.poll fuel svc with
        | Poller.Exited _ =>
            exists earlier last,
              obs = earlier ++ [last] /\
              Poller.terminal last = true /\
              Forall (fun s => Poller.terminal s = false) earlier
        | Poller.Aborted e _ =>
            svc (List.length obs) = inl e /\
            Forall (fun s => Poller.terminal s = false) obs
        | Poller.Running _ =>
            List.length obs = fuel /\
            Forall (fun s => Poller.terminal s = false) obs
        end) /\
    ((forall i, exists job,
         svc i = inr job /\ Poller.terminal (Poller.status job) = false) ->
     forall fuel, exists st,
         Poller.poll fuel svc = Poller.Running st /\
         Poller.calls st = fuel /\
         Poller.sleeps (Poller.trace st) = repeat 300%Z fuel).
Proof.
  intros svc. split.
  - intros fuel tr obs.
    assert (Hp : Poller.paced tr)
      by (apply (@while_paced svc fuel Poller.init []); [constructor|reflexivity]).
    split; [exact Hp|]. split; [now apply paced_sleeps|].
    destruct (@while_final svc fuel Poller.init (at_guard_init svc))
      as [Hans Hout].
    split; [exact Hans|]. subst obs tr. unfold Poller.poll in *.
    destruct (Poller.while fuel svc Poller.init) as [st|e st|st];
      cbn [Poller.final_state] in *.
    + destruct Hout as [[_ [[_ Hempty]|(earlier & Hobs & Hall)]] Hterm].
      * rewrite Hempty in Hterm. discriminate.
      * now exists earlier, (Poller.status_var st).
    + exact Hout.
    + destruct Hout as (Hg & Hcalls & Hall). split; [|exact Hall].
      rewrite <- (at_guard_calls Hg). exact Hcalls.
  - intros Hnever fuel.
    destruct (@while_keeps_running svc fuel Poller.init Hnever eq_refl)
      as (st & Hw & Hcalls & Hsl).
    exists st. auto.
Qed.

Lemma C2_poller_paces_and_never_gives_up_witness :
  exists st,
    Poller.poll 4 svc_stuck = Poller.Running st /\
    Poller.calls st = 4 /\
    Poller.sleeps (Poller.trace st) = [300; 300; 300; 300]%Z.
Proof.
  apply (proj2 (C2_poller_paces_and_never_gives_up svc_stuck)).
  intros i. eexists. split; reflexivity.
Defined.

(** ** The input collector *)

Section CollectorFacts.

Import Collector.

Variable s3 : s3_client.
Variable now : nat -> Z.
Variable bucket_name : pystr.

Lemma records_from_length i texts :
  List.length (records_from now i texts) = List.length texts.
Proof.
  revert i. induction texts as [|t ts IH]; intros i; simpl; [|rewrite IH];
    reflexivity.
Qed.

Lemma records_from_nth texts : forall i k text,
  nth_error texts k = Some text ->
  nth_error (records_from now i texts) k = Some (record_for now (i + k) text).
Proof.
  induction texts as [|t ts IH]; intros i k text Hk.
  - destruct k; discriminate.
  - destruct k as [|k]; simpl in *.
    + inversion Hk; subst. now rewrite Nat.add_0_r.
    + rewrite (IH (S i) k text Hk). f_equal. f_equal. lia.
Qed.

(** When every object can be read, the loop appends one record per
    object, in order. *)
Lemma for_each_object_ok objs : forall texts i acc,
  Forall2 (fun obj text => read_object s3 bucket_name obj = inr text) objs texts ->
  for_each_object s3 now bucket_name i objs acc
  = inr (acc ++ records_from now i texts).
Proof.
  induction objs as [|obj objs IH]; intros texts i acc Hall;
    inversion Hall as [|? text ? texts' Hread Hrest]; subst; simpl.
  - now rewrite app_nil_r.
  - unfold read_object, bind in Hread.
    destruct (get_object s3 bucket_name (Key obj)) as [e|body];
      [discriminate|].
    simpl. rewrite Hread. simpl.
    rewrite (IH texts' (S i) _ Hrest), <- app_assoc. reflexivity.
Qed.

(** When some object cannot be read, the loop raises the exception of the
    first such object, whatever it had collected. *)
Lemma for_each_object_fails objs : forall i acc,
  Exists (fun obj => exists e, read_object s3 bucket_name obj = inl e) objs ->
  exists e,
    for_each_object s3 now bucket_name i objs acc = inl e /\
    Exists (fun obj => read_object s3 bucket_name obj = inl e) objs.
Proof.
  induction objs as [|obj objs IH]; intros i acc Hex.
  - inversion Hex.
  - simpl. destruct (read_object s3 bucket_name obj) as [e|text] eqn:Hread.
    + exists e. split; [|now left].
      unfold read_object, bind in Hread.
      destruct (get_object s3 bucket_name (Key obj)) as [e'|body]; simpl.
      * congruence.
      * now rewrite Hread.
    + assert (Hex' : Exists (fun o => exists e, read_object s3 bucket_name o = inl e) objs).
      { inversion Hex as [? ? [e He]|]; subst; [congruence|assumption]. }
      destruct (IH (S i) (acc ++ [record_for now i text]) Hex')
        as (e & Hloop & Hwhere).
      exists e. split; [|now right].
      unfold read_object, bind in Hread.
      destruct (get_object s3 bucket_name (Key obj)) as [e'|body];
        [discriminate|].
      simpl. rewrite Hread. simpl. exact Hloop.
Qed.

End CollectorFacts.

(** C3. Two objects read within the same second get the same record
    identifier: the identifiers of a batch are not pairwise distinct. *)
Theorem C3_record_ids_collide :
  exists batch,
    Collector.prepare_model_inputs s3_two clock_fast (py "bucket") (py "raw/")
    = inr batch /\
    map Collector.record_id_of batch
    = [Some (PStr (py "1700000000")); Some (PStr (py "1700000000"))] /\
    ~ NoDup (map Collector.record_id_of batch).
Proof.
  eexists. split; [vm_compute; reflexivity|]. split; [reflexivity|].
  intros Hnd. inversion Hnd as [|? ? Hnotin _]; subst.
  apply Hnotin. now left.
Qed.

(** C5. When some object listed under the prefix cannot be read, because
    the download raises or because its bytes are not UTF-8, the collector
    raises the exception of such an object and returns no list. *)
Theorem C5_unreadable_object_fails_fast :
  forall (s3 : s3_client) (now : nat -> Z) (bucket_name prefix : pystr)
         (response : list_response),
    list_objects_v2 s3 bucket_name prefix = inr response ->
    Exists (fun obj => exists e,
              bind (get_object s3 bucket_name (Key obj)) decode_utf8 = inl e)
           (Collector.contents_or_empty response) ->
    exists e,
      Collector.prepare_model_inputs s3 now bucket_name prefix = inl e /\
      Exists (fun obj =>
                bind (get_object s3 bucket_name (Key obj)) decode_utf8 = inl e)
             (Collector.contents_or_empty response) /\
      forall batch,
        Collector.prepare_model_inputs s3 now bucket_name prefix <> inr batch.
Proof.
  intros s3 now bucket_name prefix response Hlist Hex.
  destruct (@for_each_object_fails s3 now bucket_name _ 0 [] Hex)
    as (e & Hloop & Hwhere).
  exists e. unfold Collector.prepare_model_inputs. rewrite Hlist. simpl.
  rewrite Hloop. repeat split; [exact Hwhere|discriminate].
Qed.

Lemma C5_unreadable_object_fails_fast_witness :
  exists e,
    Collector.prepare_model_inputs s3_broken clock_fast (py "bucket")
                                   (py "raw/") = inl e /\
    Exists (fun obj =>
              bind (get_object s3_broken (py "bucket") (Key obj)) decode_utf8
              = inl e)
           (Collector.contents_or_empty
              (ListResponse (Some [S3Object (py "raw/a.txt");
                                   S3Object (py "raw/b.txt")]))) /\
    forall batch,
      Collector.prepare_model_inputs s3_broken clock_fast (py "bucket")
                                     (py "raw/") <> inr batch.
Proof.
  apply (@C5_unreadable_object_fails_fast s3_broken clock_fast (py "bucket")
           (py "raw/")
           (ListResponse (Some [S3Object (py "raw/a.txt");
                                S3Object (py "raw/b.txt")]))).
  - reflexivity.
  - right. left. exists UnicodeDecodeError. reflexivity.
Defined.

(** C6. When every object listed under the prefix can be read, the
    collector returns one record per object, in listing order; the record
    of the [i]-th object is [{"recordId": id, "modelInput": body}], where
    [id] is the decimal text of the second in which the clock was read
    for that object, the prompt of [body] is the instruction followed by
    the text of the object, and [body] carries [max_tokens = 300],
    [temperature = 0.1], [top_p = 0.1] and [top_k = 100]. *)
Theorem C6_one_record_per_object :
  forall (s3 : s3_client) (now : nat -> Z) (bucket_name prefix : pystr)
         (response : list_response) (texts : list pystr),
    list_objects_v2 s3 bucket_name prefix = inr response ->
    Forall2 (fun obj text =>
               bind (get_object s3 bucket_name (Key obj)) decode_utf8
               = inr text)
            (Collector.contents_or_empty response) texts ->
    exists batch,
      Collector.prepare_model_inputs s3 now bucket_name prefix = inr batch /\
      List.length batch = List.length (Collector.contents_or_empty response) /\
      forall i text,
        nth_error texts i = Some text ->
        exists body,
          nth_error batch i
          = Some (PDict
                    [ (py "recordId",
                       PStr (str_of_int (Collector.int_timestamp (now i))));
                      (py "modelInput", body) ]) /\
          Collector.prompt_of body
          = inr (PStr (Collector.instruction ++ text)) /\
          getitem body (py "max_tokens") = inr (PInt 300) /\
          getitem body (py "temperature") = inr (PFloat (py "0.1")) /\
          getitem body (py "top_p") = inr (PFloat (py "0.1")) /\
          getitem body (py "top_k") = inr (PInt 100).
Proof.
  intros s3 now bucket_name prefix response texts Hlist Hall.
  exists (Collector.records_from now 0 texts).
  unfold Collector.prepare_model_inputs. rewrite Hlist. simpl.
  rewrite (@for_each_object_ok s3 now bucket_name _ texts 0 [] Hall). simpl.
  split; [reflexivity|]. split.
  - rewrite records_from_length. symmetry. exact (Forall2_length Hall).
  - intros i text Hi.
    exists (Collector.request_body (Collector.instruction ++ text)).
    rewrite (@records_from_nth now texts 0 i text Hi). simpl.
    repeat split; reflexivity.
Qed.

Lemma C6_one_record_per_object_witness :
  exists batch,
    Collector.prepare_model_inputs s3_two clock_fast (py "bucket") (py "raw/")
    = inr batch /\
    List.length batch = 2 /\
    forall i text,
      nth_error [py "Hello"; py "World"] i = Some text ->
      exists body,
        nth_error batch i
        = Some (PDict
                  [ (py "recordId",
                     PStr (str_of_int (Collector.int_timestamp (clock_fast i))));
                    (py "modelInput", body) ]) /\
        Collector.prompt_of body
        = inr (PStr (Collector.instruction ++ text)) /\
        getitem body (py "max_tokens") = inr (PInt 300) /\
        getitem body (py "temperature") = inr (PFloat (py "0.1")) /\
        getitem body (py "top_p") = inr (PFloat (py "0.1")) /\
        getitem body (py "top_k") = inr (PInt 100).
Proof.
  apply (@C6_one_record_per_object s3_two clock_fast (py "bucket") (py "raw/")
           (ListResponse (Some [S3Object (py "raw/a.txt");
                                S3Object (py "raw/b.txt")]))
           [py "Hello"; py "World"]).
  - reflexivity.
  - repeat constructor.
Defined.

(** C9. When the listing has no ['Contents'] entry, the collector returns
    the empty list without raising; written out with [write_jsonl], the
    empty batch gives an empty file. *)
Theorem C9_empty_prefix_gives_empty_batch :
  forall (s3 : s3_client) (now : nat -> Z) (bucket_name prefix : pystr)
         (response : list_response),
    list_objects_v2 s3 bucket_name prefix = inr response ->
    Contents response = None ->
    Collector.prepare_model_inputs s3 now bucket_name prefix = inr [] /\
    forall (fs : Writer.files) (file_path : pystr),
      Writer.write_jsonl [] file_path fs file_path = Some [].
Proof.
  intros s3 now bucket_name prefix response Hlist Hnone. split.
  - unfold Collector.prepare_model_inputs, Collector.contents_or_empty.
    rewrite Hlist. simpl. rewrite Hnone. reflexivity.
  - intros fs file_path. unfold Writer.write_jsonl, Writer.store.
    now rewrite pystr_eqb_refl.
Qed.

Lemma C9_empty_prefix_gives_empty_batch_witness :
  Collector.prepare_model_inputs s3_empty clock_fast (py "bucket") (py "raw/")
  = inr [] /\
  forall (fs : Writer.files) (file_path : pystr),
    Writer.write_jsonl [] file_path fs file_path = Some [].
Proof.
  apply (@C9_empty_prefix_gives_empty_batch s3_empty clock_fast (py "bucket")
           (py "raw/") (ListResponse None)); reflexivity.
Defined.

(** ** The uploader *)

Section UploaderFacts.

Import Uploader.

Variable os : os_module.
Variable s3 : s3_client.
Variable path bucket_name : pystr.
Variable bucket_subfolder : option pystr.

Lemma upload_one_attempts root file :
  List.length (filter attempted
                 (upload_one os s3 path bucket_name bucket_subfolder root file))
  = 1.
Proof.
  unfold upload_one.
  now destruct (upload_file s3 _ bucket_name _).
Qed.

(** Every file of the walk is tried once, whatever happened to the files
    before it. *)
Lemma upload_tree_attempts triples :
  List.length (filter attempted
                 (upload_tree os s3 path bucket_name bucket_subfolder triples))
  = List.length (flat_map (fun t => snd t) triples).
Proof.
  unfold upload_tree.
  induction triples as [|[[root dirs] files] triples IH]; simpl;
    [reflexivity|].
  rewrite filter_app, !length_app, IH. f_equal.
  clear IH. induction files as [|file files IH]; simpl; [reflexivity|].
  rewrite filter_app, length_app, IH, upload_one_attempts. reflexivity.
Qed.

End UploaderFacts.

(** C10. [upload_to_s3] returns [True] exactly when the path is a file
    and its upload succeeds, and [False] exactly when the path is a file
    and its upload raises.  For a directory it returns [None] whatever
    the uploads do, after trying every file of the walk once: the value
    returned is the same for a client on which every upload fails.  For a
    path that is neither, it returns [None] and tries no upload. *)
Theorem C10_upload_return_value :
  forall (os : Uploader.os_module) (s3 : s3_client)
         (path bucket_name : pystr) (bucket_subfolder : option pystr),
    let run := Uploader.upload_to_s3 os s3 path bucket_name bucket_subfolder in
    let object_name :=
      Uploader.object_name_for bucket_subfolder (Uploader.basename os path) in
    (fst run = PBool true <->
     Uploader.isfile os path = true /\
     exists u, upload_file s3 path bucket_name object_name = inr u) /\
    (fst run = PBool false <->
     Uploader.isfile os path = true /\
     exists e, upload_file s3 path bucket_name object_name = inl e) /\
    (Uploader.isfile os path = false -> Uploader.isdir os path = true ->
     fst run = PNone /\
     List.length (filter Uploader.attempted (snd run))
     = List.length (flat_map (fun t => snd t) (Uploader.walk os path)) /\
     forall s3' : s3_client,
       fst (Uploader.upload_to_s3 os s3' path bucket_name bucket_subfolder)
       = fst run) /\
    (Uploader.isfile os path = false -> Uploader.isdir os path = false ->
     fst run = PNone /\ filter Uploader.attempted (snd run) = []).
Proof.
  intros os s3 path bucket_name bucket_subfolder run object_name.
  subst run object_name. unfold Uploader.upload_to_s3.
  destruct (Uploader.isfile os path) eqn:Hfile.
  - destruct (upload_file s3 path bucket_name _) as [e|u] eqn:Hup; simpl;
      (split; [|split; [|split]]); try discriminate;
      try (split; [discriminate|intros [_ [? ?]]; discriminate]);
      split; eauto.
  - destruct (Uploader.isdir os path) eqn:Hdir; simpl;
      (split; [|split; [|split]]); try discriminate;
      try (split; [discriminate|intros [? _]; discriminate]); intros _ _.
    + split; [reflexivity|]. split; [apply upload_tree_attempts|reflexivity].
    + split; reflexivity.
Qed.

Lemma C10_upload_return_value_witness :
  let run := Uploader.upload_to_s3 os_tree s3_down
               (py "./unzipped_transcripts") (py "bucket") (Some (py "raw")) in
  fst run = PNone /\
  List.length (filter Uploader.attempted (snd run)) = 3 /\
  List.length (filter Uploader.failed (snd run)) = 3 /\
  forall s3' : s3_client,
    fst (Uploader.upload_to_s3 os_tree s3' (py "./unzipped_transcripts")
           (py "bucket") (Some (py "raw")))
    = fst run.
Proof.
  intros run.
  destruct (C10_upload_return_value os_tree s3_down
              (py "./unzipped_transcripts") (py "bucket") (Some (py "raw")))
    as (_ & _ & Hdir & _).
  destruct (Hdir eq_refl eq_refl) as (Hnone & Hall & Hsame).
  split; [exact Hnone|]. split; [exact Hall|].
  split; [reflexivity|exact Hsame].
Defined.

(** ** The result retriever *)

Section RetrieverFacts.

Import Retriever.

Lemma last_default_irrelevant {A} (l : list A) : forall x d d',
  last (x :: l) d = last (x :: l) d'.
Proof.
  induction l as [|y l IH]; intros x d d'; [reflexivity|].
  change (last (y :: l) d = last (y :: l) d'). apply IH.
Qed.

Lemma last_shift {A} (l : list A) (x d : A) :
  last l x = last (x :: l) d.
Proof.
  destruct l as [|y l]; [reflexivity|].
  change (last (y :: l) x = last (y :: l) d). apply last_default_irrelevant.
Qed.

Lemma last_map_some {A} (l : list A) (d : option A) :
  l <> [] -> exists x, last (map Some l) d = Some x.
Proof.
  destruct l as [|x l]; [congruence|]. intros _. revert x.
  induction l as [|y l IH]; intros x; [now exists x|]. apply (IH y).
Qed.

(** The loop stops at the first line that raises; the entries of the
    lines before it stay in [output_data]. *)
Lemma for_each_line_stops good : forall entries bad rest e vs,
  Forall2 (fun line entry => entry_of_line line = inr entry) good entries ->
  entry_of_line bad = inl e ->
  for_each_line (good ++ bad :: rest) vs
  = (Some e, Vars (output_data vs ++ entries)
                  (last (map Some entries) (output_entry vs))).
Proof.
  induction good as [|line good IH]; intros entries bad rest e vs Hgood Hbad;
    inversion Hgood as [|? entry ? entries' Hline Hrest]; subst; simpl.
  - rewrite Hbad, app_nil_r. now destruct vs.
  - rewrite Hline, (IH entries' bad rest e _ Hrest Hbad). simpl.
    rewrite <- app_assoc. f_equal. f_equal. apply last_shift.
Qed.

Lemma for_each_line_all lines : forall entries vs,
  Forall2 (fun line entry => entry_of_line line = inr entry) lines entries ->
  for_each_line lines vs
  = (None, Vars (output_data vs ++ entries)
                (last (map Some entries) (output_entry vs))).
Proof.
  induction lines as [|line lines IH]; intros entries vs Hall;
    inversion Hall as [|? entry ? entries' Hline Hrest]; subst; simpl.
  - rewrite app_nil_r. now destruct vs.
  - rewrite Hline, (IH entries' _ Hrest). simpl.
    rewrite <- app_assoc. f_equal. f_equal. apply last_shift.
Qed.

Ltac split_binds :=
  repeat match goal with
         | E : match ?x with _ => _ end = inr _ |- _ =>
             let G := fresh "G" in destruct x eqn:G; [discriminate E|]
         end.

Ltac rewrite_reads :=
  repeat match goal with
         | G : ?x = inr _ |- context [?x] => rewrite G
         end.

Lemma output_entry_carries data entry :
  output_entry_of data = inr entry -> carries data entry.
Proof.
  unfold output_entry_of, bind. intros H.
  split_binds. inversion H; subst; clear H.
  unfold carries, fields.
  repeat (constructor;
          [eexists; split;
           [simpl; unfold bind; rewrite_reads; reflexivity|reflexivity]|]).
  constructor.
Qed.

Variable s3 : s3_client.
Variables bucket_name model_input_summary_prefix output_prefix : pystr.
Variables job_id filename : pystr.
Variable output_entry0 : option pyval.

Let out : outcome :=
  retrieve s3 bucket_name model_input_summary_prefix output_prefix job_id
           filename output_entry0.

Let key : pystr :=
  object_key model_input_summary_prefix output_prefix job_id filename.

(** One request is made, for the output file. *)
Lemma retrieve_requests : requested_keys (events out) = [key].
Proof.
  subst out key. unfold retrieve.
  destruct (try_block _ _ _ _ _ _ _) as [failure vs].
  destruct (output_entry vs); destruct failure; reflexivity.
Qed.

Lemma retrieve_of_try failure vs :
  try_block s3 bucket_name model_input_summary_prefix output_prefix job_id
            filename output_entry0 = (failure, vs) ->
  final out = vs /\
  firstn 3 (events out)
  = [ Requested bucket_name key;
      match failure with
      | None => PrintedCount (List.length (output_data vs))
      | Some e => PrintedError e
      end;
      PrintedSampleHeader ].
Proof.
  intros Htry. subst out key. unfold retrieve. rewrite Htry.
  destruct (output_entry vs); split; reflexivity.
Qed.

End RetrieverFacts.

(** C7, counterexample.  On a file whose first line is well formed and
    whose second line is not, the second line raises, yet [output_data]
    is left with the entry of the first: it is not empty. *)
Lemma C7_malformed_line_counterexample :
  (exists line e,
      In line (splitlines text_truncated) /\
      Retriever.entry_of_line line = inl e) /\
  List.length
    (Retriever.output_data (Retriever.final (retrieve_from text_truncated)))
  = 1 /\
  Retriever.output_data (Retriever.final (retrieve_from text_truncated)) <> [].
Proof.
  split; [|split].
  - exists (py "{oops"), (JSONDecodeError (py "Expecting value")).
    split; [|vm_compute; reflexivity].
    vm_compute. right. left. reflexivity.
  - vm_compute. reflexivity.
  - intros H.
    apply (f_equal (@List.length pyval)) in H. vm_compute in H. discriminate.
Qed.

(** C7, amended. When a line of the output file is malformed (it fails
    JSON decoding or lacks a required field), the loop stops at the first
    such line: its exception is caught and printed, no later line is
    processed, and [output_data] holds the Output Records of the lines
    before it, in file order; when there is such a record, no exception
    leaves the cell. *)
Theorem C7_malformed_line_keeps_prefix :
  forall (s3 : s3_client)
         (bucket_name model_input_summary_prefix output_prefix : pystr)
         (job_id filename : pystr) (output_entry0 : option pyval)
         (body : bytes) (text : pystr) (good : list pystr) (bad : pystr)
         (rest : list pystr) (entries : list pyval) (e : exn),
    get_object s3 bucket_name
      (Retriever.object_key model_input_summary_prefix output_prefix job_id
                            filename) = inr body ->
    decode_utf8 body = inr text ->
    splitlines text = good ++ bad :: rest ->
    Forall2 (fun line entry => Retriever.entry_of_line line = inr entry)
            good entries ->
    Retriever.entry_of_line bad = inl e ->
    let out :=
      Retriever.retrieve s3 bucket_name model_input_summary_prefix
                         output_prefix job_id filename output_entry0 in
    Retriever.output_data (Retriever.final out) = entries /\
    firstn 3 (Retriever.events out)
    = [ Retriever.Requested bucket_name
          (Retriever.object_key model_input_summary_prefix output_prefix
                                job_id filename);
        Retriever.PrintedError e;
        Retriever.PrintedSampleHeader ] /\
    (entries <> [] -> Retriever.raised out = None).
Proof.
  intros s3 bucket_name msp op job_id filename entry0 body text good bad rest
         entries e Hget Hdec Hlines Hgood Hbad out.
  assert (Htry :
            Retriever.try_block s3 bucket_name msp op job_id filename entry0
            = (Some e, Retriever.Vars entries
                         (last (map Some entries) entry0))).
  { unfold Retriever.try_block. rewrite Hget, Hdec, Hlines.
    erewrite for_each_line_stops; [reflexivity|exact Hgood|exact Hbad]. }
  destruct (retrieve_of_try _ _ _ _ _ _ _ Htry) as [Hfinal Hevents].
  fold out in Hfinal, Hevents.
  split; [now rewrite Hfinal|]. split; [exact Hevents|].
  intros Hne. subst out. unfold Retriever.retrieve. rewrite Htry.
  destruct (last_map_some entry0 Hne) as [entry Hlast].
  cbn [Retriever.output_entry]. rewrite Hlast. reflexivity.
Qed.

Lemma C7_malformed_line_keeps_prefix_witness :
  let out := retrieve_from text_truncated in
  Retriever.output_data (Retriever.final out)
  = [entry_for "1700000000" "A summary."] /\
  firstn 3 (Retriever.events out)
  = [ Retriever.Requested (py "bucket")
        (py "in/out/job123/batch-1700000000.jsonl.out");
      Retriever.PrintedError (JSONDecodeError (py "Expecting value"));
      Retriever.PrintedSampleHeader ] /\
  Retriever.raised out = None.
Proof.
  intros out.
  destruct (@C7_malformed_line_keeps_prefix
              (s3_serving text_truncated) (py "bucket") (py "in") (py "out")
              (py "job123") (py "batch-1700000000.jsonl") None
              (encode_ascii text_truncated) text_truncated
              [Json.dumps (served_line "1700000000" "A summary.")]
              (py "{oops") []
              [entry_for "1700000000" "A summary."]
              (JSONDecodeError (py "Expecting value")))
    as (Hdata & Hevents & Hraised).
  - vm_compute. reflexivity.
  - vm_compute. reflexivity.
  - vm_compute. reflexivity.
  - constructor; [vm_compute; reflexivity|constructor].
  - vm_compute. reflexivity.
  - split; [exact Hdata|]. split; [exact Hevents|].
    apply Hraised. discriminate.
Defined.

(** C8, counterexample.  In a run on a complete output file, the only
    object fetched is the output file; the manifest of the job,
    [manifest.json.out] in the same folder, is never asked for. *)
Lemma C8_manifest_not_fetched_counterexample :
  Retriever.requested_keys (Retriever.events (retrieve_from text_complete))
  = [py "in/out/job123/batch-1700000000.jsonl.out"] /\
  ~ In (py "in/out/job123/manifest.json.out")
       (Retriever.requested_keys
          (Retriever.events (retrieve_from text_complete))).
Proof.
  split; [vm_compute; reflexivity|].
  intros Hin.
  assert (Hkeys :
            Retriever.requested_keys
              (Retriever.events (retrieve_from text_complete))
            = [py "in/out/job123/batch-1700000000.jsonl.out"])
    by (vm_compute; reflexivity).
  rewrite Hkeys in Hin. clear Hkeys. destruct Hin as [Heq|[]].
  apply (f_equal (@List.length N)) in Heq. vm_compute in Heq. discriminate.
Qed.

(** C8, amended. The result retriever fetches one object, the output file
    at the key
    [model_input_summary_prefix/output_prefix/job_id/filename.out], and
    not the manifest.  When the file can be read and each of its lines
    decodes to a value with the required fields, [output_data] holds one
    Output Record per line, in file order, and the record of a line
    carries its record identifier, the generated text, the input and
    output token counts, the model, the stop reason and the generation
    parameters [max_tokens], [temperature], [top_p] and [top_k]. *)
Theorem C8_one_output_record_per_line :
  forall (s3 : s3_client)
         (bucket_name model_input_summary_prefix output_prefix : pystr)
         (job_id filename : pystr) (output_entry0 : option pyval),
    let out :=
      Retriever.retrieve s3 bucket_name model_input_summary_prefix
                         output_prefix job_id filename output_entry0 in
    Retriever.requested_keys (Retriever.events out)
    = [ model_input_summary_prefix ++ py "/" ++ output_prefix ++ py "/"
        ++ job_id ++ py "/" ++ filename ++ py ".out" ] /\
    forall (body : bytes) (text : pystr) (datas : list pyval),
      get_object s3 bucket_name
        (Retriever.object_key model_input_summary_prefix output_prefix job_id
                              filename) = inr body ->
      decode_utf8 body = inr text ->
      Forall2 (fun line data =>
                 Json.loads line = inr data /\
                 exists entry, Retriever.output_entry_of data = inr entry)
              (splitlines text) datas ->
      List.length (Retriever.output_data (Retriever.final out))
      = List.length (splitlines text) /\
      Forall2 Retriever.carries datas
              (Retriever.output_data (Retriever.final out)) /\
      Retriever.events out
      = [ Retriever.Requested bucket_name
            (Retriever.object_key model_input_summary_prefix output_prefix
                                  job_id filename);
          Retriever.PrintedCount (List.length (splitlines text));
          Retriever.PrintedSampleHeader ]
        ++ match last (map Some (Retriever.output_data (Retriever.final out)))
                      output_entry0 with
           | Some entry => [Retriever.PrintedEntry entry]
           | None => []
           end.
Proof.
  intros s3 bucket_name msp op job_id filename entry0 out. split.
  - subst out. rewrite retrieve_requests. unfold Retriever.object_key,
      Retriever.prefix. now rewrite <- !app_assoc.
  - intros body text datas Hget Hdec Hlines.
    assert (Hentries :
              exists entries,
                Forall2 (fun line entry =>
                           Retriever.entry_of_line line = inr entry)
                        (splitlines text) entries /\
                Forall2 Retriever.carries datas entries).
    { clear Hget Hdec. induction Hlines as [|line data ls ds [Hl [en He]] _ IH].
      - exists []. split; constructor.
      - destruct IH as (entries & Hes & Hcs). exists (en :: entries). split.
        + constructor; [|exact Hes]. unfold Retriever.entry_of_line.
          rewrite Hl. exact He.
        + constructor; [|exact Hcs]. now apply output_entry_carries. }
    destruct Hentries as (entries & Hes & Hcs).
    assert (Htry :
              Retriever.try_block s3 bucket_name msp op job_id filename entry0
              = (None, Retriever.Vars entries (last (map Some entries) entry0))).
    { unfold Retriever.try_block. rewrite Hget, Hdec.
      now rewrite (for_each_line_all _ Hes). }
    assert (Hout : Retriever.final out = Retriever.Vars entries
                                           (last (map Some entries) entry0)
                   /\ Retriever.events out
                      = [ Retriever.Requested bucket_name
                            (Retriever.object_key msp op job_id filename);
                          Retriever.PrintedCount (List.length entries);
                          Retriever.PrintedSampleHeader ]
                        ++ match last (map Some entries) entry0 with
                           | Some entry => [Retriever.PrintedEntry entry]
                           | None => []
                           end).
    { subst out. unfold Retriever.retrieve. rewrite Htry.
      cbn [Retriever.output_entry Retriever.output_data].
      destruct (last (map Some entries) entry0); split;
        try reflexivity; simpl; now rewrite app_nil_r || reflexivity. }
    destruct Hout as [Hfinal Hevents]. rewrite Hfinal, Hevents. simpl.
    rewrite (Forall2_length Hes). repeat split. exact Hcs.
Qed.

Lemma C8_one_output_record_per_line_witness :
  let out := retrieve_from text_complete in
  List.length (Retriever.output_data (Retriever.final out)) = 2 /\
  Forall2 Retriever.carries
          [ served_line "1700000000" "A summary.";
            served_line "1700000001" "Another one." ]
          (Retriever.output_data (Retriever.final out)).
Proof.
  intros out.
  destruct (C8_one_output_record_per_line
              (s3_serving text_complete) (py "bucket") (py "in") (py "out")
              (py "job123") (py "batch-1700000000.jsonl") None)
    as [_ Hlines].
  destruct (Hlines (encode_ascii text_complete) text_complete
                   [ served_line "1700000000" "A summary.";
                     served_line "1700000001" "Another one." ])
    as (Hlen & Hcarries & _).
  - vm_compute. reflexivity.
  - vm_compute. reflexivity.
  - assert (Hsplit :
              splitlines text_complete
              = [ Json.dumps (served_line "1700000000" "A summary.");
                  Json.dumps (served_line "1700000001" "Another one.") ])
      by (vm_compute; reflexivity).
    rewrite Hsplit.
    repeat constructor; try (vm_compute; reflexivity);
      eexists; vm_compute; reflexivity.
  - split; [exact Hlen|exact Hcarries].
Defined.

(** ** The [json] module *)

Unset Implicit Arguments.

Section JsonFacts.

Import Json.

(** *** Numbers *)

Lemma span_digits_app s : forall ds r rest,
  span_digits s = (ds, r) -> delimited rest = true ->
  span_digits (s ++ rest) = (ds, r ++ rest).
Proof.
  induction s as [|c s IH]; intros ds r rest Hs Hrest; simpl in *.
  - inversion Hs; subst. destruct rest as [|c rest]; [reflexivity|].
    simpl in *. destruct (is_digit c); [discriminate|reflexivity].
  - destruct (is_digit c).
    + destruct (span_digits s) as [ds' r'] eqn:Hsp. inversion Hs; subst.
      now rewrite (IH ds' r rest eq_refl Hrest).
    + now inversion Hs; subst.
Qed.

Lemma delimited_head c rest :
  delimited (c :: rest) = true ->
  is_digit c = false /\ (c =? 46)%N = false /\ (c =? 101)%N = false /\
  (c =? 69)%N = false /\ (c =? 43)%N = false /\ (c =? 45)%N = false.
Proof.
  unfold delimited. rewrite negb_true_iff, !orb_false_iff. tauto.
Qed.

Lemma match_int_digits_app s ds r rest :
  match_int_digits s = Some (ds, r) -> delimited rest = true ->
  match_int_digits (s ++ rest) = Some (ds, r ++ rest).
Proof.
  destruct s as [|c s]; simpl; [discriminate|]. intros Hs Hrest.
  destruct (c =? 48)%N; [now inversion Hs|].
  destruct (between 49 c 57); [|discriminate].
  destruct (span_digits s) as [ds' r'] eqn:Hsp. inversion Hs; subst.
  now rewrite (span_digits_app _ _ _ _ Hsp Hrest).
Qed.

Lemma match_integer_app s ds r rest :
  match_integer s = Some (ds, r) -> delimited rest = true ->
  match_integer (s ++ rest) = Some (ds, r ++ rest).
Proof.
  destruct s as [|c s]; [discriminate|]. intros Hs Hrest.
  change ((c :: s) ++ rest) with (c :: (s ++ rest)).
  unfold match_integer in *. destruct (c =? MINUS)%N.
  - destruct (match_int_digits s) as [[ds' r']|] eqn:Hd; [|discriminate].
    inversion Hs; subst. now rewrite (match_int_digits_app _ _ _ _ Hd Hrest).
  - now apply (match_int_digits_app (c :: s)).
Qed.

Lemma match_frac_app s ds r rest :
  match_frac s = (ds, r) -> delimited rest = true ->
  match_frac (s ++ rest) = (ds, r ++ rest).
Proof.
  intros Hs Hrest. destruct s as [|c s].
  - simpl in *. inversion Hs; subst. destruct rest as [|c rest]; [reflexivity|].
    destruct (delimited_head _ _ Hrest) as (_ & H46 & _).
    simpl. now rewrite H46.
  - simpl in *. destruct (c =? 46)%N; [|now inversion Hs].
    destruct (span_digits s) as [ds' r'] eqn:Hsp.
    rewrite (span_digits_app _ _ _ _ Hsp Hrest).
    destruct ds'; now inversion Hs.
Qed.

Lemma match_exp_app s ds r rest :
  match_exp s = (ds, r) -> delimited rest = true ->
  match_exp (s ++ rest) = (ds, r ++ rest).
Proof.
  intros Hs Hrest. destruct s as [|c s].
  - simpl in *. inversion Hs; subst. destruct rest as [|c rest]; [reflexivity|].
    destruct (delimited_head _ _ Hrest) as (_ & _ & H101 & H69 & _).
    simpl. now rewrite H101, H69.
  - simpl in *. destruct ((c =? 101)%N || (c =? 69)%N); [|now inversion Hs].
    destruct s as [|sign s]; simpl in *.
    + inversion Hs; subst. destruct rest as [|c' rest]; [reflexivity|].
      destruct (delimited_head _ _ Hrest) as (Hd & _ & _ & _ & H43 & H45).
      simpl. now rewrite H43, H45, Hd.
    + destruct ((sign =? 45)%N || (sign =? 43)%N).
      * destruct (span_digits s) as [ds' r'] eqn:Hsp.
        rewrite (span_digits_app _ _ _ _ Hsp Hrest).
        destruct ds'; now inversion Hs.
      * destruct (is_digit sign).
        -- destruct (span_digits s) as [ds' r'] eqn:Hsp.
           rewrite (span_digits_app _ _ _ _ Hsp Hrest). now inversion Hs.
        -- now inversion Hs.
Qed.

(** A number followed by a delimiter is read as it is read alone. *)
Lemma match_number_app s v r rest :
  match_number s = Some (v, r) -> delimited rest = true ->
  match_number (s ++ rest) = Some (v, r ++ rest).
Proof.
  unfold match_number. intros Hs Hrest.
  destruct (match_integer s) as [[integer r1]|] eqn:Hi; [|discriminate].
  rewrite (match_integer_app _ _ _ _ Hi Hrest).
  destruct (match_frac r1) as [frac r2] eqn:Hf.
  rewrite (match_frac_app _ _ _ _ Hf Hrest).
  destruct (match_exp r2) as [exp r3] eqn:He.
  rewrite (match_exp_app _ _ _ _ He Hrest).
  destruct (frac ++ exp); now inversion Hs.
Qed.


(** *** Integers *)

Lemma uint_of_digits_of_uint u : uint_of_digits (digits_of_uint u) = u.
Proof.
  induction u; simpl; [reflexivity|..]; unfold uint_of_digits in *; simpl;
    unfold digit_of_char at 1; simpl; now rewrite IHu.
Qed.

Lemma span_digits_of_uint u :
  span_digits (digits_of_uint u) = (digits_of_uint u, []).
Proof. induction u; simpl; [reflexivity|..]; now rewrite IHu. Qed.

Lemma to_uint_normal p : Pos.to_uint p = Decimal.nzhead (Pos.to_uint p).
Proof.
  pose proof (DecimalPos.Unsigned.to_of (Pos.to_uint p)) as H.
  rewrite DecimalPos.Unsigned.of_to in H. simpl in H.
  rewrite H at 1. apply DecimalFacts.unorm_nzhead.
  intros Hnil. apply (DecimalPos.Unsigned.to_uint_nonzero p).
  rewrite H. now apply DecimalFacts.unorm_0.
Qed.

(** The digits of a positive number are read back whole. *)
Lemma match_int_digits_pos p :
  match_int_digits (digits_of_uint (Pos.to_uint p))
  = Some (digits_of_uint (Pos.to_uint p), []).
Proof.
  pose proof (to_uint_normal p) as Hn.
  pose proof (DecimalPos.Unsigned.to_uint_nonnil p) as Hnil.
  destruct (Pos.to_uint p) as [|u|u|u|u|u|u|u|u|u|u]; try congruence;
    try (simpl; now rewrite span_digits_of_uint).
  exfalso. simpl in Hn. symmetry in Hn. revert Hn.
  apply DecimalFacts.nzhead_nonzero.
Qed.

Lemma match_integer_str_of_int z :
  match_integer (str_of_int z) = Some (str_of_int z, []).
Proof.
  unfold str_of_int. destruct z as [|p|p]; simpl Z.to_int.
  - reflexivity.
  - pose proof (match_int_digits_pos p) as H.
    destruct (digits_of_uint (Pos.to_uint p)) as [|c r] eqn:Hd;
      [discriminate|].
    unfold match_integer. replace (c =? MINUS)%N with false; [exact H|].
    symmetry. apply N.eqb_neq. intros ->. discriminate.
  - unfold match_integer. rewrite N.eqb_refl.
    now rewrite match_int_digits_pos.
Qed.

Lemma int_of_text_str_of_int z : int_of_text (str_of_int z) = z.
Proof.
  rewrite <- (DecimalZ.of_to z) at 2. unfold str_of_int.
  destruct (Z.to_int z) as [u|u].
  - unfold int_of_text.
    destruct (digits_of_uint u) as [|c r] eqn:Hd.
    + destruct u; try discriminate. reflexivity.
    + assert (Hc : (c =? MINUS)%N = false).
      { destruct u; try discriminate; inversion Hd; reflexivity. }
      now rewrite Hc, <- Hd, uint_of_digits_of_uint.
  - unfold int_of_text. rewrite N.eqb_refl.
    now rewrite uint_of_digits_of_uint.
Qed.

Lemma match_number_str_of_int z rest :
  delimited rest = true ->
  match_number (str_of_int z ++ rest) = Some (PInt z, rest).
Proof.
  intros Hrest.
  apply (match_number_app (str_of_int z) (PInt z) [] rest); [|exact Hrest].
  unfold match_number. rewrite match_integer_str_of_int. simpl.
  now rewrite int_of_text_str_of_int.
Qed.


(** *** Strings *)

Ltac lia_div := zify; Z.to_euclidean_division_equations; lia.

Lemma all_below (f : N -> bool) (n : nat) :
  forallb f (map N.of_nat (seq 0 n)) = true ->
  forall d, (d < N.of_nat n)%N -> f d = true.
Proof.
  intros Hall d Hd. rewrite forallb_forall in Hall. apply Hall.
  rewrite <- (N2Nat.id d). apply in_map, in_seq. lia.
Qed.

Lemma hex_value_hex_char d :
  (d < 16)%N -> hex_value (hex_char d) = Some d.
Proof.
  intros Hd.
  pose proof (all_below
                (fun d => match hex_value (hex_char d) with
                          | Some d' => (d' =? d)%N
                          | None => false
                          end) 16 eq_refl d Hd) as H.
  simpl in H. destruct (hex_value (hex_char d)); [|discriminate].
  apply N.eqb_eq in H. now subst.
Qed.

Lemma decode_hex4_u_escape n :
  (n < 65536)%N ->
  decode_hex4 (hex_char (N.land (N.shiftr n 12) 15))
              (hex_char (N.land (N.shiftr n 8) 15))
              (hex_char (N.land (N.shiftr n 4) 15))
              (hex_char (N.land n 15)) = Some n.
Proof.
  intros Hn. change 15%N with (N.ones 4).
  rewrite !N.land_ones, !N.shiftr_div_pow2.
  change (2 ^ 12)%N with 4096%N. change (2 ^ 8)%N with 256%N.
  change (2 ^ 4)%N with 16%N.
  unfold decode_hex4.
  rewrite !hex_value_hex_char by (apply N.mod_lt; discriminate).
  f_equal. lia_div.
Qed.


Lemma lor_low a b : (b < 1024)%N -> N.lor (a * 1024) b = (a * 1024 + b)%N.
Proof.
  intros Hb. assert (Hland : N.land (a * 1024) b = 0%N).
  { apply N.bits_inj. intros i. rewrite N.land_spec, N.bits_0.
    destruct (N.lt_ge_cases i 10) as [Hi|Hi].
    - change 1024%N with (2 ^ 10)%N.
      now rewrite N.mul_pow2_bits_low.
    - destruct (N.eq_dec b 0) as [->|Hb0];
        [now rewrite N.bits_0, andb_false_r|].
      rewrite (N.bits_above_log2 b i), andb_false_r; [reflexivity|].
      apply N.lt_le_trans with 10%N; [|exact Hi].
      apply N.log2_lt_pow2; [lia|exact Hb]. }
  now rewrite N.add_nocarry_lxor, N.lxor_lor.
Qed.

(** The two halves of a character above U+FFFF. *)
Lemma high_surrogate n :
  N.lor 55296 (N.land (N.shiftr n 10) 1023)
  = (55296 + (n / 1024) mod 1024)%N.
Proof.
  change 1023%N with (N.ones 10). rewrite N.land_ones, N.shiftr_div_pow2.
  change (2 ^ 10)%N with 1024%N. change 55296%N with (54 * 1024)%N.
  apply lor_low. apply N.mod_lt. discriminate.
Qed.

Lemma low_surrogate n :
  N.lor 56320 (N.land n 1023) = (56320 + n mod 1024)%N.
Proof.
  change 1023%N with (N.ones 10). rewrite N.land_ones.
  change (2 ^ 10)%N with 1024%N. change 56320%N with (55 * 1024)%N.
  apply lor_low. apply N.mod_lt. discriminate.
Qed.

Lemma join_surrogates n :
  (n < 1048576)%N ->
  (65536 + N.lor (N.shiftl (55296 + (n / 1024) mod 1024 - 55296) 10)
                 (56320 + n mod 1024 - 56320))%N
  = (65536 + n)%N.
Proof.
  intros Hn.
  rewrite (N.add_comm 55296), (N.add_comm 56320), !N.add_sub.
  rewrite N.shiftl_mul_pow2. change (2 ^ 10)%N with 1024%N.
  rewrite lor_low by (apply N.mod_lt; discriminate). lia_div.
Qed.

(** One step of [scan_string] on each kind of input. *)
Lemma scan_string_plain c r :
  (c =? 34)%N = false -> (c =? 92)%N = false -> (c <? 32)%N = false ->
  scan_string (c :: r) = cons_char c (scan_string r).
Proof.
  intros H34 H92 H32. cbn [scan_string]. unfold QUOTE, BACKSLASH.
  now rewrite H34, H92, H32.
Qed.

Lemma scan_string_short esc ch r :
  (esc =? 117)%N = false -> unescape esc = Some ch ->
  scan_string (92%N :: esc :: r) = cons_char ch (scan_string r).
Proof.
  intros Hu Hesc. cbn [scan_string]. unfold QUOTE, BACKSLASH, LETTER_u.
  change (92 =? 34)%N with false. change (92 =? 92)%N with true.
  cbv iota. now rewrite Hu, Hesc.
Qed.

Lemma scan_string_single h1 h2 h3 h4 uni r :
  decode_hex4 h1 h2 h3 h4 = Some uni -> between 55296 uni 56319 = false ->
  scan_string (92%N :: 117%N :: h1 :: h2 :: h3 :: h4 :: r)
  = cons_char uni (scan_string r).
Proof.
  intros Hdec Hsur. cbn [scan_string]. unfold QUOTE, BACKSLASH, LETTER_u.
  change (92 =? 34)%N with false. change (92 =? 92)%N with true.
  change (117 =? 117)%N with true. cbv iota. now rewrite Hdec, Hsur.
Qed.

Lemma scan_string_pair h1 h2 h3 h4 l1 l2 l3 l4 hi lo r :
  decode_hex4 h1 h2 h3 h4 = Some hi -> between 55296 hi 56319 = true ->
  decode_hex4 l1 l2 l3 l4 = Some lo -> between 56320 lo 57343 = true ->
  scan_string (92%N :: 117%N :: h1 :: h2 :: h3 :: h4
               :: 92%N :: 117%N :: l1 :: l2 :: l3 :: l4 :: r)
  = cons_char (65536 + N.lor (N.shiftl (hi - 55296) 10) (lo - 56320))%N
              (scan_string r).
Proof.
  intros Hhi Hhis Hlo Hlos. cbn [scan_string].
  unfold QUOTE, BACKSLASH, LETTER_u.
  change (92 =? 34)%N with false. change (92 =? 92)%N with true.
  change (117 =? 117)%N with true. cbv iota.
  rewrite Hhi, Hhis. cbn [andb]. cbv iota. now rewrite Hlo, Hlos.
Qed.


Lemma scalar_no_surrogate c :
  scalar c = true -> between 55296 c 56319 = false.
Proof.
  unfold scalar, between. intros H.
  apply orb_true_iff in H as [H|H].
  - apply N.ltb_lt in H. apply andb_false_iff. left. apply N.leb_gt. exact H.
  - apply andb_true_iff in H as [H _]. apply N.leb_le in H.
    apply andb_false_iff. right. apply N.leb_gt. lia.
Qed.

(** An encoded character is read back as the character. *)
Lemma scan_string_encode_char c tail :
  scalar c = true ->
  scan_string (encode_char c ++ tail) = cons_char c (scan_string tail).
Proof.
  intros Hc. unfold encode_char.
  destruct (c =? 34)%N eqn:H34;
    [apply N.eqb_eq in H34; subst; now apply scan_string_short|].
  destruct (c =? 92)%N eqn:H92;
    [apply N.eqb_eq in H92; subst; now apply scan_string_short|].
  destruct (c =? 10)%N eqn:H10;
    [apply N.eqb_eq in H10; subst; now apply scan_string_short|].
  destruct (c =? 13)%N eqn:H13;
    [apply N.eqb_eq in H13; subst; now apply scan_string_short|].
  destruct (c =? 9)%N eqn:H9;
    [apply N.eqb_eq in H9; subst; now apply scan_string_short|].
  destruct (c =? 12)%N eqn:H12;
    [apply N.eqb_eq in H12; subst; now apply scan_string_short|].
  destruct (c =? 8)%N eqn:H8;
    [apply N.eqb_eq in H8; subst; now apply scan_string_short|].
  destruct (between 32 c 126) eqn:Hp.
  - apply scan_string_plain; try assumption.
    unfold between in Hp. apply andb_true_iff in Hp as [Hp _].
    apply N.leb_le in Hp. apply N.ltb_ge. exact Hp.
  - destruct (c <? 65536)%N eqn:Hlt.
    + apply N.ltb_lt in Hlt. apply scan_string_single.
      * now apply decode_hex4_u_escape.
      * now apply scalar_no_surrogate.
    + apply N.ltb_ge in Hlt.
      assert (Hmax : (c <= 1114111)%N).
      { unfold scalar, between in Hc.
        apply orb_true_iff in Hc as [Hc|Hc]; [apply N.ltb_lt in Hc; lia|].
        apply andb_true_iff in Hc as [_ Hc]. now apply N.leb_le in Hc. }
      cbv zeta. rewrite high_surrogate, low_surrogate.
      set (n := (c - 65536)%N).
      assert (Hn : (n < 1048576)%N) by (subst n; lia).
      assert (Hhi : ((n / 1024) mod 1024 < 1024)%N)
        by (apply N.mod_lt; discriminate).
      assert (Hlo : (n mod 1024 < 1024)%N) by (apply N.mod_lt; discriminate).
      unfold u_escape at 1 2. unfold BACKSLASH, LETTER_u.
      cbn [app].
      rewrite (scan_string_pair _ _ _ _ _ _ _ _
                 (55296 + (n / 1024) mod 1024)%N (56320 + n mod 1024)%N).
      * rewrite join_surrogates by exact Hn.
        replace (65536 + n)%N with c by (subst n; lia). reflexivity.
      * apply decode_hex4_u_escape. lia_div.
      * unfold between. apply andb_true_iff.
        split; apply N.leb_le; lia_div.
      * apply decode_hex4_u_escape. lia_div.
      * unfold between. apply andb_true_iff.
        split; apply N.leb_le; lia_div.
Qed.

Lemma scan_string_encode s : forall rest,
  forallb scalar s = true ->
  scan_string (flat_map encode_char s ++ QUOTE :: rest) = Some (s, rest).
Proof.
  induction s as [|c s IH]; intros rest Hs; [reflexivity|].
  simpl in Hs. apply andb_true_iff in Hs as [Hc Hs].
  cbn [flat_map]. rewrite <- app_assoc.
  rewrite (scan_string_encode_char c _ Hc), (IH rest Hs). reflexivity.
Qed.


(** *** The text of a number *)

Lemma span_digits_spec s : forall ds r,
  span_digits s = (ds, r) -> s = ds ++ r /\ forallb number_char ds = true.
Proof.
  induction s as [|c s IH]; intros ds r Hs; simpl in Hs.
  - inversion Hs. auto.
  - destruct (is_digit c) eqn:Hc; [|inversion Hs; auto].
    destruct (span_digits s) as [ds' r'] eqn:Hsp. inversion Hs; subst.
    destruct (IH ds' r eq_refl) as [-> Hds]. split; [reflexivity|].
    simpl. unfold number_char at 1. now rewrite Hc, Hds.
Qed.

Lemma match_int_digits_spec s ds r :
  match_int_digits s = Some (ds, r) ->
  s = ds ++ r /\ forallb number_char ds = true /\
  exists c t, ds = c :: t /\ is_digit c = true.
Proof.
  destruct s as [|c s]; simpl; [discriminate|].
  destruct (c =? 48)%N eqn:H0.
  - intros H. inversion H; subst. apply N.eqb_eq in H0. subst.
    repeat split. now exists 48%N, [].
  - destruct (between 49 c 57) eqn:Hc; [|discriminate].
    destruct (span_digits s) as [ds' r'] eqn:Hsp. intros H. inversion H; subst.
    destruct (span_digits_spec _ _ _ Hsp) as [-> Hds].
    assert (Hd : is_digit c = true).
    { unfold is_digit, between in *. apply andb_true_iff in Hc as [Hlo Hhi].
      apply N.leb_le in Hlo. rewrite Hhi, andb_true_r. apply N.leb_le. lia. }
    repeat split.
    + simpl. unfold number_char at 1. now rewrite Hd, Hds.
    + now exists c, ds'.
Qed.

Lemma match_integer_spec s ds r :
  match_integer s = Some (ds, r) ->
  s = ds ++ r /\ forallb number_char ds = true /\
  exists c t, ds = c :: t /\ ((c =? 45)%N || is_digit c = true).
Proof.
  destruct s as [|c s]; [discriminate|]. unfold match_integer.
  destruct (c =? MINUS)%N eqn:Hm.
  - destruct (match_int_digits s) as [[ds' r']|] eqn:Hd; [|discriminate].
    intros H. inversion H; subst. apply N.eqb_eq in Hm. subst.
    destruct (match_int_digits_spec _ _ _ Hd) as (-> & Hds & _).
    repeat split; [exact Hds|]. now exists MINUS, ds'.
  - intros H. destruct (match_int_digits_spec _ _ _ H) as (Hs & Hds & c' & t & -> & Hc').
    repeat split; try assumption. exists c', t. split; [reflexivity|].
    rewrite Hc'. apply orb_true_r.
Qed.

Lemma match_frac_spec s ds r :
  match_frac s = (ds, r) -> s = ds ++ r /\ forallb number_char ds = true.
Proof.
  destruct s as [|c s]; simpl; [intros H; inversion H; auto|].
  destruct (c =? 46)%N eqn:Hc; [|intros H; inversion H; auto].
  destruct (span_digits s) as [ds' r'] eqn:Hsp.
  destruct (span_digits_spec _ _ _ Hsp) as [-> Hds].
  destruct ds'; intros H; inversion H; subst; [auto|].
  split; [reflexivity|]. apply N.eqb_eq in Hc. subst. exact Hds.
Qed.

Lemma match_exp_spec s ds r :
  match_exp s = (ds, r) -> s = ds ++ r /\ forallb number_char ds = true.
Proof.
  destruct s as [|c s]; simpl; [intros H; inversion H; auto|].
  destruct ((c =? 101)%N || (c =? 69)%N) eqn:Hc; [|intros H; inversion H; auto].
  assert (Hnc : number_char c = true).
  { unfold number_char. apply orb_true_iff in Hc as [-> | ->];
      rewrite ?orb_true_r; reflexivity. }
  destruct s as [|sign s]; [intros H; inversion H; auto|].
  destruct ((sign =? 45)%N || (sign =? 43)%N) eqn:Hsg.
  - destruct (span_digits s) as [ds' r'] eqn:Hsp.
    destruct (span_digits_spec _ _ _ Hsp) as [-> Hds].
    destruct ds'; intros H; inversion H; subst; [auto|].
    split; [reflexivity|]. cbn [forallb]. rewrite Hnc. cbn [andb].
    replace (number_char sign) with true; [exact Hds|].
    unfold number_char. apply orb_true_iff in Hsg as [-> | ->];
      rewrite ?orb_true_r; reflexivity.
  - destruct (span_digits (sign :: s)) as [ds' r'] eqn:Hsp.
    destruct (span_digits_spec _ _ _ Hsp) as [Heq Hds]. rewrite Heq.
    destruct ds'; intros H; inversion H; subst; [auto|].
    split; [reflexivity|]. cbn [forallb]. now rewrite Hnc.
Qed.

(** What [match_number] takes is made of the characters of a number and
    begins with a digit or a minus sign; a [float] is that text. *)
Lemma match_number_spec s v r :
  match_number s = Some (v, r) ->
  exists text,
    s = text ++ r /\ forallb number_char text = true /\
    (exists c t, text = c :: t /\ ((c =? 45)%N || is_digit c = true)) /\
    (forall literal, v = PFloat literal -> literal = text).
Proof.
  unfold match_number.
  destruct (match_integer s) as [[integer r1]|] eqn:Hi; [|discriminate].
  destruct (match_frac r1) as [frac r2] eqn:Hf.
  destruct (match_exp r2) as [exp r3] eqn:He.
  destruct (match_integer_spec _ _ _ Hi) as (-> & Hic & c & t & -> & Hc).
  destruct (match_frac_spec _ _ _ Hf) as (-> & Hfc).
  destruct (match_exp_spec _ _ _ He) as (-> & Hec).
  intros H. exists ((c :: t) ++ frac ++ exp).
  assert (r3 = r) by (destruct (frac ++ exp); now inversion H). subst r3.
  split; [now rewrite <- !app_assoc|]. split.
  - rewrite !forallb_app, Hic, Hfc, Hec. reflexivity.
  - split; [now exists c, (t ++ frac ++ exp)|].
    intros literal ->. destruct (frac ++ exp); now inversion H.
Qed.

Lemma float_literal_reads literal rest :
  float_literal literal = true -> delimited rest = true ->
  match_number (literal ++ rest) = Some (PFloat literal, rest).
Proof.
  unfold float_literal. intros Hlit Hrest.
  destruct (match_number literal) as [[v r]|] eqn:Hm; [|discriminate].
  destruct v; try discriminate. destruct r; [|discriminate].
  destruct (match_number_spec _ _ _ Hm) as (text & Hs & _ & _ & Hlit').
  rewrite (Hlit' _ eq_refl) in Hm.
  rewrite app_nil_r in Hs. subst text.
  exact (match_number_app _ _ _ _ Hm Hrest).
Qed.


(** *** One step of the scanner *)

Lemma scan_once_S fuel c r :
  scan_once (S fuel) (c :: r) =
  if (c =? QUOTE)%N then
    match scan_string r with
    | Some (str, rest) => Some (PStr str, rest)
    | None => None
    end
  else if (c =? LBRACE)%N then
    match skip_whitespace r with
    | c' :: r' =>
        if (c' =? RBRACE)%N then Some (PDict [], r')
        else
          match parse_members fuel (c' :: r') with
          | Some (pairs, rest) => Some (PDict (dict_of_pairs pairs), rest)
          | None => None
          end
    | [] => None
    end
  else if (c =? LBRACKET)%N then
    match skip_whitespace r with
    | c' :: r' =>
        if (c' =? RBRACKET)%N then Some (PList [], r')
        else
          match parse_items fuel (c' :: r') with
          | Some (items, rest) => Some (PList items, rest)
          | None => None
          end
    | [] => None
    end
  else scan_atom (c :: r).
Proof. reflexivity. Qed.

Lemma parse_items_S fuel s :
  parse_items (S fuel) s =
  match scan_once fuel s with
  | None => None
  | Some (value, r) =>
      match skip_whitespace r with
      | c :: r' =>
          if (c =? RBRACKET)%N then Some ([value], r')
          else if (c =? COMMA)%N then
            match parse_items fuel (skip_whitespace r') with
            | Some (items, rest) => Some (value :: items, rest)
            | None => None
            end
          else None
      | [] => None
      end
  end.
Proof. reflexivity. Qed.

Lemma parse_members_S fuel r :
  parse_members (S fuel) (QUOTE :: r) =
  match scan_string r with
  | None => None
  | Some (key, r1) =>
      match skip_whitespace r1 with
      | c1 :: r2 =>
          if (c1 =? COLON)%N then
            match scan_once fuel (skip_whitespace r2) with
            | None => None
            | Some (value, r3) =>
                match skip_whitespace r3 with
                | c3 :: r4 =>
                    if (c3 =? RBRACE)%N then Some ([(key, value)], r4)
                    else if (c3 =? COMMA)%N then
                      match parse_members fuel (skip_whitespace r4) with
                      | Some (pairs, rest) => Some ((key, value) :: pairs, rest)
                      | None => None
                      end
                    else None
                | [] => None
                end
            end
          else None
      | [] => None
      end
  end.
Proof. reflexivity. Qed.

(** The first character of a number sends the scanner to [scan_atom],
    and [scan_atom] to [match_number]. *)
Lemma scan_once_number fuel s v r :
  match_number s = Some (v, r) -> scan_once (S fuel) s = Some (v, r).
Proof.
  intros Hm.
  destruct (match_number_spec _ _ _ Hm) as (text & Hs & _ & (c & t & -> & Hc) & _).
  assert (Hrange : c = 45%N \/ (48 <= c <= 57)%N).
  { apply orb_true_iff in Hc as [Hc|Hc]; [left; now apply N.eqb_eq|right].
    unfold is_digit, between in Hc. apply andb_true_iff in Hc as [Hlo Hhi].
    apply N.leb_le in Hlo, Hhi. lia. }
  assert (Hne : forall k, (k = 34 \/ k = 123 \/ k = 91 \/ k = 110 \/ k = 116
                           \/ k = 102)%N ->
                          (c =? k)%N = false /\ (k =? c)%N = false).
  { intros k Hk. split; apply N.eqb_neq; lia. }
  subst s. cbn [app] in *. rewrite scan_once_S.
  unfold QUOTE, LBRACE, LBRACKET.
  rewrite (proj1 (Hne 34%N ltac:(tauto))), (proj1 (Hne 123%N ltac:(tauto))),
    (proj1 (Hne 91%N ltac:(tauto))).
  unfold scan_atom.
  change (py "null") with [110; 117; 108; 108]%N.
  change (py "true") with [116; 114; 117; 101]%N.
  change (py "false") with [102; 97; 108; 115; 101]%N.
  cbn [strip_prefix].
  rewrite (proj2 (Hne 110%N ltac:(tauto))), (proj2 (Hne 116%N ltac:(tauto))),
    (proj2 (Hne 102%N ltac:(tauto))).
  now rewrite Hm.
Qed.


(** *** Induction on values *)

Lemma pyval_ind' (P : pyval -> Prop) :
  P PNone -> (forall b, P (PBool b)) -> (forall z, P (PInt z)) ->
  (forall literal, P (PFloat literal)) -> (forall s, P (PStr s)) ->
  (forall items, Forall P items -> P (PList items)) ->
  (forall items, Forall (fun kv => P (snd kv)) items -> P (PDict items)) ->
  forall v, P v.
Proof.
  intros HN HB HI HF HS HL HD.
  fix IH 1. intros [| b | z | literal | s | items | items].
  - exact HN.
  - apply HB.
  - apply HI.
  - apply HF.
  - apply HS.
  - apply HL. induction items as [|v items IHitems]; constructor;
      [apply IH|exact IHitems].
  - apply HD. induction items as [|[k v] items IHitems]; constructor;
      [apply IH|exact IHitems].
Qed.

(** *** Where a value begins *)

Lemma value_start_number c t :
  (c =? 45)%N || is_digit c = true -> value_start (c :: t).
Proof.
  intros Hc. exists c, t. split; [reflexivity|].
  assert (Hrange : c = 45%N \/ (48 <= c <= 57)%N).
  { apply orb_true_iff in Hc as [Hc|Hc]; [left; now apply N.eqb_eq|right].
    unfold is_digit, between in Hc. apply andb_true_iff in Hc as [Hlo Hhi].
    apply N.leb_le in Hlo, Hhi. lia. }
  unfold is_whitespace, RBRACKET, RBRACE.
  rewrite !orb_false_iff. repeat split; apply N.eqb_neq; lia.
Qed.

Lemma dumps_start v : well_formed v = true -> value_start (dumps v).
Proof.
  destruct v as [| [|] | z | literal | s | items | items]; intros Hwf;
    try (eexists _, _; split; [reflexivity|]; repeat split; reflexivity).
  - pose proof (match_integer_str_of_int z) as Hm.
    destruct (match_integer_spec _ _ _ Hm) as (_ & _ & c & t & Heq & Hc).
    simpl. rewrite Heq. now apply value_start_number.
  - simpl in *. unfold float_literal in Hwf.
    destruct (match_number literal) as [[v r]|] eqn:Hm; [|discriminate].
    destruct v; try discriminate. destruct r; [|discriminate].
    destruct (match_number_spec _ _ _ Hm) as (text & Hs & _ & (c & t & -> & Hc) & _).
    rewrite app_nil_r in Hs. subst. now apply value_start_number.
Qed.

Lemma skip_whitespace_start s t :
  value_start s -> skip_whitespace (s ++ t) = s ++ t.
Proof. intros (c & r & -> & Hws & _). simpl. now rewrite Hws. Qed.

Lemma join_one sep p : join sep [p] = p.
Proof. reflexivity. Qed.

Lemma join_more sep p q rest :
  join sep (p :: q :: rest) = p ++ sep ++ join sep (q :: rest).
Proof. reflexivity. Qed.

Lemma join_start sep p rest :
  value_start p -> value_start (join sep (p :: rest)).
Proof.
  intros (c & r & -> & H). destruct rest as [|q rest].
  - now exists c, r.
  - rewrite join_more. now exists c, (r ++ sep ++ join sep (q :: rest)).
Qed.

(** *** Reading back what was written *)

Lemma parse_items_last fuel s v rest :
  scan_once fuel s = Some (v, RBRACKET :: rest) ->
  parse_items (S fuel) s = Some ([v], rest).
Proof. intros H. rewrite parse_items_S, H. reflexivity. Qed.

Lemma parse_items_next fuel s v r items rest :
  scan_once fuel s = Some (v, item_separator ++ r) ->
  parse_items fuel (skip_whitespace r) = Some (items, rest) ->
  parse_items (S fuel) s = Some (v :: items, rest).
Proof.
  intros H1 H2. rewrite parse_items_S, H1.
  change (skip_whitespace (item_separator ++ r))
    with (COMMA :: SPACE :: r).
  cbv iota.
  change (COMMA =? RBRACKET)%N with false.
  change (COMMA =? COMMA)%N with true.
  cbv iota.
  change (skip_whitespace (SPACE :: r)) with (skip_whitespace r).
  now rewrite H2.
Qed.

Lemma parse_members_last fuel r key r2 v rest :
  scan_string r = Some (key, key_separator ++ r2) ->
  scan_once fuel (skip_whitespace r2) = Some (v, RBRACE :: rest) ->
  parse_members (S fuel) (QUOTE :: r) = Some ([(key, v)], rest).
Proof.
  intros H1 H2. rewrite parse_members_S, H1.
  change (skip_whitespace (key_separator ++ r2)) with (COLON :: SPACE :: r2).
  cbv iota.
  change (COLON =? COLON)%N with true.
  cbv iota.
  change (skip_whitespace (SPACE :: r2)) with (skip_whitespace r2).
  rewrite H2. reflexivity.
Qed.

Lemma parse_members_next fuel r key r2 v r3 pairs rest :
  scan_string r = Some (key, key_separator ++ r2) ->
  scan_once fuel (skip_whitespace r2) = Some (v, item_separator ++ r3) ->
  parse_members fuel (skip_whitespace r3) = Some (pairs, rest) ->
  parse_members (S fuel) (QUOTE :: r) = Some ((key, v) :: pairs, rest).
Proof.
  intros H1 H2 H3. rewrite parse_members_S, H1.
  change (skip_whitespace (key_separator ++ r2)) with (COLON :: SPACE :: r2).
  cbv iota.
  change (COLON =? COLON)%N with true.
  cbv iota.
  change (skip_whitespace (SPACE :: r2)) with (skip_whitespace r2).
  rewrite H2.
  change (skip_whitespace (item_separator ++ r3)) with (COMMA :: SPACE :: r3).
  cbv iota.
  change (COMMA =? RBRACE)%N with false.
  change (COMMA =? COMMA)%N with true.
  cbv iota.
  change (skip_whitespace (SPACE :: r3)) with (skip_whitespace r3).
  now rewrite H3.
Qed.

Lemma parse_items_join items :
  items <> [] ->
  Forall reads_back items ->
  Forall (fun v => value_start (dumps v)) items ->
  forall fuel rest,
    List.length (join item_separator (map dumps items)) < fuel ->
    parse_items fuel (join item_separator (map dumps items)
                      ++ RBRACKET :: rest)
    = Some (items, rest).
Proof.
  induction items as [|v items IH]; [congruence|].
  intros _ Hrb Hst fuel rest Hfuel.
  inversion Hrb as [|? ? Hv Hrb']; subst.
  inversion Hst as [|? ? Hsv Hst']; subst.
  destruct fuel as [|fuel]; [lia|].
  destruct items as [|v2 items].
  - cbn [map] in *. rewrite join_one in *.
    apply parse_items_last. apply Hv; [lia|reflexivity].
  - cbn [map] in *. rewrite join_more in *. rewrite <- !app_assoc.
    rewrite !length_app in Hfuel.
    change (List.length item_separator) with 2 in Hfuel.
    apply parse_items_next
      with (r := join item_separator (dumps v2 :: map dumps items)
                 ++ RBRACKET :: rest).
    + apply Hv; [lia|reflexivity].
    + rewrite skip_whitespace_start
        by (apply join_start; now inversion Hst').
      apply (IH ltac:(discriminate) Hrb' Hst' fuel rest). lia.
Qed.

Lemma dump_member_start kv rest :
  exists r, join item_separator (dump_member kv :: rest) = QUOTE :: r.
Proof.
  destruct rest as [|q rest]; [rewrite join_one|rewrite join_more];
    unfold dump_member, encode_string; cbn [app]; eauto.
Qed.

Lemma parse_members_join items :
  items <> [] ->
  Forall (fun kv => forallb scalar (fst kv) = true) items ->
  Forall (fun kv => reads_back (snd kv)) items ->
  Forall (fun kv => value_start (dumps (snd kv))) items ->
  forall fuel rest,
    List.length (join item_separator (map dump_member items)) < fuel ->
    parse_members fuel (join item_separator (map dump_member items)
                        ++ RBRACE :: rest)
    = Some (items, rest).
Proof.
  induction items as [|[k v] items IH]; [congruence|].
  intros _ Hks Hrb Hst fuel rest Hfuel.
  inversion Hks as [|? ? Hk Hks']; subst.
  inversion Hrb as [|? ? Hv Hrb']; subst.
  inversion Hst as [|? ? Hsv Hst']; subst.
  cbn [fst snd] in *.
  destruct fuel as [|fuel]; [lia|].
  destruct items as [|kv2 items].
  - cbn [map] in *. rewrite join_one in *. unfold dump_member in *.
    cbn [fst snd] in *. unfold encode_string in *.
    rewrite !length_app in Hfuel. cbn [List.length] in Hfuel.
    rewrite <- !app_assoc. cbn [app].
    apply parse_members_last with (r2 := dumps v ++ RBRACE :: rest).
    + now apply scan_string_encode.
    + rewrite skip_whitespace_start by exact Hsv.
      change (List.length key_separator) with 2 in Hfuel.
      apply Hv; [lia|reflexivity].
  - cbn [map] in *. rewrite join_more in *. unfold dump_member at 1 in Hfuel.
    unfold dump_member at 1.
    cbn [fst snd] in *. unfold encode_string in *.
    rewrite !length_app in Hfuel. cbn [List.length] in Hfuel.
    change (List.length key_separator) with 2 in Hfuel.
    change (List.length item_separator) with 2 in Hfuel.
    rewrite <- !app_assoc. cbn [app].
    apply parse_members_next
      with (r2 := dumps v ++ item_separator
                  ++ join item_separator (dump_member kv2 :: map dump_member items)
                  ++ RBRACE :: rest)
           (r3 := join item_separator (dump_member kv2 :: map dump_member items)
                  ++ RBRACE :: rest).
    + now apply scan_string_encode.
    + rewrite skip_whitespace_start by exact Hsv.
      apply Hv; [lia|reflexivity].
    + destruct (dump_member_start kv2 (map dump_member items)) as [r Hr].
      rewrite Hr. change (skip_whitespace ((QUOTE :: r) ++ RBRACE :: rest))
        with ((QUOTE :: r) ++ RBRACE :: rest).
      rewrite <- Hr.
      apply (IH ltac:(discriminate) Hks' Hrb' Hst' fuel rest). lia.
Qed.


(** *** Dicts with distinct keys *)

Lemma existsb_eqb_In k ks : existsb (pystr_eqb k) ks = true <-> In k ks.
Proof.
  rewrite existsb_exists. split.
  - intros (x & Hx & Heq). apply pystr_eqb_eq in Heq. now subst.
  - intros Hin. exists k. split; [exact Hin|apply pystr_eqb_refl].
Qed.

Lemma distinct_NoDup ks : distinct ks = true <-> NoDup ks.
Proof.
  induction ks as [|k ks IH]; simpl.
  - split; [constructor|reflexivity].
  - rewrite andb_true_iff, negb_true_iff, IH. split.
    + intros [Hk Hks]. constructor; [|exact Hks].
      intros Hin. apply existsb_eqb_In in Hin. congruence.
    + intros Hnd. inversion Hnd as [|? ? Hk Hks]; subst. split; [|exact Hks].
      destruct (existsb (pystr_eqb k) ks) eqn:He; [|reflexivity].
      apply existsb_eqb_In in He. contradiction.
Qed.

Lemma dict_set_fresh k v d :
  ~ In k (map fst d) -> dict_set k v d = d ++ [(k, v)].
Proof.
  induction d as [|[k' v'] d IH]; intros Hk; simpl; [reflexivity|].
  simpl in Hk. destruct (pystr_eqb k k') eqn:He.
  - apply pystr_eqb_eq in He. subst. tauto.
  - rewrite IH by tauto. reflexivity.
Qed.

Lemma dict_fold_distinct items : forall acc,
  NoDup (map fst acc ++ map fst items) ->
  fold_left (fun d kv => dict_set (fst kv) (snd kv) d) items acc
  = acc ++ items.
Proof.
  induction items as [|[k v] items IH]; intros acc Hnd; simpl.
  - now rewrite app_nil_r.
  - simpl in Hnd. rewrite dict_set_fresh.
    + rewrite IH; [now rewrite <- app_assoc|].
      rewrite map_app, <- app_assoc. exact Hnd.
    + intros Hin. apply NoDup_remove_2 in Hnd. apply Hnd.
      apply in_or_app. now left.
Qed.

Lemma dict_of_pairs_distinct items :
  distinct (map fst items) = true -> dict_of_pairs items = items.
Proof.
  intros Hd. unfold dict_of_pairs.
  now rewrite dict_fold_distinct by (now apply distinct_NoDup).
Qed.

(** *** The round trip of one value *)

Theorem dumps_reads_back v : well_formed v = true -> reads_back v.
Proof.
  induction v as [| b | z | literal | s | items IH | items IH]
    using pyval_ind'; intros Hwf fuel rest Hfuel Hrest.
  - destruct fuel as [|fuel]; [simpl in Hfuel; lia|]. reflexivity.
  - destruct fuel as [|fuel]; [destruct b; simpl in Hfuel; lia|].
    destruct b; reflexivity.
  - destruct fuel as [|fuel].
    + pose proof (match_integer_str_of_int z) as Hm.
      destruct (match_integer_spec _ _ _ Hm) as (_ & _ & c & t & Heq & _).
      simpl in Hfuel. rewrite Heq in Hfuel. simpl in Hfuel. lia.
    + apply scan_once_number. now apply match_number_str_of_int.
  - simpl in Hwf. destruct fuel as [|fuel].
    + destruct (dumps_start (PFloat literal) Hwf) as (c & r & Heq & _).
      rewrite Heq in Hfuel. simpl in Hfuel. lia.
    + apply scan_once_number. now apply float_literal_reads.
  - simpl in Hwf. destruct fuel as [|fuel]; [simpl in Hfuel; lia|].
    cbn [dumps]. unfold encode_string. rewrite <- !app_assoc. cbn [app].
    rewrite scan_once_S. change (QUOTE =? QUOTE)%N with true. cbv iota.
    now rewrite scan_string_encode.
  - simpl in Hwf. rewrite forallb_forall in Hwf.
    assert (Hrb : Forall reads_back items).
    { rewrite Forall_forall in *. intros v Hv. apply IH; auto. }
    assert (Hst : Forall (fun v => value_start (dumps v)) items).
    { rewrite Forall_forall. intros v Hv. apply dumps_start; auto. }
    destruct fuel as [|fuel]; [simpl in Hfuel; lia|].
    cbn [dumps] in *. rewrite <- !app_assoc. cbn [app].
    rewrite !length_app in Hfuel. cbn [List.length] in Hfuel.
    rewrite scan_once_S.
    change (LBRACKET =? QUOTE)%N with false.
    change (LBRACKET =? LBRACE)%N with false.
    change (LBRACKET =? LBRACKET)%N with true. cbv iota.
    destruct items as [|v items]; [reflexivity|].
    assert (Hjs : value_start
                    (join item_separator (map dumps (v :: items))))
      by (apply join_start; now inversion Hst).
    rewrite skip_whitespace_start by exact Hjs.
    pose proof (parse_items_join (v :: items) ltac:(discriminate) Hrb Hst
                  fuel rest ltac:(lia)) as Hparse.
    destruct Hjs as (c & r & Hj & _ & Hc & _).
    rewrite Hj in *. cbn [app] in *. rewrite Hc, Hparse. reflexivity.
  - simpl in Hwf. apply andb_true_iff in Hwf as [Hwf Hdist].
    rewrite forallb_forall in Hwf.
    assert (Hks : Forall (fun kv => forallb scalar (fst kv) = true) items).
    { rewrite Forall_forall. intros kv Hkv.
      now destruct (proj1 (andb_true_iff _ _) (Hwf kv Hkv)). }
    assert (Hrb : Forall (fun kv => reads_back (snd kv)) items).
    { rewrite Forall_forall in *. intros kv Hkv. apply IH; [exact Hkv|].
      now destruct (proj1 (andb_true_iff _ _) (Hwf kv Hkv)). }
    assert (Hst : Forall (fun kv => value_start (dumps (snd kv))) items).
    { rewrite Forall_forall. intros kv Hkv. apply dumps_start.
      now destruct (proj1 (andb_true_iff _ _) (Hwf kv Hkv)). }
    destruct fuel as [|fuel]; [simpl in Hfuel; lia|].
    cbn [dumps] in *.
    change (map (fun kv => encode_string (fst kv) ++ key_separator
                           ++ dumps (snd kv)) items)
      with (map dump_member items) in *.
    rewrite <- !app_assoc. cbn [app].
    rewrite !length_app in Hfuel. cbn [List.length] in Hfuel.
    rewrite scan_once_S.
    change (LBRACE =? QUOTE)%N with false.
    change (LBRACE =? LBRACE)%N with true. cbv iota.
    destruct items as [|kv items]; [reflexivity|].
    pose proof (parse_members_join (kv :: items) ltac:(discriminate)
                  Hks Hrb Hst fuel rest ltac:(lia)) as Hparse.
    cbn [map] in *.
    destruct (dump_member_start kv (map dump_member items)) as [r Hr].
    rewrite Hr in *. cbn [app skip_whitespace] in *.
    change (is_whitespace QUOTE) with false. cbv iota.
    change (QUOTE =? RBRACE)%N with false. cbv iota.
    rewrite Hparse. now rewrite dict_of_pairs_distinct.
Qed.


Theorem loads_dumps v : well_formed v = true -> loads (dumps v) = inr v.
Proof.
  intros Hwf. unfold loads.
  rewrite <- (app_nil_r (dumps v)) at 2.
  rewrite skip_whitespace_start by now apply dumps_start.
  rewrite (dumps_reads_back v Hwf) by (try reflexivity; lia).
  reflexivity.
Qed.

Theorem loads_dumps_line v :
  well_formed v = true -> loads (dumps v ++ [Collector.NEWLINE]) = inr v.
Proof.
  intros Hwf. unfold loads.
  rewrite skip_whitespace_start by now apply dumps_start.
  rewrite (dumps_reads_back v Hwf)
    by (try reflexivity; rewrite length_app; lia).
  reflexivity.
Qed.

(** *** The characters [dumps] writes *)

Lemma number_char_printable c : number_char c = true -> printable c = true.
Proof.
  unfold number_char, is_digit, printable, between.
  rewrite !orb_true_iff, !andb_true_iff, !N.eqb_eq, !N.leb_le. lia.
Qed.

Lemma forallb_impl {A} (f g : A -> bool) l :
  (forall x, f x = true -> g x = true) ->
  forallb f l = true -> forallb g l = true.
Proof.
  intros Himp. rewrite !forallb_forall. auto.
Qed.

Lemma hex_char_printable d : (d < 16)%N -> printable (hex_char d) = true.
Proof. exact (all_below (fun d => printable (hex_char d)) 16 eq_refl d). Qed.

Lemma u_escape_printable n : forallb printable (u_escape n) = true.
Proof.
  unfold u_escape. change 15%N with (N.ones 4). rewrite !N.land_ones.
  cbn [forallb].
  rewrite !hex_char_printable by (apply N.mod_lt; discriminate).
  reflexivity.
Qed.

Lemma encode_char_printable c : forallb printable (encode_char c) = true.
Proof.
  unfold encode_char.
  repeat match goal with
         | |- context [if (c =? ?k)%N then _ else _] =>
             destruct (c =? k)%N; [reflexivity|]
         end.
  destruct (between 32 c 126) eqn:Hp; [simpl; now rewrite andb_true_r|].
  destruct (c <? 65536)%N; [apply u_escape_printable|].
  cbv zeta. rewrite forallb_app, !u_escape_printable. reflexivity.
Qed.

Lemma encode_string_printable s : forallb printable (encode_string s) = true.
Proof.
  unfold encode_string. cbn [app forallb]. rewrite forallb_app.
  change (printable QUOTE) with true. cbn [forallb andb].
  rewrite andb_true_r. induction s as [|c s IH]; [reflexivity|].
  cbn [flat_map]. now rewrite forallb_app, encode_char_printable, IH.
Qed.

Lemma join_printable sep parts :
  forallb printable sep = true ->
  Forall (fun p => forallb printable p = true) parts ->
  forallb printable (join sep parts) = true.
Proof.
  intros Hsep. induction 1 as [|p parts Hp _ IH]; [reflexivity|].
  destruct parts as [|q parts]; [exact Hp|].
  rewrite join_more, !forallb_app, Hp, Hsep. exact IH.
Qed.

Lemma dumps_printable v :
  well_formed v = true -> forallb printable (dumps v) = true.
Proof.
  induction v as [| b | z | literal | s | items IH | items IH]
    using pyval_ind'; intros Hwf.
  - reflexivity.
  - now destruct b.
  - pose proof (match_integer_str_of_int z) as Hm.
    destruct (match_integer_spec _ _ _ Hm) as (_ & Hnc & _).
    exact (forallb_impl _ _ _ number_char_printable Hnc).
  - simpl in *. unfold float_literal in Hwf.
    destruct (match_number literal) as [[v r]|] eqn:Hm; [|discriminate].
    destruct v; try discriminate. destruct r; [|discriminate].
    destruct (match_number_spec _ _ _ Hm) as (text & Hs & Hnc & _).
    rewrite app_nil_r in Hs. subst text.
    exact (forallb_impl _ _ _ number_char_printable Hnc).
  - apply encode_string_printable.
  - simpl in Hwf. rewrite forallb_forall in Hwf. cbn [dumps].
    rewrite forallb_app. cbn [forallb]. rewrite forallb_app.
    change (printable LBRACKET) with true.
    rewrite join_printable; [reflexivity|reflexivity|].
    rewrite Forall_forall in *. intros p Hp.
    apply in_map_iff in Hp as (v & <- & Hv). apply IH; auto.
  - simpl in Hwf. apply andb_true_iff in Hwf as [Hwf _].
    rewrite forallb_forall in Hwf. cbn [dumps].
    rewrite forallb_app. cbn [forallb]. rewrite forallb_app.
    change (printable LBRACE) with true.
    rewrite join_printable; [reflexivity|reflexivity|].
    rewrite Forall_forall in *. intros p Hp.
    apply in_map_iff in Hp as (kv & <- & Hkv).
    rewrite !forallb_app, encode_string_printable.
    change (forallb printable key_separator) with true. cbn [andb].
    apply IH; [exact Hkv|].
    now destruct (proj1 (andb_true_iff _ _) (Hwf kv Hkv)).
Qed.

(** *** Lines *)

Lemma printable_not_boundary c :
  printable c = true -> (c =? 13)%N = false /\ is_line_boundary c = false.
Proof.
  unfold printable, between, is_line_boundary.
  rewrite andb_true_iff, !N.leb_le, !orb_false_iff, !N.eqb_neq. lia.
Qed.

Lemma splitlines_from_line line : forall cur rest,
  forallb printable line = true ->
  splitlines_from cur (line ++ Collector.NEWLINE :: rest)
  = (rev cur ++ line) :: splitlines_from [] rest.
Proof.
  induction line as [|c line IH]; intros cur rest Hline.
  - now rewrite app_nil_r.
  - simpl in Hline. apply andb_true_iff in Hline as [Hc Hline].
    destruct (printable_not_boundary c Hc) as [H13 Hb].
    cbn [app splitlines_from]. rewrite H13, Hb, (IH _ _ Hline).
    cbn [rev]. now rewrite <- app_assoc.
Qed.

Lemma splitlines_written data :
  Forall (fun v => well_formed v = true) data ->
  splitlines (Writer.written data) = map dumps data.
Proof.
  unfold splitlines. induction 1 as [|v data Hv _ IH]; [reflexivity|].
  cbn [Writer.written map]. rewrite <- app_assoc. cbn [app].
  rewrite splitlines_from_line by now apply dumps_printable.
  now rewrite IH.
Qed.

End JsonFacts.

(** ** What the collector produces can be written and read back *)

Section BatchFacts.

Import Json.

Ltac to_prop :=
  repeat match goal with
         | H : _ && _ = true |- _ =>
             apply andb_true_iff in H; destruct H
         | H : (_ <=? _)%N = true |- _ => apply N.leb_le in H
         | H : (_ <? _)%N = true |- _ => apply N.ltb_lt in H
         | H : (_ <? _)%N = false |- _ => apply N.ltb_ge in H
         | H : (_ =? _)%N = true |- _ => apply N.eqb_eq in H
         | H : (_ =? _)%N = false |- _ => apply N.eqb_neq in H
         | H : between _ _ _ = true |- _ =>
             unfold between in H
         | H : continuation _ = true |- _ => unfold continuation in H
         end.

Ltac scalar_goal :=
  unfold scalar, between;
  match goal with
  | |- (?a <? ?b)%N || _ = true =>
      destruct (N.ltb_spec a b); [reflexivity|];
      cbn [orb]; apply andb_true_iff; split; apply N.leb_le; lia
  end.

Lemma option_map_cons c (x : option pystr) s :
  option_map (cons c) x = Some s -> exists s', x = Some s' /\ s = c :: s'.
Proof.
  destruct x as [s'|]; simpl; [|discriminate].
  intros H. inversion H. now exists s'.
Qed.

(** Decoded UTF-8 holds scalar values only. *)
Lemma utf8_decode_scalar n : forall bs s,
  List.length bs <= n -> utf8_decode bs = Some s -> forallb scalar s = true.
Proof.
  induction n as [|n IH]; intros bs s Hlen H.
  - destruct bs; [now inversion H|simpl in Hlen; lia].
  - destruct bs as [|b0 r0]; [now inversion H|]. cbn [utf8_decode] in H.
    cbn [List.length] in Hlen.
    destruct (b0 <? 128)%N eqn:H0.
    { apply option_map_cons in H as (s' & Hs' & ->). cbn [forallb].
      rewrite (IH r0 s') by (assumption || lia). rewrite andb_true_r.
      to_prop. scalar_goal. }
    destruct r0 as [|b1 r1]; [discriminate|]. cbn [List.length] in Hlen.
    destruct (between 194 b0 223) eqn:H2.
    { destruct (continuation b1) eqn:Hc1; [|discriminate].
      apply option_map_cons in H as (s' & Hs' & ->). cbn [forallb].
      rewrite (IH r1 s') by (assumption || lia). rewrite andb_true_r.
      to_prop. scalar_goal. }
    destruct r1 as [|b2 r2]; [discriminate|]. cbn [List.length] in Hlen.
    destruct (between 224 b0 239) eqn:H3.
    { match type of H with
      | (if ?cond then _ else _) = _ => destruct cond eqn:Hcond;
                                        [|discriminate]
      end.
      apply option_map_cons in H as (s' & Hs' & ->). cbn [forallb].
      rewrite (IH r2 s') by (assumption || lia). rewrite andb_true_r.
      destruct (b0 =? 224)%N eqn:E224; [to_prop; scalar_goal|].
      destruct (b0 =? 237)%N eqn:E237; to_prop; scalar_goal. }
    destruct r2 as [|b3 r3]; [discriminate|]. cbn [List.length] in Hlen.
    destruct (between 240 b0 244) eqn:H4; [|discriminate].
    match type of H with
    | (if ?cond then _ else _) = _ => destruct cond eqn:Hcond;
                                      [|discriminate]
    end.
    apply option_map_cons in H as (s' & Hs' & ->). cbn [forallb].
    rewrite (IH r3 s') by (assumption || lia). rewrite andb_true_r.
    destruct (b0 =? 240)%N eqn:E240; [to_prop; scalar_goal|].
    destruct (b0 =? 244)%N eqn:E244; to_prop; scalar_goal.
Qed.

Lemma decode_utf8_scalar body text :
  decode_utf8 body = inr text -> forallb scalar text = true.
Proof.
  unfold decode_utf8.
  destruct (utf8_decode (map Byte.to_N body)) as [s|] eqn:Hd; [|discriminate].
  intros H. inversion H; subst.
  exact (utf8_decode_scalar _ _ _ (le_n _) Hd).
Qed.

Lemma printable_scalar c : printable c = true -> scalar c = true.
Proof.
  unfold printable, scalar, between. intros H. to_prop.
  apply orb_true_iff. left. apply N.ltb_lt. lia.
Qed.

Lemma str_of_int_scalar z : forallb scalar (str_of_int z) = true.
Proof.
  apply (forallb_impl _ _ _ printable_scalar).
  exact (dumps_printable (PInt z) eq_refl).
Qed.

Lemma record_well_formed record_id text :
  forallb scalar record_id = true -> forallb scalar text = true ->
  well_formed
    (Collector.model_input record_id
       (Collector.request_body (Collector.instruction ++ text))) = true.
Proof.
  intros Hid Htext.
  unfold Collector.model_input, Collector.request_body.
  cbn [well_formed forallb fst snd].
  rewrite forallb_app, Hid, Htext, andb_true_r. reflexivity.
Qed.

Lemma for_each_object_well_formed s3 now bucket_name objs :
  forall i acc batch,
    Forall (fun v => well_formed v = true) acc ->
    Collector.for_each_object s3 now bucket_name i objs acc = inr batch ->
    Forall (fun v => well_formed v = true) batch.
Proof.
  induction objs as [|obj objs IH]; intros i acc batch Hacc Hrun;
    simpl in Hrun.
  - now inversion Hrun; subst.
  - destruct (get_object s3 bucket_name (Key obj)) as [e|body];
      [discriminate|]. simpl in Hrun.
    destruct (decode_utf8 body) as [e|text] eqn:Hdec; [discriminate|].
    simpl in Hrun. apply (IH _ _ _) in Hrun; [exact Hrun|].
    apply Forall_app. split; [exact Hacc|]. constructor; [|constructor].
    apply record_well_formed; [apply str_of_int_scalar|].
    now apply decode_utf8_scalar with body.
Qed.

Lemma batch_well_formed s3 now bucket_name prefix batch :
  Collector.prepare_model_inputs s3 now bucket_name prefix = inr batch ->
  Forall (fun v => well_formed v = true) batch.
Proof.
  unfold Collector.prepare_model_inputs.
  destruct (list_objects_v2 s3 bucket_name prefix) as [e|response];
    [discriminate|]. simpl.
  apply for_each_object_well_formed. constructor.
Qed.

End BatchFacts.

(** *** The fuel of [loads] is enough *)

Section FuelFacts.

Import Json.

Lemma skip_whitespace_length s :
  List.length (skip_whitespace s) <= List.length s.
Proof.
  induction s as [|c s IH]; simpl; [lia|].
  destruct (is_whitespace c); simpl; lia.
Qed.

Lemma cons_char_some c x str r :
  cons_char c x = Some (str, r) ->
  exists str', x = Some (str', r) /\ str = c :: str'.
Proof.
  destruct x as [[str' r']|]; simpl; [|discriminate].
  intros H. inversion H; subst. now exists str'.
Qed.

Lemma scan_string_shorter n : forall s str r,
  List.length s <= n -> scan_string s = Some (str, r) ->
  List.length r < List.length s.
Proof.
  induction n as [|n IH]; intros s str r Hlen H.
  - destruct s; [discriminate|simpl in Hlen; lia].
  - assert (Hrec : forall c s' str0,
               cons_char c (scan_string s') = Some (str0, r) ->
               List.length s' <= n -> List.length r < List.length s').
    { intros c s' str0 Hc Hs'.
      apply cons_char_some in Hc as (str' & Hc & _). eauto. }
    destruct s as [|c s]; [discriminate|]. cbn [scan_string] in H.
    cbn [List.length] in *.
    destruct (c =? QUOTE)%N; [inversion H; subst; lia|].
    destruct (c =? BACKSLASH)%N.
    + destruct s as [|esc r1]; [discriminate|]. cbn [List.length] in *.
      destruct (esc =? LETTER_u)%N.
      * destruct r1 as [|h1 [|h2 [|h3 [|h4 r5]]]]; try discriminate.
        cbn [List.length] in *.
        destruct (decode_hex4 h1 h2 h3 h4) as [uni|]; [|discriminate].
        destruct (between 55296 uni 56319).
        -- destruct r5 as [|b [|u r7]];
             try (apply Hrec in H; cbn [List.length] in *; lia).
           destruct ((b =? BACKSLASH)%N && (u =? LETTER_u)%N).
           ++ destruct r7 as [|l1 [|l2 [|l3 [|l4 r11]]]]; try discriminate.
              destruct (decode_hex4 l1 l2 l3 l4) as [uni2|]; [|discriminate].
              cbn [List.length] in *.
              destruct (between 56320 uni2 57343);
                apply Hrec in H; cbn [List.length] in *; lia.
           ++ apply Hrec in H; cbn [List.length] in *; lia.
        -- apply Hrec in H; lia.
      * destruct (unescape esc) as [ch|]; [|discriminate].
        apply Hrec in H; lia.
    + destruct (c <? 32)%N; [discriminate|].
      apply Hrec in H; lia.
Qed.

Lemma strip_prefix_length word : forall s r,
  strip_prefix word s = Some r ->
  List.length s = List.length word + List.length r.
Proof.
  induction word as [|w word IH]; intros s r H; simpl in H.
  - now inversion H.
  - destruct s as [|c s]; [discriminate|].
    destruct (w =? c)%N; [|discriminate]. simpl. now rewrite (IH s r H).
Qed.

Lemma scan_atom_shorter s v r :
  scan_atom s = Some (v, r) -> List.length r < List.length s.
Proof.
  unfold scan_atom.
  repeat match goal with
         | |- match strip_prefix ?w s with _ => _ end = _ -> _ =>
             let E := fresh "E" in
             destruct (strip_prefix w s) eqn:E;
             [intros H; inversion H; subst;
              apply strip_prefix_length in E; rewrite E; simpl; lia|]
         | |- match match_number s with _ => _ end = _ -> _ =>
             let E := fresh "E" in
             destruct (match_number s) as [[v' r']|] eqn:E;
             [intros H; inversion H; subst;
              destruct (match_number_spec _ _ _ E)
                as (text & -> & _ & (c & t & -> & _) & _);
              rewrite length_app; simpl; lia|]
         end.
  discriminate.
Qed.

Lemma parse_members_S' fuel c r :
  parse_members (S fuel) (c :: r) =
  if (c =? QUOTE)%N then parse_members (S fuel) (QUOTE :: r) else None.
Proof.
  destruct (c =? QUOTE)%N eqn:Hc; [|cbn [parse_members]; now rewrite Hc].
  apply N.eqb_eq in Hc. now subst.
Qed.

Lemma scanners_settled fuel :
  settled scan_once fuel /\ settled parse_items fuel
  /\ settled parse_members fuel.
Proof.
  induction fuel as [|fuel (IHo & IHi & IHm)];
    [repeat split; discriminate|].
  split; [|split]; intros s a r H.
  - destruct s as [|c s]; [discriminate|]. rewrite scan_once_S in H.
    cbn [List.length].
    assert (Hfree : forall x,
               x = Some (a, r) -> List.length r <= List.length s ->
               (forall f, scan_once (S f) (c :: s) = x) ->
               List.length r < S (List.length s) /\
               forall fuel', S (List.length s) - List.length r <= fuel' ->
                             scan_once fuel' (c :: s) = Some (a, r)).
    { intros x Hx Hlt Hall. split; [lia|]. intros [|f'] Hf'; [lia|].
      now rewrite Hall. }
    destruct (c =? QUOTE)%N eqn:HQ.
    { destruct (scan_string s) as [[str rest]|] eqn:Hs; [|discriminate].
      inversion H; subst. apply (Hfree (Some (PStr str, r)) eq_refl).
      - pose proof (scan_string_shorter _ _ _ _ (le_n _) Hs). lia.
      - intros f. now rewrite scan_once_S, HQ, Hs. }
    destruct (c =? LBRACE)%N eqn:HB.
    { pose proof (skip_whitespace_length s) as Hws.
      destruct (skip_whitespace s) as [|c' r'] eqn:Hsk; [discriminate|].
      cbn [List.length] in Hws.
      destruct (c' =? RBRACE)%N eqn:HR.
      - inversion H; subst. apply (Hfree (Some (PDict [], r)) eq_refl);
          [lia|]. intros f. now rewrite scan_once_S, HQ, HB, Hsk, HR.
      - destruct (parse_members fuel (c' :: r')) as [[pairs rest]|] eqn:Hp;
          [|discriminate].
        inversion H; subst. destruct (IHm _ _ _ Hp) as [Hlt Hok].
        cbn [List.length] in *. split; [lia|].
        intros [|f'] Hf'; [lia|].
        rewrite scan_once_S, HQ, HB, Hsk, HR, Hok by (cbn [List.length]; lia).
        reflexivity. }
    destruct (c =? LBRACKET)%N eqn:HK.
    { pose proof (skip_whitespace_length s) as Hws.
      destruct (skip_whitespace s) as [|c' r'] eqn:Hsk; [discriminate|].
      cbn [List.length] in Hws.
      destruct (c' =? RBRACKET)%N eqn:HR.
      - inversion H; subst. apply (Hfree (Some (PList [], r)) eq_refl);
          [lia|]. intros f. now rewrite scan_once_S, HQ, HB, HK, Hsk, HR.
      - destruct (parse_items fuel (c' :: r')) as [[items rest]|] eqn:Hp;
          [|discriminate].
        inversion H; subst. destruct (IHi _ _ _ Hp) as [Hlt Hok].
        cbn [List.length] in *. split; [lia|].
        intros [|f'] Hf'; [lia|].
        rewrite scan_once_S, HQ, HB, HK, Hsk, HR, Hok
          by (cbn [List.length]; lia).
        reflexivity. }
    apply (Hfree (scan_atom (c :: s)) H).
    + apply scan_atom_shorter in H. cbn [List.length] in H. lia.
    + intros f. now rewrite scan_once_S, HQ, HB, HK.
  - rewrite parse_items_S in H.
    destruct (scan_once fuel s) as [[value r1]|] eqn:Hv; [|discriminate].
    destruct (IHo _ _ _ Hv) as [Hlt1 Hok1].
    pose proof (skip_whitespace_length r1) as Hws.
    destruct (skip_whitespace r1) as [|c r'] eqn:Hsk; [discriminate|].
    cbn [List.length] in Hws.
    destruct (c =? RBRACKET)%N eqn:HR.
    + inversion H; subst. split; [lia|]. intros [|f'] Hf'; [lia|].
      rewrite parse_items_S, Hok1, Hsk, HR by lia. reflexivity.
    + destruct (c =? COMMA)%N eqn:HC; [|discriminate].
      destruct (parse_items fuel (skip_whitespace r')) as [[items rest]|]
        eqn:Hp; [|discriminate].
      inversion H; subst. destruct (IHi _ _ _ Hp) as [Hlt Hok].
      pose proof (skip_whitespace_length r') as Hws'.
      split; [lia|]. intros [|f'] Hf'; [lia|].
      rewrite parse_items_S, Hok1, Hsk, HR, HC, Hok by lia. reflexivity.
  - destruct s as [|c s]; [discriminate|]. rewrite parse_members_S' in H.
    destruct (c =? QUOTE)%N eqn:HQ; [|discriminate].
    apply N.eqb_eq in HQ. subst c. rewrite parse_members_S in H.
    cbn [List.length].
    destruct (scan_string s) as [[key r1]|] eqn:Hs; [|discriminate].
    pose proof (scan_string_shorter _ _ _ _ (le_n _) Hs) as Hlt0.
    pose proof (skip_whitespace_length r1) as Hws1.
    destruct (skip_whitespace r1) as [|c1 r2] eqn:Hsk1; [discriminate|].
    cbn [List.length] in Hws1.
    destruct (c1 =? COLON)%N eqn:HC1; [|discriminate].
    destruct (scan_once fuel (skip_whitespace r2)) as [[value r3]|] eqn:Hv;
      [|discriminate].
    destruct (IHo _ _ _ Hv) as [Hlt3 Hok3].
    pose proof (skip_whitespace_length r2) as Hws2.
    pose proof (skip_whitespace_length r3) as Hws3.
    destruct (skip_whitespace r3) as [|c3 r4] eqn:Hsk3; [discriminate|].
    cbn [List.length] in Hws3.
    destruct (c3 =? RBRACE)%N eqn:HR.
    + inversion H; subst. split; [lia|]. intros [|f'] Hf'; [lia|].
      rewrite parse_members_S, Hs, Hsk1, HC1, Hok3, Hsk3, HR by lia.
      reflexivity.
    + destruct (c3 =? COMMA)%N eqn:HC3; [|discriminate].
      destruct (parse_members fuel (skip_whitespace r4)) as [[pairs rest]|]
        eqn:Hp; [|discriminate].
      inversion H; subst. destruct (IHm _ _ _ Hp) as [Hlt Hok].
      pose proof (skip_whitespace_length r4) as Hws4.
      split; [lia|]. intros [|f'] Hf'; [lia|].
      rewrite parse_members_S, Hs, Hsk1, HC1, Hok3, Hsk3, HR, HC3, Hok by lia.
      reflexivity.
Qed.

(** Whatever a deeper scanner reads, [loads] reads: its fuel never cuts a
    scan short. *)
Theorem loads_fuel_enough fuel s v rest :
  scan_once fuel (skip_whitespace s) = Some (v, rest) ->
  scan_once (S (List.length s)) (skip_whitespace s) = Some (v, rest).
Proof.
  intros H. destruct (scanners_settled fuel) as (Ho & _ & _).
  destruct (Ho _ _ _ H) as [_ Hok]. apply Hok.
  pose proof (skip_whitespace_length s). lia.
Qed.

End FuelFacts.

(** C4. A well-formed record (strings of Unicode scalar values, finite
    floats) written by [json.dumps] is read back by [json.loads] as the
    same record, with or without the line break that [write_jsonl] puts
    after it; the file [write_jsonl] writes for a list of such records
    splits into as many lines as there are records, and decoding the
    lines gives the records back in order; and every record of a batch
    returned by [prepare_model_inputs] is well formed. *)
Theorem C4_jsonl_round_trip :
  (forall record : pyval,
      Json.well_formed record = true ->
      Json.loads (Json.dumps record) = inr record /\
      Json.loads (Json.dumps record ++ [Collector.NEWLINE]) = inr record) /\
  (forall (data : list pyval) (fs : Writer.files) (file_path : pystr),
      Forall (fun record => Json.well_formed record = true) data ->
      exists text,
        Writer.write_jsonl data file_path fs file_path = Some text /\
        map Json.loads (splitlines text) = map inr data /\
        List.length (splitlines text) = List.length data) /\
  (forall (s3 : s3_client) (now : nat -> Z) (bucket_name prefix : pystr)
          (batch : list pyval),
      Collector.prepare_model_inputs s3 now bucket_name prefix = inr batch ->
      Forall (fun record => Json.well_formed record = true) batch).
Proof.
  split; [|split].
  - intros record Hwf. split; [now apply loads_dumps|now apply loads_dumps_line].
  - intros data fs file_path Hwf. exists (Writer.written data).
    split; [|split].
    + unfold Writer.write_jsonl, Writer.store. now rewrite pystr_eqb_refl.
    + rewrite (splitlines_written data Hwf), map_map.
      apply map_ext_in. intros record Hin. apply loads_dumps.
      rewrite Forall_forall in Hwf. now apply Hwf.
    + now rewrite (splitlines_written data Hwf), length_map.
  - intros s3 now bucket_name prefix batch. apply batch_well_formed.
Qed.

Lemma C4_jsonl_round_trip_witness :
  exists text,
    Writer.write_jsonl sample_batch (py "batch-1700000000.jsonl")
                       (fun _ => None) (py "batch-1700000000.jsonl")
    = Some text /\
    map Json.loads (splitlines text) = map inr sample_batch /\
    List.length (splitlines text) = 2.
Proof.
  apply (proj1 (proj2 C4_jsonl_round_trip) sample_batch).
  repeat constructor.
Defined.

(** * Further properties *)

(** ** The job poller: when and how the loop ends *)

Section PollerEnds.

Import Poller.

Variable svc : service.

Lemma map_const_repeat {A B} (c : B) (l : list A) :
  map (fun _ => c) l = repeat c (List.length l).
Proof. induction l as [|x l IH]; simpl; [reflexivity|now rewrite IH]. Qed.

(** [k] answers with a non-terminal status take the loop through [k]
    iterations, each with its suspension. *)
Lemma while_skip k : forall st,
  terminal (status_var st) = false ->
  (forall j, j < k -> exists job,
       svc (calls st + j) = inr job /\ terminal (status job) = false) ->
  exists st',
    (forall fuel, while (k + fuel) svc st = while fuel svc st') /\
    calls st' = calls st + k /\
    sleeps (trace st') = sleeps (trace st) ++ repeat 300%Z k /\
    terminal (status_var st') = false.
Proof.
  induction k as [|k IH]; intros st Hst Hbefore.
  - exists st. rewrite Nat.add_0_r, app_nil_r. auto.
  - destruct (Hbefore 0 ltac:(lia)) as (job0 & Hj0 & Hnt0).
    rewrite Nat.add_0_r in Hj0.
    pose proof Hnt0 as Hnt0'. unfold terminal in Hnt0'.
    apply orb_false_iff in Hnt0' as [HC HF].
    destruct (IH (State (status job0) (S (calls st))
                    ((trace st ++ [Observed (status job0)])
                     ++ [PrintedStatus (status job0); Slept 300])))
      as (st' & Hw & Hc & Hs & Ht).
    + exact Hnt0.
    + intros j Hj. simpl. destruct (Hbefore (S j) ltac:(lia)) as (job' & Hj' & Hnt').
      exists job'. split; [|exact Hnt'].
      now replace (S (calls st + j)) with (calls st + S j) by lia.
    + exists st'. split; [|split; [|split]].
      * intros fuel. cbn [Nat.add while]. rewrite Hst. unfold body.
        rewrite Hj0, HF, HC. apply Hw.
      * rewrite Hc. simpl. lia.
      * rewrite Hs. simpl. rewrite !sleeps_app. simpl.
        rewrite app_nil_r, <- app_assoc. reflexivity.
      * exact Ht.
Qed.

End PollerEnds.

(** X1. When the answers to the first [k] status queries are non-terminal
    and the next one is ['Completed'] or ['Failed'], the loop ends at that
    query: it has made [k + 1] queries, slept [k] times 300 seconds, and
    [status] holds the terminal status. *)
Theorem X1_poller_stops_at_first_terminal :
  forall (svc : Poller.service) (k fuel : nat) (job : Poller.job_response),
    (forall j, j < k -> exists job',
         svc j = inr job' /\ Poller.terminal (Poller.status job') = false) ->
    svc k = inr job ->
    Poller.terminal (Poller.status job) = true ->
    k < fuel ->
    exists st,
      Poller.poll fuel svc = Poller.Exited st /\
      Poller.status_var st = Poller.status job /\
      Poller.calls st = S k /\
      Poller.sleeps (Poller.trace st) = repeat 300%Z k.
Proof.
  intros svc k fuel job Hbefore Hk Hterm Hfuel.
  destruct (while_skip svc k Poller.init eq_refl Hbefore)
    as (st' & Hw & Hc & Hs & Ht).
  simpl in Hc, Hs. unfold Poller.poll.
  replace fuel with (k + S (fuel - S k)) by lia. rewrite Hw.
  cbn [Poller.while]. rewrite Ht. unfold Poller.body. rewrite Hc, Hk.
  pose proof Hterm as Hterm'. unfold Poller.terminal in Hterm'.
  destruct (pystr_eqb (Poller.status job) Poller.Failed) eqn:HF.
  - rewrite while_terminal by exact Hterm.
    eexists. split; [reflexivity|]. simpl. repeat split.
    rewrite !sleeps_app, Hs. simpl. now rewrite !app_nil_r.
  - rewrite orb_false_r in Hterm'. rewrite Hterm'.
    eexists. split; [reflexivity|]. simpl. repeat split.
    rewrite !sleeps_app, Hs. simpl. now rewrite !app_nil_r.
Qed.

Lemma X1_poller_stops_at_first_terminal_witness :
  exists st,
    Poller.poll 3 svc_completes = Poller.Exited st /\
    Poller.status_var st = Poller.Completed /\
    Poller.calls st = 3 /\
    Poller.sleeps (Poller.trace st) = [300; 300]%Z.
Proof.
  apply (X1_poller_stops_at_first_terminal svc_completes 2 3
           (Poller.JobResponse Poller.Completed [])).
  - intros [|[|j]] Hj; [eexists; split; reflexivity..|lia].
  - reflexivity.
  - reflexivity.
  - lia.
Defined.

(** X2. When a status query raises after [k] non-terminal answers, the
    exception leaves the cell at once: the loop neither retries nor
    sleeps again, and [status] keeps the last status observed. *)
Theorem X2_poller_query_error_aborts :
  forall (svc : Poller.service) (k fuel : nat) (e : exn),
    (forall j, j < k -> exists job',
         svc j = inr job' /\ Poller.terminal (Poller.status job') = false) ->
    svc k = inl e ->
    k < fuel ->
    exists st,
      Poller.poll fuel svc = Poller.Aborted e st /\
      Poller.calls st = S k /\
      Poller.sleeps (Poller.trace st) = repeat 300%Z k /\
      Poller.terminal (Poller.status_var st) = false.
Proof.
  intros svc k fuel e Hbefore Hk Hfuel.
  destruct (while_skip svc k Poller.init eq_refl Hbefore)
    as (st' & Hw & Hc & Hs & Ht).
  simpl in Hc, Hs. unfold Poller.poll.
  replace fuel with (k + S (fuel - S k)) by lia. rewrite Hw.
  cbn [Poller.while]. rewrite Ht. unfold Poller.body. rewrite Hc, Hk.
  eexists. split; [reflexivity|]. simpl. auto.
Qed.

Lemma X2_poller_query_error_aborts_witness :
  exists st,
    Poller.poll 5 svc_throttled
    = Poller.Aborted (Exn (py "ThrottlingException") (py "Rate exceeded")) st /\
    Poller.calls st = 2 /\
    Poller.sleeps (Poller.trace st) = [300]%Z /\
    Poller.terminal (Poller.status_var st) = false.
Proof.
  apply (X2_poller_query_error_aborts svc_throttled 1 5).
  - intros [|j] Hj; [eexists; split; reflexivity|lia].
  - reflexivity.
  - lia.
Defined.

(** ** The input collector: identifiers, and the file of a batch *)

Section CollectorMore.

Import Collector.

Variable s3 : s3_client.
Variable now : nat -> Z.
Variable bucket_name : pystr.

(** A batch that was returned is the records of the texts read. *)
Lemma for_each_object_inv objs : forall i acc batch,
  for_each_object s3 now bucket_name i objs acc = inr batch ->
  exists texts,
    Forall2 (fun obj text => read_object s3 bucket_name obj = inr text)
            objs texts /\
    batch = acc ++ records_from now i texts.
Proof.
  induction objs as [|obj objs IH]; intros i acc batch Hrun; simpl in Hrun.
  - inversion Hrun; subst. exists []. split; [constructor|].
    now rewrite app_nil_r.
  - destruct (get_object s3 bucket_name (Key obj)) as [e|body] eqn:Hget;
      [discriminate|]. simpl in Hrun.
    destruct (decode_utf8 body) as [e|text] eqn:Hdec; [discriminate|].
    simpl in Hrun. destruct (IH _ _ _ Hrun) as (texts & Hall & ->).
    exists (text :: texts). split.
    + constructor; [|exact Hall]. unfold read_object. rewrite Hget. exact Hdec.
    + now rewrite <- app_assoc.
Qed.

Lemma records_from_ids texts : forall i,
  map record_id_of (records_from now i texts)
  = map (fun j => Some (PStr (str_of_int (int_timestamp (now j)))))
        (seq i (List.length texts)).
Proof.
  induction texts as [|t texts IH]; intros i; [reflexivity|].
  simpl. now rewrite IH.
Qed.

End CollectorMore.

Lemma str_of_int_injective a b : str_of_int a = str_of_int b -> a = b.
Proof.
  intros H. rewrite <- (int_of_text_str_of_int a), H.
  apply int_of_text_str_of_int.
Qed.

Lemma NoDup_map_injective {A B} (f : A -> B) (l : list A) :
  (forall a b, f a = f b -> a = b) -> NoDup (map f l) <-> NoDup l.
Proof.
  intros Hinj. split; [apply NoDup_map_inv|].
  induction 1 as [|x l Hx _ IH]; simpl; constructor; [|exact IH].
  intros Hin. apply in_map_iff in Hin as (y & Hy & Hin).
  apply Hinj in Hy. now subst.
Qed.

(** X3. The record identifiers of a batch are pairwise distinct exactly
    when the clock readings taken for its objects fall in pairwise
    distinct seconds. *)
Theorem X3_record_ids_distinct_iff_seconds_distinct :
  forall (s3 : s3_client) (now : nat -> Z) (bucket_name prefix : pystr)
         (batch : list pyval),
    Collector.prepare_model_inputs s3 now bucket_name prefix = inr batch ->
    (NoDup (map Collector.record_id_of batch) <->
     NoDup (map (fun i => Collector.int_timestamp (now i))
                (seq 0 (List.length batch)))).
Proof.
  intros s3 now bucket_name prefix batch Hrun.
  unfold Collector.prepare_model_inputs in Hrun.
  destruct (list_objects_v2 s3 bucket_name prefix) as [e|response];
    [discriminate|]. simpl in Hrun.
  destruct (for_each_object_inv s3 now bucket_name _ _ _ _ Hrun)
    as (texts & _ & ->).
  simpl. rewrite records_from_ids, records_from_length.
  rewrite <- (map_map (fun i => Collector.int_timestamp (now i))
                      (fun z => Some (PStr (str_of_int z)))).
  apply NoDup_map_injective. intros a b Heq. inversion Heq.
  now apply str_of_int_injective.
Qed.

Lemma X3_record_ids_distinct_iff_seconds_distinct_witness :
  ~ NoDup (map (fun i => Collector.int_timestamp (clock_fast i)) (seq 0 2)).
Proof.
  intros Hsec.
  destruct (X3_record_ids_distinct_iff_seconds_distinct
              s3_two clock_fast (py "bucket") (py "raw/")
              (Collector.records_from clock_fast 0 [py "Hello"; py "World"])
              eq_refl) as [_ Hback].
  specialize (Hback Hsec). inversion Hback as [|? ? Hnotin _]; subst.
  apply Hnotin. now left.
Defined.

(** X4. When every object listed under the prefix can be read, the file
    that [write_jsonl] writes for the batch has one line per object, in
    listing order, whatever the texts hold; the [i]-th line decodes to a
    record whose identifier is the second of the [i]-th clock reading
    and whose prompt is the instruction followed by the [i]-th text. *)
Theorem X4_one_line_per_object :
  forall (s3 : s3_client) (now : nat -> Z) (bucket_name prefix : pystr)
         (response : list_response) (texts : list pystr)
         (fs : Writer.files) (file_path : pystr),
    list_objects_v2 s3 bucket_name prefix = inr response ->
    Forall2 (fun obj text =>
               bind (get_object s3 bucket_name (Key obj)) decode_utf8
               = inr text)
            (Collector.contents_or_empty response) texts ->
    exists batch text,
      Collector.prepare_model_inputs s3 now bucket_name prefix = inr batch /\
      Writer.write_jsonl batch file_path fs file_path = Some text /\
      List.length (splitlines text)
      = List.length (Collector.contents_or_empty response) /\
      forall i t,
        nth_error texts i = Some t ->
        exists line record,
          nth_error (splitlines text) i = Some line /\
          Json.loads line = inr record /\
          lookup record [K "recordId"]
          = inr (PStr (str_of_int (Collector.int_timestamp (now i)))) /\
          bind (getitem record (py "modelInput")) Collector.prompt_of
          = inr (PStr (Collector.instruction ++ t)).
Proof.
  intros s3 now bucket_name prefix response texts fs file_path Hlist Hall.
  assert (Hrun : Collector.prepare_model_inputs s3 now bucket_name prefix
                 = inr (Collector.records_from now 0 texts)).
  { unfold Collector.prepare_model_inputs. rewrite Hlist. simpl.
    now rewrite (@for_each_object_ok s3 now bucket_name _ texts 0 [] Hall). }
  pose proof (batch_well_formed _ _ _ _ _ Hrun) as Hwf.
  exists (Collector.records_from now 0 texts),
         (Writer.written (Collector.records_from now 0 texts)).
  split; [exact Hrun|]. split.
  { unfold Writer.write_jsonl, Writer.store. now rewrite pystr_eqb_refl. }
  rewrite (splitlines_written _ Hwf), length_map, records_from_length.
  split; [symmetry; exact (Forall2_length Hall)|].
  intros i t Hi.
  exists (Json.dumps (Collector.record_for now i t)),
         (Collector.record_for now i t).
  split; [|split; [|split]].
  - rewrite nth_error_map, (@records_from_nth now texts 0 i t Hi). reflexivity.
  - apply loads_dumps. rewrite Forall_forall in Hwf. apply Hwf.
    apply nth_error_In with i. exact (@records_from_nth now texts 0 i t Hi).
  - reflexivity.
  - reflexivity.
Qed.

Lemma X4_one_line_per_object_witness :
  exists batch text,
    Collector.prepare_model_inputs s3_two clock_fast (py "bucket") (py "raw/")
    = inr batch /\
    Writer.write_jsonl batch (py "batch.jsonl") (fun _ => None)
                       (py "batch.jsonl") = Some text /\
    List.length (splitlines text) = 2 /\
    forall i t,
      nth_error [py "Hello"; py "World"] i = Some t ->
      exists line record,
        nth_error (splitlines text) i = Some line /\
        Json.loads line = inr record /\
        lookup record [K "recordId"]
        = inr (PStr (str_of_int (Collector.int_timestamp (clock_fast i)))) /\
        bind (getitem record (py "modelInput")) Collector.prompt_of
        = inr (PStr (Collector.instruction ++ t)).
Proof.
  apply (X4_one_line_per_object s3_two clock_fast (py "bucket") (py "raw/")
           (ListResponse (Some [S3Object (py "raw/a.txt");
                                S3Object (py "raw/b.txt")]))
           [py "Hello"; py "World"]).
  - reflexivity.
  - repeat constructor.
Defined.

(** ** The result retriever: which lines it accepts, and how the cell ends *)

Section RetrieverMore.

Import Retriever.

Ltac split_reads :=
  repeat match goal with
         | E : match ?x with _ => _ end = inr _ |- _ =>
             let G := fresh "G" in destruct x eqn:G; [discriminate E|]
         end.

(** When every path the cell reads is there, the entry is built. *)
Lemma output_entry_of_total data :
  Forall (fun ft => exists x, lookup data (fst ft) = inr x) fields ->
  exists entry, output_entry_of data = inr entry.
Proof.
  unfold fields. intros H.
  repeat match goal with
         | H : Forall _ (_ :: _) |- _ =>
             let Hx := fresh "Hx" in
             let x := fresh "x" in
             inversion H as [|? ? [x Hx] H']; subst; clear H;
             cbn [fst lookup] in Hx; unfold bind in Hx; rename H' into H
         end.
  split_reads. unfold output_entry_of, bind.
  repeat match goal with
         | G : ?y = inr _ |- context [?y] => rewrite G
         end.
  eexists. reflexivity.
Qed.

(** [output_entry] is bound exactly when [output_data] is not empty. *)
Lemma for_each_line_bound lines : forall vs failure vs',
  (output_entry vs = None <-> output_data vs = []) ->
  for_each_line lines vs = (failure, vs') ->
  (output_entry vs' = None <-> output_data vs' = []).
Proof.
  induction lines as [|line lines IH]; intros vs failure vs' Hvs Hrun;
    simpl in Hrun.
  - now inversion Hrun; subst.
  - destruct (entry_of_line line) as [e|entry]; [now inversion Hrun; subst|].
    apply IH in Hrun; [exact Hrun|]. simpl. split; [discriminate|].
    intros H. now apply app_eq_nil in H as [_ H].
Qed.

End RetrieverMore.

(** X5. A decoded line of the output file gives an Output Record exactly
    when it has a value under each of the eleven paths the cell reads
    ([recordId], the text of the first content part, the two token
    counts, the model, the stop reason and the four generation
    parameters); any other line raises. *)
Theorem X5_line_accepted_iff_fields_present :
  forall data : pyval,
    (exists entry, Retriever.output_entry_of data = inr entry) <->
    Forall (fun ft => exists x, lookup data (fst ft) = inr x)
           Retriever.fields.
Proof.
  intros data. split.
  - intros [entry Hentry]. pose proof (@output_entry_carries data entry Hentry) as Hc.
    unfold Retriever.carries in Hc. rewrite Forall_forall in *.
    intros ft Hft. destruct (Hc ft Hft) as (x & Hx & _). now exists x.
  - apply output_entry_of_total.
Qed.

(** X6. In a fresh kernel the retrieval cell ends with
    [NameError: output_entry] exactly when no Output Record was produced:
    the last statement prints a variable that only the loop binds.  This
    is what happens when the download fails, after the error has been
    printed. *)
Theorem X6_retrieval_ends_with_name_error :
  forall (s3 : s3_client)
         (bucket_name model_input_summary_prefix output_prefix : pystr)
         (job_id filename : pystr),
    let out :=
      Retriever.retrieve s3 bucket_name model_input_summary_prefix
                         output_prefix job_id filename None in
    (Retriever.raised out = Some (NameError (py "output_entry")) <->
     Retriever.output_data (Retriever.final out) = []) /\
    (Retriever.raised out = None <->
     Retriever.output_data (Retriever.final out) <> []) /\
    (forall e,
        get_object s3 bucket_name
          (Retriever.object_key model_input_summary_prefix output_prefix
                                job_id filename) = inl e ->
        Retriever.raised out = Some (NameError (py "output_entry")) /\
        Retriever.events out
        = [ Retriever.Requested bucket_name
              (Retriever.object_key model_input_summary_prefix output_prefix
                                    job_id filename);
            Retriever.PrintedError e;
            Retriever.PrintedSampleHeader ]).
Proof.
  intros s3 bucket_name msp op job_id filename out.
  assert (Hbound : forall failure vs,
             Retriever.try_block s3 bucket_name msp op job_id filename None
             = (failure, vs) ->
             (Retriever.output_entry vs = None
              <-> Retriever.output_data vs = [])).
  { intros failure vs Htry. unfold Retriever.try_block in Htry.
    destruct (get_object s3 bucket_name _) as [e|body];
      [now inversion Htry; subst|].
    destruct (decode_utf8 body) as [e|text]; [now inversion Htry; subst|].
    eapply for_each_line_bound; [|exact Htry]. now split. }
  subst out. unfold Retriever.retrieve.
  destruct (Retriever.try_block s3 bucket_name msp op job_id filename None)
    as [failure vs] eqn:Htry.
  specialize (Hbound failure vs eq_refl).
  split; [|split].
  - destruct (Retriever.output_entry vs) as [entry|] eqn:Hentry; simpl.
    + split; [discriminate|]. intros H. apply Hbound in H. discriminate.
    + split; [intros _; now apply Hbound|reflexivity].
  - destruct (Retriever.output_entry vs) as [entry|] eqn:Hentry; simpl.
    + split; [|reflexivity]. intros _ H. apply Hbound in H. discriminate.
    + split; [discriminate|]. intros H. elim H. now apply Hbound.
  - intros e Hget. unfold Retriever.try_block in Htry. rewrite Hget in Htry.
    inversion Htry; subst. simpl. split; reflexivity.
Qed.

Lemma X6_retrieval_ends_with_name_error_witness :
  let out :=
    Retriever.retrieve s3_down (py "bucket") (py "in") (py "out")
                       (py "job123") (py "batch-1700000000.jsonl") None in
  Retriever.raised out = Some (NameError (py "output_entry")) /\
  Retriever.events out
  = [ Retriever.Requested (py "bucket")
        (py "in/out/job123/batch-1700000000.jsonl.out");
      Retriever.PrintedError (Exn (py "EndpointConnectionError") []);
      Retriever.PrintedSampleHeader ].
Proof.
  intros out.
  destruct (X6_retrieval_ends_with_name_error
              s3_down (py "bucket") (py "in") (py "out") (py "job123")
              (py "batch-1700000000.jsonl")) as (_ & _ & Hfail).
  exact (Hfail (Exn (py "EndpointConnectionError") []) eq_refl).
Defined.

Section CellFacts.

Import Cells.

Lemma split_from_no_sep sep a : forall part,
  ~ In sep a -> split_from sep part a = [rev part ++ a].
Proof.
  induction a as [|c a IH]; intros part Hno; simpl.
  - now rewrite app_nil_r.
  - destruct (N.eqb_spec c sep) as [->|Hc].
    + exfalso. apply Hno. now left.
    + rewrite IH; [|intros Hin; apply Hno; now right].
      simpl. now rewrite <- app_assoc.
Qed.

Lemma split_from_sep sep a r : forall part,
  ~ In sep a ->
  split_from sep part (a ++ sep :: r)
  = (rev part ++ a) :: split_from sep [] r.
Proof.
  induction a as [|c a IH]; intros part Hno; simpl.
  - now rewrite N.eqb_refl, app_nil_r.
  - destruct (N.eqb_spec c sep) as [->|Hc].
    + exfalso. apply Hno. now left.
    + rewrite IH; [|intros Hin; apply Hno; now right].
      simpl. now rewrite <- app_assoc.
Qed.

Lemma split_from_cons sep s : forall part,
  exists p ps, split_from sep part s = p :: ps.
Proof.
  induction s as [|c s IH]; intros part; simpl.
  - now eexists _, _.
  - destruct (c =? sep)%N; [now eexists _, _|apply IH].
Qed.

Lemma split_from_last sep s : forall part,
  ~ In sep part ->
  exists front,
    rev part ++ s = front ++ last (split_from sep part s) [] /\
    ~ In sep (last (split_from sep part s) []) /\
    (front = [] \/ exists f, front = f ++ [sep]).
Proof.
  induction s as [|c s IH]; intros part Hpart.
  - exists []. simpl. rewrite app_nil_r. split; [reflexivity|].
    split; [|now left]. now rewrite <- in_rev.
  - simpl split_from. destruct (N.eqb_spec c sep) as [->|Hc].
    + destruct (IH [] (fun H => H)) as (front & Hs & Hno & Hfront).
      destruct (split_from_cons sep s []) as (p & ps & Hsplit).
      rewrite Hsplit in *. cbn [last].
      simpl in Hs. exists (rev part ++ sep :: front).
      split; [rewrite <- app_assoc; simpl; now rewrite <- Hs|].
      split; [exact Hno|]. right.
      destruct Hfront as [->|(f & ->)].
      * now exists (rev part).
      * exists (rev part ++ sep :: f). now rewrite <- app_assoc.
    + destruct (IH (c :: part)) as (front & Hs & Hno & Hfront).
      { intros [Heq|Hin]; [now apply Hc|now apply Hpart]. }
      exists front. simpl in Hs. rewrite <- app_assoc in Hs.
      now repeat split.
Qed.

Lemma rfind_absent c p : ~ In c p -> rfind c p = (-1)%Z.
Proof.
  induction p as [|x p IH]; intros Hno; [reflexivity|].
  simpl. rewrite IH; [|intros Hin; apply Hno; now right].
  simpl. destruct (N.eqb_spec x c) as [->|_]; [|reflexivity].
  exfalso. apply Hno. now left.
Qed.

Lemma rfind_last c a b :
  ~ In c b -> rfind c (a ++ c :: b) = Z.of_nat (List.length a).
Proof.
  intros Hno. induction a as [|x a IH].
  - simpl. rewrite (rfind_absent _ _ Hno). simpl.
    now rewrite N.eqb_refl.
  - cbn [app rfind List.length]. rewrite IH.
    destruct (Z.leb_spec 0 (Z.of_nat (List.length a))); lia.
Qed.

Lemma posix_basename_after_slash a b :
  ~ In SLASH b -> posix_basename (a ++ SLASH :: b) = b.
Proof.
  intros Hno. unfold posix_basename. rewrite (rfind_last _ _ _ Hno).
  replace (Z.to_nat (Z.of_nat (List.length a) + 1))
    with (List.length (a ++ [SLASH])).
  - change (SLASH :: b) with ([SLASH] ++ b). rewrite app_assoc.
    now rewrite skipn_app, skipn_all, Nat.sub_diag.
  - rewrite length_app. simpl. lia.
Qed.

Lemma filename_at_no_slash micros : ~ In SLASH (filename_at micros).
Proof.
  unfold filename_at. intros Hin.
  apply in_app_or in Hin as [Hin|Hin].
  - vm_compute in Hin. intuition discriminate.
  - apply in_app_or in Hin as [Hin|Hin].
    + pose proof (match_integer_str_of_int
                    (Collector.int_timestamp micros)) as Hm.
      destruct (match_integer_spec _ _ _ Hm) as (_ & Hnc & _).
      rewrite forallb_forall in Hnc. specialize (Hnc _ Hin).
      clear - Hnc. vm_compute in Hnc. discriminate.
    + vm_compute in Hin. intuition discriminate.
Qed.

End CellFacts.

(** X7.  When the answer of [create_model_invocation_job] holds a string
    under ['jobArn'], the job cell binds [job_id] to the text between the
    first and the second slash of the ARN (to its end when there is one
    slash only), and raises [IndexError] when the ARN has no slash. *)
Theorem X7_job_id_is_second_component
    (response : list (pystr * pyval)) (arn : pystr) :
  dict_get (py "jobArn") response = Some (PStr arn) ->
  (forall a b rest,
     ~ In Cells.SLASH a -> ~ In Cells.SLASH b ->
     arn = a ++ Cells.SLASH :: b \/
     arn = a ++ Cells.SLASH :: b ++ Cells.SLASH :: rest ->
     Cells.job_cell response = inr (PStr arn, b)) /\
  (~ In Cells.SLASH arn ->
   Cells.job_cell response
   = inl (IndexError (py "list index out of range"))).
Proof.
  intros Hget. unfold Cells.job_cell. rewrite Hget. split.
  - intros a b rest Ha Hb [->| ->]; unfold Cells.split.
    + rewrite (split_from_sep _ _ _ _ Ha).
      now rewrite (split_from_no_sep _ _ _ Hb).
    + rewrite (split_from_sep _ _ _ _ Ha).
      now rewrite (split_from_sep _ _ _ _ Hb).
  - intros Hno. unfold Cells.split.
    now rewrite (split_from_no_sep _ _ _ Hno).
Qed.

Lemma X7_job_id_is_second_component_witness :
  Cells.job_cell job_created
  = inr (PStr (py "arn:aws:bedrock:us-east-1:123456789012:model-invocation-job/6zgf2xl1jk4w"),
         py "6zgf2xl1jk4w").
Proof.
  refine (proj1 (X7_job_id_is_second_component job_created _ eq_refl)
            (py "arn:aws:bedrock:us-east-1:123456789012:model-invocation-job")
            (py "6zgf2xl1jk4w") [] _ _ (or_introl eq_refl)).
  - vm_compute. intuition discriminate.
  - vm_compute. intuition discriminate.
Defined.

(** X8.  [repository.split("/")[-1]] is the part of [repository] after
    its last slash: it holds no slash, and what stands in front of it is
    empty or ends with a slash. *)
Theorem X8_model_id_is_last_component (repository : pystr) :
  exists front,
    repository = front ++ Cells.model_id_of repository /\
    ~ In Cells.SLASH (Cells.model_id_of repository) /\
    (front = [] \/ exists f, front = f ++ [Cells.SLASH]).
Proof.
  exact (split_from_last Cells.SLASH repository [] (fun H => H)).
Qed.

(** X9.  The file name of the batch holds no slash, so on a POSIX
    [os.path] the upload cell stores it under
    [model_input_summary_prefix/filename]: the key the input [s3Uri] of
    the job names.  The retrieval cell reads, under the output [s3Uri],
    the folder of the job and the file name followed by [.out]. *)
Theorem X9_uploaded_key_is_input_uri
    (bucket_name model_input_summary_prefix output_prefix : pystr)
    (os : Uploader.os_module) (s3 : s3_client) (micros : Z) :
  let filename := Cells.filename_at micros in
  let path := py "./" ++ filename in
  let key := model_input_summary_prefix ++ py "/" ++ filename in
  Uploader.isfile os path = true ->
  Uploader.basename os path = Cells.posix_basename path ->
  (upload_file s3 path bucket_name key = inr tt ->
   Cells.upload_cell bucket_name model_input_summary_prefix os s3 filename
   = (PBool true, [Uploader.Uploaded path bucket_name key;
                   Uploader.PrintedSuccess path bucket_name key])) /\
  (forall e, upload_file s3 path bucket_name key = inl e ->
   Cells.upload_cell bucket_name model_input_summary_prefix os s3 filename
   = (PBool false, [Uploader.UploadFailed path bucket_name key;
                    Uploader.PrintedError path e])) /\
  Cells.input_s3_uri bucket_name model_input_summary_prefix filename
  = py "s3://" ++ bucket_name ++ py "/" ++ key /\
  forall job_id,
    py "s3://" ++ bucket_name ++ py "/"
    ++ Retriever.object_key model_input_summary_prefix output_prefix
         job_id filename
    = Cells.output_s3_uri bucket_name model_input_summary_prefix
        output_prefix
      ++ job_id ++ py "/" ++ filename ++ py ".out".
Proof.
  intros filename path key Hfile Hbase.
  assert (Hname : Uploader.basename os path = filename).
  { rewrite Hbase. exact (posix_basename_after_slash [46%N] filename
                            (filename_at_no_slash micros)). }
  unfold Cells.upload_cell, Uploader.upload_to_s3.
  fold path. rewrite Hfile, Hname.
  change (Uploader.object_name_for (Some model_input_summary_prefix) filename)
    with key.
  split; [intros ->; reflexivity|].
  split; [intros e ->; reflexivity|].
  split; [reflexivity|].
  intros job_id.
  unfold Retriever.object_key, Retriever.prefix, Cells.output_s3_uri.
  change [Retriever.SLASH] with (py "/").
  now rewrite <- !app_assoc.
Qed.

Lemma X9_uploaded_key_is_input_uri_witness :
  Cells.upload_cell (py "my-bucket") (py "batch/input") os_flat s3_two
    (Cells.filename_at (clock_fast 0))
  = (PBool true,
     [Uploader.Uploaded (py "./batch-1700000000.jsonl") (py "my-bucket")
        (py "batch/input/batch-1700000000.jsonl");
      Uploader.PrintedSuccess (py "./batch-1700000000.jsonl")
        (py "my-bucket") (py "batch/input/batch-1700000000.jsonl")]).
Proof.
  exact (proj1 (X9_uploaded_key_is_input_uri (py "my-bucket")
                  (py "batch/input") (py "out") os_flat s3_two
                  (clock_fast 0) eq_refl eq_refl) eq_refl).
Defined.

Section SortingFacts.

Variables (A : Type) (R : A -> A -> Prop).

Lemma StronglySorted_app l1 l2 :
  StronglySorted R l1 -> StronglySorted R l2 ->
  (forall a b, In a l1 -> In b l2 -> R a b) ->
  StronglySorted R (l1 ++ l2).
Proof.
  induction 1 as [|a l1 Hl1 IH Ha]; intros Hl2 Hcross; [exact Hl2|].
  simpl. constructor.
  - apply IH; [exact Hl2|]. intros x y Hx. apply Hcross. now right.
  - apply Forall_app. split; [exact Ha|].
    apply Forall_forall. intros y Hy. apply Hcross; [now left|exact Hy].
Qed.

Lemma StronglySorted_app_inv l1 l2 :
  StronglySorted R (l1 ++ l2) ->
  StronglySorted R l1 /\ StronglySorted R l2 /\
  forall a b, In a l1 -> In b l2 -> R a b.
Proof.
  induction l1 as [|x l1 IH]; simpl; intros Hs.
  - repeat split; [constructor|exact Hs|intros a b []].
  - inversion Hs as [|? ? Hs' Hx]; subst.
    destruct (IH Hs') as (H1 & H2 & Hcross).
    apply Forall_app in Hx as [Hx1 Hx2].
    repeat split; [now constructor|exact H2|].
    intros a b [<-|Ha] Hb.
    + rewrite Forall_forall in Hx2. now apply Hx2.
    + now apply Hcross.
Qed.

Lemma StronglySorted_rev_flip l :
  StronglySorted (fun a b => R b a) l -> StronglySorted R (rev l).
Proof.
  induction 1 as [|a l Hl IH Ha]; [constructor|].
  simpl. apply StronglySorted_app; [exact IH|repeat constructor|].
  intros x y Hx [<-|[]]. rewrite Forall_forall in Ha.
  apply Ha. now apply in_rev.
Qed.

Lemma StronglySorted_firstn n l :
  StronglySorted R l -> StronglySorted R (firstn n l).
Proof.
  intros Hs. rewrite <- (firstn_skipn n l) in Hs.
  now apply StronglySorted_app_inv in Hs.
Qed.

End SortingFacts.

Lemma StronglySorted_map (A B : Type) (f : A -> B) (R : B -> B -> Prop) l :
  StronglySorted (fun a b => R (f a) (f b)) l ->
  StronglySorted R (map f l).
Proof.
  induction 1 as [|a l Hl IH Ha]; simpl; constructor; [exact IH|].
  apply Forall_map. exact Ha.
Qed.

Section RerankerFacts.

Import Reranker.

Variable score : Type.
Variable lt : score -> score -> bool.
Variable run_model : list (pyval * pyval) -> result (list score).

Lemma keyed_from_fst (scores : list score) : forall first,
  map fst (combine (seq first (List.length scores)) scores)
  = seq first (List.length scores).
Proof.
  induction scores as [|s scores IH]; intros first; [reflexivity|].
  simpl. now rewrite IH.
Qed.

Lemma keyed_from_in (scores : list score) i s : forall first,
  In (i, s) (combine (seq first (List.length scores)) scores) ->
  first <= i /\ nth_error scores (i - first) = Some s.
Proof.
  induction scores as [|s0 scores IH]; intros first; simpl; [intros []|].
  intros [Heq|Hin].
  - injection Heq as <- <-. now rewrite Nat.sub_diag.
  - destruct (IH _ Hin) as [Hle Hnth]. split; [lia|].
    replace (i - first) with (S (i - S first)) by lia. exact Hnth.
Qed.

Lemma in_keyed_from (scores : list score) i s : forall first,
  nth_error scores i = Some s ->
  In (first + i, s) (combine (seq first (List.length scores)) scores).
Proof.
  revert i. induction scores as [|s0 scores IH]; intros i first Hnth.
  - now destruct i.
  - destruct i as [|i]; simpl in *.
    + injection Hnth as ->. left. now rewrite Nat.add_0_r.
    + right. replace (first + S i) with (S first + i) by lia.
      now apply IH.
Qed.

Lemma keyed_in (scores : list score) i s :
  In (i, s) (keyed scores) <-> nth_error scores i = Some s.
Proof.
  unfold keyed. split.
  - intros Hin. apply keyed_from_in in Hin as [_ Hnth].
    now rewrite Nat.sub_0_r in Hnth.
  - intros Hnth. exact (in_keyed_from scores i s 0 Hnth).
Qed.

Lemma keyed_increasing (scores : list score) : forall first,
  StronglySorted (fun a b => fst a < fst b)
    (combine (seq first (List.length scores)) scores).
Proof.
  induction scores as [|s scores IH]; intros first; simpl; constructor.
  - apply IH.
  - apply Forall_forall. intros [i x] Hin.
    apply keyed_from_in in Hin as [Hle _]. simpl. lia.
Qed.

Lemma insert_perm x l : Permutation (insert lt x l) (x :: l).
Proof.
  induction l as [|y l IH]; simpl; [reflexivity|].
  destruct (lt (snd y) (snd x)); [|reflexivity].
  rewrite IH. apply perm_swap.
Qed.

Lemma sort_ascending_perm l : Permutation (sort_ascending lt l) l.
Proof.
  induction l as [|x l IH]; simpl; [reflexivity|].
  now rewrite insert_perm, IH.
Qed.

Lemma sorted_reverse_perm l : Permutation (sorted_reverse lt l) l.
Proof.
  unfold sorted_reverse.
  now rewrite <- Permutation_rev, sort_ascending_perm, <- Permutation_rev.
Qed.

Lemma slice_to_prefix (B : Type) stop (l r : list B) :
  slice_to stop l = inr r -> exists n, r = firstn n l.
Proof.
  destruct stop as [| b | z | | | |]; unfold slice_to, ret;
    try discriminate; intros H; injection H as <-.
  - exists (List.length l). now rewrite firstn_all.
  - now eexists.
  - destruct (0 <=? z)%Z; now eexists.
Qed.

(** What a run of [predict_fn] that returns has gone through. *)
Lemma predict_fn_returns data response :
  predict_fn lt run_model data = inr response ->
  exists query documents topk docs scores n,
    getitem data (py "query") = inr query /\
    getitem data (py "documents") = inr documents /\
    getitem data (py "topk") = inr topk /\
    iterate documents = inr docs /\
    run_model (map (fun x => (query, x)) docs) = inr scores /\
    slice_to topk (sorted_reverse lt (keyed scores))
    = inr (firstn n (sorted_reverse lt (keyed scores))) /\
    response = map (fun x => Hit (fst x) (snd x))
                   (firstn n (sorted_reverse lt (keyed scores))).
Proof.
  unfold predict_fn. intros H.
  destruct (getitem data (py "query")) as [|query] eqn:Hq;
    cbn [bind] in H; [discriminate|].
  destruct (getitem data (py "documents")) as [|documents] eqn:Hd;
    cbn [bind] in H; [discriminate|].
  destruct (getitem data (py "topk")) as [|topk] eqn:Ht;
    cbn [bind] in H; [discriminate|].
  destruct (iterate documents) as [|docs] eqn:Hi;
    cbn [bind] in H; [discriminate|].
  destruct (run_model (map (fun x => (query, x)) docs)) as [|scores] eqn:Hrun;
    cbn [bind] in H; [discriminate|].
  destruct (slice_to topk (sorted_reverse lt (keyed scores)))
    as [|sorted_indexes] eqn:Hslice; cbn [bind] in H; [discriminate|].
  unfold ret in H. injection H as <-.
  destruct (slice_to_prefix _ _ _ _ Hslice) as [n ->].
  now exists query, documents, topk, docs, scores, n.
Qed.

Section Ordered.

(** [<] on the scores is a strict weak order: no score is a NaN. *)
Hypothesis lt_asym : forall a b, lt a b = true -> lt b a = false.
Hypothesis lt_negtrans :
  forall a b c, lt a b = false -> lt b c = false -> lt a c = false.

Variable earlier : nat * score -> nat * score -> Prop.

Lemma insert_sorted x s :
  StronglySorted (stable_order lt earlier) s -> Forall (earlier x) s ->
  StronglySorted (stable_order lt earlier) (insert lt x s).
Proof.
  induction s as [|y s IH]; intros Hs Hx; simpl.
  - repeat constructor.
  - inversion Hs as [|? ? Hs' Hy]; subst.
    inversion Hx as [|? ? Hxy Hx']; subst.
    destruct (lt (snd y) (snd x)) eqn:Hyx.
    + constructor; [now apply IH|].
      apply (Permutation_Forall (Permutation_sym (insert_perm x s))).
      constructor; [|exact Hy]. split; [now apply lt_asym|].
      intros Hc. rewrite Hc in Hyx. discriminate.
    + constructor; [exact Hs|]. constructor; [now split|].
      rewrite Forall_forall in Hy, Hx' |- *. intros z Hz.
      destruct (Hy z Hz) as [Hzy _]. split; [|intros _; now apply Hx'].
      exact (lt_negtrans _ _ _ Hzy Hyx).
Qed.

Lemma sort_ascending_sorted l :
  StronglySorted earlier l ->
  StronglySorted (stable_order lt earlier) (sort_ascending lt l).
Proof.
  induction 1 as [|x l Hl IH Hx]; simpl; [constructor|].
  apply insert_sorted; [exact IH|].
  exact (Permutation_Forall (Permutation_sym (sort_ascending_perm l)) Hx).
Qed.

End Ordered.

Lemma sorted_reverse_sorted scores :
  (forall a b, lt a b = true -> lt b a = false) ->
  (forall a b c, lt a b = false -> lt b c = false -> lt a c = false) ->
  StronglySorted
    (fun a b => ranked_before lt (Hit (fst a) (snd a)) (Hit (fst b) (snd b)))
    (sorted_reverse lt (keyed scores)).
Proof.
  intros Hasym Hneg. unfold sorted_reverse.
  apply StronglySorted_rev_flip.
  apply (sort_ascending_sorted Hasym Hneg (fun x y => fst y < fst x)).
  apply StronglySorted_rev_flip. apply keyed_increasing.
Qed.

End RerankerFacts.

(** X10.  When [predict_fn] returns, the model has scored the pairs of
    the query with each document; the entries of the response name
    distinct positions of the scores, each with the score at its
    position, and for [topk] a natural number there are [topk] of them,
    or as many as there are scores if these are fewer. *)
Theorem X10_response_shape
    (score : Type) (lt : score -> score -> bool)
    (run_model : list (pyval * pyval) -> result (list score))
    (data : pyval) (response : list (Reranker.hit score)) :
  Reranker.predict_fn lt run_model data = inr response ->
  exists query documents docs scores,
    getitem data (py "query") = inr query /\
    getitem data (py "documents") = inr documents /\
    Reranker.iterate documents = inr docs /\
    run_model (map (fun x => (query, x)) docs) = inr scores /\
    NoDup (map (@Reranker.index score) response) /\
    Forall (fun h => nth_error scores (Reranker.index h)
                     = Some (Reranker.score_of h)) response /\
    forall k, getitem data (py "topk") = inr (PInt k) -> (0 <= k)%Z ->
      List.length response = Nat.min (Z.to_nat k) (List.length scores).
Proof.
  intros H.
  destruct (predict_fn_returns _ _ _ _ _ H)
    as (query & documents & topk & docs & scores & n
        & Hq & Hd & Ht & Hi & Hrun & Hslice & ->).
  pose proof (sorted_reverse_perm score lt (Reranker.keyed scores)) as Hperm.
  set (full := Reranker.sorted_reverse lt (Reranker.keyed scores)) in *.
  exists query, documents, docs, scores.
  do 4 (split; [assumption|]). split; [|split].
  - rewrite map_map. cbn [Reranker.index]. rewrite <- firstn_map.
    assert (Hnd : NoDup (map fst full)).
    { apply (Permutation_NoDup
               (Permutation_map fst (Permutation_sym Hperm))).
      unfold Reranker.keyed. rewrite keyed_from_fst. apply seq_NoDup. }
    rewrite <- (firstn_skipn n (map fst full)) in Hnd.
    exact (NoDup_app_remove_r _ _ Hnd).
  - apply Forall_map. apply Forall_forall. intros [i s] Hin.
    cbn [Reranker.index Reranker.score_of fst snd].
    apply keyed_in. apply (Permutation_in _ Hperm).
    rewrite <- (firstn_skipn n full). apply in_or_app. now left.
  - intros k Hk Hle. rewrite Ht in Hk. injection Hk as ->.
    unfold Reranker.slice_to, ret in Hslice.
    apply Z.leb_le in Hle. rewrite Hle in Hslice.
    injection Hslice as Hslice.
    rewrite length_map, <- Hslice, length_firstn.
    rewrite (Permutation_length Hperm). unfold Reranker.keyed.
    now rewrite length_combine, length_seq, Nat.min_id.
Qed.

Lemma X10_response_shape_witness :
  exists query documents docs scores,
    getitem rerank_request (py "query") = inr query /\
    getitem rerank_request (py "documents") = inr documents /\
    Reranker.iterate documents = inr docs /\
    model_by_length (map (fun x => (query, x)) docs) = inr scores /\
    NoDup (map (@Reranker.index Z) [Reranker.Hit 0 3%Z; Reranker.Hit 2 3%Z]) /\
    Forall (fun h => nth_error scores (Reranker.index h)
                     = Some (Reranker.score_of h))
           [Reranker.Hit 0 3%Z; Reranker.Hit 2 3%Z] /\
    forall k, getitem rerank_request (py "topk") = inr (PInt k) ->
      (0 <= k)%Z ->
      List.length [Reranker.Hit 0 3%Z; Reranker.Hit 2 3%Z]
      = Nat.min (Z.to_nat k) (List.length scores).
Proof.
  exact (X10_response_shape Z Z.ltb model_by_length rerank_request
           [Reranker.Hit 0 3%Z; Reranker.Hit 2 3%Z] eq_refl).
Defined.

(** X11.  When no score is a NaN, that is when [<] is a strict weak order
    on the scores, the response is in descending order of score, and
    entries of equal score are in ascending order of index. *)
Theorem X11_response_ranked
    (score : Type) (lt : score -> score -> bool)
    (run_model : list (pyval * pyval) -> result (list score))
    (data : pyval) (response : list (Reranker.hit score)) :
  (forall a b, lt a b = true -> lt b a = false) ->
  (forall a b c, lt a b = false -> lt b c = false -> lt a c = false) ->
  Reranker.predict_fn lt run_model data = inr response ->
  StronglySorted (Reranker.ranked_before lt) response.
Proof.
  intros Hasym Hneg H.
  destruct (predict_fn_returns _ _ _ _ _ H)
    as (query & documents & topk & docs & scores & n & _ & _ & _ & _ & _ & _
        & ->).
  apply StronglySorted_map. apply StronglySorted_firstn.
  now apply sorted_reverse_sorted.
Qed.

Lemma X11_response_ranked_witness :
  StronglySorted (Reranker.ranked_before Z.ltb)
    [Reranker.Hit 0 3%Z; Reranker.Hit 2 3%Z].
Proof.
  apply (X11_response_ranked Z Z.ltb model_by_length rerank_request).
  - intros a b Hab. apply Z.ltb_lt in Hab. apply Z.ltb_ge. lia.
  - intros a b c Hab Hbc. apply Z.ltb_ge in Hab, Hbc. apply Z.ltb_ge. lia.
  - reflexivity.
Defined.

(** X12.  When no score is a NaN, the response holds the best: a position
    of the scores that the response leaves out has no higher score than
    any entry of the response. *)
Theorem X12_response_holds_best
    (score : Type) (lt : score -> score -> bool)
    (run_model : list (pyval * pyval) -> result (list score))
    (data : pyval) (response : list (Reranker.hit score)) :
  (forall a b, lt a b = true -> lt b a = false) ->
  (forall a b c, lt a b = false -> lt b c = false -> lt a c = false) ->
  Reranker.predict_fn lt run_model data = inr response ->
  exists query documents docs scores,
    getitem data (py "query") = inr query /\
    getitem data (py "documents") = inr documents /\
    Reranker.iterate documents = inr docs /\
    run_model (map (fun x => (query, x)) docs) = inr scores /\
    forall i s,
      nth_error scores i = Some s ->
      ~ In i (map (@Reranker.index score) response) ->
      Forall (fun h => lt (Reranker.score_of h) s = false) response.
Proof.
  intros Hasym Hneg H.
  destruct (predict_fn_returns _ _ _ _ _ H)
    as (query & documents & topk & docs & scores & n
        & Hq & Hd & Ht & Hi & Hrun & Hslice & ->).
  pose proof (sorted_reverse_perm score lt (Reranker.keyed scores)) as Hperm.
  pose proof (sorted_reverse_sorted score lt scores Hasym Hneg) as Hsorted.
  set (full := Reranker.sorted_reverse lt (Reranker.keyed scores)) in *.
  exists query, documents, docs, scores.
  do 4 (split; [assumption|]). intros i s Hnth Hout.
  apply keyed_in in Hnth.
  apply (Permutation_in _ (Permutation_sym Hperm)) in Hnth.
  rewrite <- (firstn_skipn n full) in Hnth, Hsorted.
  apply in_app_or in Hnth as [Hin|Hin].
  - exfalso. apply Hout. rewrite map_map. cbn [Reranker.index].
    now apply (in_map fst) in Hin.
  - apply StronglySorted_app_inv in Hsorted as (_ & _ & Hcross).
    apply Forall_map. apply Forall_forall. intros x Hx.
    exact (proj1 (Hcross x (i, s) Hx Hin)).
Qed.

Lemma X12_response_holds_best_witness :
  Forall (fun h => (Reranker.score_of h <? 2)%Z = false)
    [Reranker.Hit 0 3%Z; Reranker.Hit 2 3%Z].
Proof.
  destruct (X12_response_holds_best Z Z.ltb model_by_length rerank_request
              [Reranker.Hit 0 3%Z; Reranker.Hit 2 3%Z])
    as (query & documents & docs & scores & Hq & Hd & Hi & Hrun & Hbest).
  - intros a b Hab. apply Z.ltb_lt in Hab. apply Z.ltb_ge. lia.
  - intros a b c Hab Hbc. apply Z.ltb_ge in Hab, Hbc. apply Z.ltb_ge. lia.
  - reflexivity.
  - injection Hq as <-. injection Hd as <-. injection Hi as <-.
    injection Hrun as <-. apply (Hbest 3); [reflexivity|].
    simpl. intros [Heq|[Heq|[]]]; discriminate.
Defined.

Section QuestionFacts.

Import Questions.

Variable generate_questions : pystr -> result pyval.
Variable my_texts : list pystr.

Lemma firstn_plus (A : Type) (l : list A) : forall a b,
  firstn (a + b) l = firstn a l ++ firstn b (skipn a l).
Proof.
  induction l as [|x l IH]; intros a b.
  - now rewrite !firstn_nil, skipn_nil, firstn_nil.
  - destruct a as [|a]; [reflexivity|]. simpl. now rewrite IH.
Qed.

(** The slices taken from [first] on, joined, are the texts they span. *)
Lemma slices_concat : forall n first,
  List.concat
    (map (fun b => List.concat
                     (firstn doc_size
                        (skipn (first + b * doc_size) my_texts)))
         (seq 0 n))
  = List.concat (firstn (n * doc_size) (skipn first my_texts)).
Proof.
  induction n as [|n IH]; intros first; [reflexivity|].
  rewrite <- cons_seq, <- seq_shift. cbn [map List.concat].
  rewrite map_map, Nat.add_0_r.
  replace (S n * doc_size) with (doc_size + n * doc_size) by lia.
  rewrite firstn_plus, concat_app, skipn_skipn. f_equal.
  rewrite <- (IH (doc_size + first)). f_equal.
  apply map_ext. intros b. do 3 f_equal. lia.
Qed.

Lemma ceil_div_covers n :
  n <= ceil_div n doc_size * doc_size /\
  (ceil_div n doc_size - 1) * doc_size < n + (if n =? 0 then 1 else 0).
Proof.
  unfold ceil_div.
  pose proof (Nat.div_mod_eq n doc_size) as Hdm.
  assert (Hlt : n mod doc_size < doc_size)
    by (apply Nat.mod_upper_bound; discriminate).
  revert Hdm Hlt.
  generalize (n / doc_size) as q. generalize (n mod doc_size) as r.
  unfold doc_size. intros r q Hdm Hlt.
  destruct (Nat.eqb_spec r 0) as [H0|H0];
    destruct (Nat.eqb_spec n 0) as [Hn|Hn]; lia.
Qed.

(** The state after [n] rounds that raise nothing. *)
Lemma for_each_batch_ok : forall n vs vs',
  for_each_batch generate_questions my_texts n vs = (None, vs') ->
  let slices :=
    map (fun b => List.concat
                    (firstn doc_size
                       (skipn (start vs + b * doc_size) my_texts)))
        (seq 0 n) in
  start vs' = start vs + n * doc_size /\
  asked vs' = asked vs ++ slices /\
  question vs'
  = question vs
    ++ flat_map (answers_to generate_questions (py "question")) slices /\
  ground_truth vs'
  = ground_truth vs
    ++ flat_map (answers_to generate_questions (py "ground_truth")) slices.
Proof.
  induction n as [|n IH]; intros vs vs' Hrun.
  - injection Hrun as <-. cbn. now rewrite !app_nil_r.
  - cbn [for_each_batch] in Hrun.
    set (text := List.concat (firstn doc_size (skipn (start vs) my_texts)))
      in *.
    destruct (generate_questions text) as [|ds] eqn:Hds; [discriminate|].
    destruct (extension ds (py "question")) as [|qs] eqn:Hqs;
      [discriminate|].
    destruct (extension ds (py "ground_truth")) as [|gs] eqn:Hgs;
      [discriminate|].
    apply IH in Hrun. cbn [start asked question ground_truth] in Hrun.
    destruct Hrun as (Hstart & Hasked & Hq & Hg).
    rewrite <- cons_seq, <- seq_shift. cbn [map flat_map].
    rewrite map_map, Nat.add_0_r. fold text.
    assert (Hshift :
      map (fun b => List.concat
             (firstn doc_size
                (skipn (start vs + doc_size + b * doc_size) my_texts)))
          (seq 0 n)
      = map (fun b => List.concat
               (firstn doc_size
                  (skipn (start vs + S b * doc_size) my_texts)))
            (seq 0 n)).
    { apply map_ext. intros b. do 3 f_equal. lia. }
    rewrite Hshift in *.
    assert (Hqa : answers_to generate_questions (py "question") text = qs).
    { unfold answers_to. rewrite Hds. cbn [bind]. now rewrite Hqs. }
    assert (Hga : answers_to generate_questions (py "ground_truth") text
                  = gs).
    { unfold answers_to. rewrite Hds. cbn [bind]. now rewrite Hgs. }
    rewrite Hqa, Hga.
    repeat split.
    + lia.
    + now rewrite Hasked, <- app_assoc.
    + now rewrite Hq, <- app_assoc.
    + now rewrite Hg, <- app_assoc.
Qed.

(** Every text asked in a run that raises nothing was answered, and the
    answer held both lists. *)
Lemma for_each_batch_answered : forall n vs vs',
  for_each_batch generate_questions my_texts n vs = (None, vs') ->
  let answered text :=
    exists ds qs gs,
      generate_questions text = inr ds /\
      extension ds (py "question") = inr qs /\
      extension ds (py "ground_truth") = inr gs in
  Forall answered (asked vs) -> Forall answered (asked vs').
Proof.
  induction n as [|n IH]; intros vs vs' Hrun answered Hall.
  - now injection Hrun as <-.
  - cbn [for_each_batch] in Hrun.
    set (text := List.concat (firstn doc_size (skipn (start vs) my_texts)))
      in *.
    destruct (generate_questions text) as [|ds] eqn:Hds; [discriminate|].
    destruct (extension ds (py "question")) as [|qs] eqn:Hqs;
      [discriminate|].
    destruct (extension ds (py "ground_truth")) as [|gs] eqn:Hgs;
      [discriminate|].
    apply (IH _ _ Hrun). cbn [asked]. apply Forall_app. split; [exact Hall|].
    constructor; [|constructor]. now exists ds, qs, gs.
Qed.

Lemma batch_text_from_shift first n :
  batch_text_from my_texts first 0
  :: map (batch_text_from my_texts (first + doc_size)) (seq 0 n)
  = map (batch_text_from my_texts first) (seq 0 (S n)).
Proof.
  rewrite <- cons_seq, <- seq_shift. cbn [map]. rewrite map_map.
  f_equal. apply map_ext. intros b. unfold batch_text_from.
  do 3 f_equal. lia.
Qed.

(** The state after a run that raises: the round [k] that raised, and
    what the rounds before it left. *)
Lemma for_each_batch_raises : forall n vs vs' e,
  for_each_batch generate_questions my_texts n vs = (Some e, vs') ->
  let slice := batch_text_from my_texts (start vs) in
  let questions := answers_to generate_questions (py "question") in
  let truths := answers_to generate_questions (py "ground_truth") in
  exists k,
    k < n /\
    asked vs' = asked vs ++ map slice (seq 0 (S k)) /\
    ground_truth vs'
    = ground_truth vs ++ flat_map truths (map slice (seq 0 k)) /\
    (question vs' = question vs ++ flat_map questions (map slice (seq 0 k))
     \/ question vs'
        = question vs ++ flat_map questions (map slice (seq 0 (S k))) /\
        exists ds, generate_questions (slice k) = inr ds /\
                   extension ds (py "ground_truth") = inl e) /\
    (let* ds := generate_questions (slice k) in
     let* _ := extension ds (py "question") in
     extension ds (py "ground_truth")) = inl e.
Proof.
  induction n as [|n IH]; intros vs vs' e Hrun; [discriminate|].
  cbn [for_each_batch] in Hrun. cbn zeta.
  assert (Hfirst : List.concat (firstn doc_size (skipn (start vs) my_texts))
                   = batch_text_from my_texts (start vs) 0).
  { unfold batch_text_from. now rewrite Nat.add_0_r. }
  rewrite Hfirst in Hrun.
  set (text := batch_text_from my_texts (start vs) 0) in *.
  destruct (generate_questions text) as [e0|ds] eqn:Hds.
  { injection Hrun as <- <-. exists 0. cbn [seq map flat_map asked
      question ground_truth]. fold text. rewrite Hds, !app_nil_r.
    repeat split; [lia|now left]. }
  destruct (extension ds (py "question")) as [e0|qs] eqn:Hqs.
  { injection Hrun as <- <-. exists 0. cbn [seq map flat_map asked
      question ground_truth]. fold text. rewrite Hds. cbn [bind].
    rewrite Hqs, !app_nil_r. repeat split; [lia|now left]. }
  assert (Hqa : answers_to generate_questions (py "question") text = qs).
  { unfold answers_to. rewrite Hds. cbn [bind]. now rewrite Hqs. }
  destruct (extension ds (py "ground_truth")) as [e0|gs] eqn:Hgs.
  { injection Hrun as <- <-. exists 0. cbn [seq map flat_map asked
      question ground_truth]. fold text. rewrite Hds. cbn [bind].
    rewrite Hqs. cbn [bind]. rewrite Hgs, Hqa, !app_nil_r.
    repeat split; [lia|]. right. split; [reflexivity|]. now exists ds. }
  assert (Hga : answers_to generate_questions (py "ground_truth") text = gs).
  { unfold answers_to. rewrite Hds. cbn [bind]. now rewrite Hgs. }
  apply IH in Hrun. cbn [start asked question ground_truth] in Hrun.
  destruct Hrun as (k & Hk & Hasked & Hg & Hq & Hcause).
  exists (S k).
  rewrite <- (batch_text_from_shift (start vs) (S k)).
  rewrite <- (batch_text_from_shift (start vs) k).
  fold text. cbn [flat_map].
  rewrite Hqa, Hga. split; [lia|].
  split; [now rewrite Hasked, <- app_assoc|].
  split; [now rewrite Hg, <- app_assoc|].
  assert (Hk' : batch_text_from my_texts (start vs) (S k)
                = batch_text_from my_texts (start vs + doc_size) k).
  { unfold batch_text_from. do 3 f_equal. lia. }
  rewrite Hk'. split; [|exact Hcause].
  destruct Hq as [Hq|[Hq Hlast]].
  - left. now rewrite Hq, <- app_assoc.
  - right. split; [|exact Hlast].
    now rewrite Hq, <- app_assoc.
Qed.

End QuestionFacts.

(** X13.  When the loop raises nothing, [generate_questions] has been
    called once for each slice of 700 texts, in order; no slice is empty,
    and the batch texts joined are all the texts joined: every text is
    sent once. *)
Theorem X13_batches_cover_texts
    (generate_questions : pystr -> result pyval) (my_texts : list pystr)
    (vs : Questions.vars) :
  Questions.generate_all generate_questions my_texts = (None, vs) ->
  let batches :=
    Questions.ceil_div (List.length my_texts) Questions.doc_size in
  Questions.asked vs
  = map (Questions.batch_text_of my_texts) (seq 0 batches) /\
  (forall b, b < batches ->
     1 <= List.length
            (firstn Questions.doc_size
               (skipn (b * Questions.doc_size) my_texts))
       <= Questions.doc_size) /\
  List.concat (Questions.asked vs) = List.concat my_texts.
Proof.
  intros Hrun batches. unfold Questions.generate_all in Hrun.
  fold batches in Hrun.
  apply for_each_batch_ok in Hrun as (_ & Hasked & _ & _).
  cbn [Questions.start Questions.asked app] in Hasked.
  destruct (ceil_div_covers (List.length my_texts)) as [Hup Hlow].
  fold batches in Hup, Hlow.
  split; [exact Hasked|]. split.
  - intros b Hb. rewrite length_firstn, length_skipn.
    assert (b * Questions.doc_size <= (batches - 1) * Questions.doc_size)
      by (apply Nat.mul_le_mono_r; lia).
    destruct (Nat.eqb_spec (List.length my_texts) 0) as [H0|H0].
    + exfalso. unfold batches in Hb. rewrite H0 in Hb. cbn in Hb. lia.
    + unfold Questions.doc_size in *. lia.
  - rewrite Hasked.
    rewrite (slices_concat my_texts batches 0).
    rewrite firstn_all2; [reflexivity|exact Hup].
Qed.

Lemma X13_batches_cover_texts_witness :
  Questions.generate_all questions_echo
    [py "In my younger"; py " and more vulnerable years"]
  = (None,
     Questions.Vars 700
       [PStr (py "What is said?")]
       [PStr (py "In my younger and more vulnerable years")]
       [py "In my younger and more vulnerable years"]) /\
  List.concat [py "In my younger and more vulnerable years"]
  = List.concat [py "In my younger"; py " and more vulnerable years"].
Proof.
  split; [reflexivity|].
  exact (proj2 (proj2
    (X13_batches_cover_texts questions_echo
       [py "In my younger"; py " and more vulnerable years"]
       (Questions.Vars 700
          [PStr (py "What is said?")]
          [PStr (py "In my younger and more vulnerable years")]
          [py "In my younger and more vulnerable years"])
       eq_refl))).
Defined.

(** X14.  When the loop raises nothing, the two lists of [data_samples]
    hold what the calls returned under ['question'] and under
    ['ground_truth'], batch after batch in the order of the calls. *)
Theorem X14_samples_follow_batches
    (generate_questions : pystr -> result pyval) (my_texts : list pystr)
    (vs : Questions.vars) :
  Questions.generate_all generate_questions my_texts = (None, vs) ->
  Questions.question vs
  = flat_map (Questions.answers_to generate_questions (py "question"))
             (Questions.asked vs) /\
  Questions.ground_truth vs
  = flat_map (Questions.answers_to generate_questions (py "ground_truth"))
             (Questions.asked vs) /\
  Forall (fun text =>
            exists ds qs gs,
              generate_questions text = inr ds /\
              Questions.extension ds (py "question") = inr qs /\
              Questions.extension ds (py "ground_truth") = inr gs)
         (Questions.asked vs).
Proof.
  intros Hrun. unfold Questions.generate_all in Hrun.
  pose proof (for_each_batch_answered _ _ _ _ _ Hrun (Forall_nil _))
    as Hall.
  apply for_each_batch_ok in Hrun as (_ & Hasked & Hq & Hg).
  cbn [Questions.start Questions.asked Questions.question
       Questions.ground_truth app] in Hasked, Hq, Hg.
  rewrite Hasked. rewrite <- Hasked at 3. now repeat split.
Qed.

Lemma X14_samples_follow_batches_witness :
  Questions.ground_truth
    (snd (Questions.generate_all questions_echo
            [py "In my younger"; py " and more vulnerable years"]))
  = flat_map (Questions.answers_to questions_echo (py "ground_truth"))
      [py "In my younger and more vulnerable years"].
Proof.
  exact (proj1 (proj2
    (X14_samples_follow_batches questions_echo
       [py "In my younger"; py " and more vulnerable years"]
       (Questions.Vars 700
          [PStr (py "What is said?")]
          [PStr (py "In my younger and more vulnerable years")]
          [py "In my younger and more vulnerable years"])
       eq_refl))).
Defined.

(** X15.  When the loop raises, it stops in the round that raised: the
    texts of the later slices are not sent, [ground_truth] holds the
    answers of the rounds before, and [question] holds the same rounds,
    or one more when it was the extension of [ground_truth] that
    raised. *)
Theorem X15_failed_batch_stops_loop
    (generate_questions : pystr -> result pyval) (my_texts : list pystr)
    (e : exn) (vs : Questions.vars) :
  Questions.generate_all generate_questions my_texts = (Some e, vs) ->
  let slice := Questions.batch_text_of my_texts in
  let questions :=
    Questions.answers_to generate_questions (py "question") in
  let truths :=
    Questions.answers_to generate_questions (py "ground_truth") in
  exists k,
    k < Questions.ceil_div (List.length my_texts) Questions.doc_size /\
    Questions.asked vs = map slice (seq 0 (S k)) /\
    Questions.ground_truth vs = flat_map truths (map slice (seq 0 k)) /\
    (Questions.question vs = flat_map questions (map slice (seq 0 k))
     \/ Questions.question vs
        = flat_map questions (map slice (seq 0 (S k))) /\
        exists ds, generate_questions (slice k) = inr ds /\
                   Questions.extension ds (py "ground_truth") = inl e) /\
    (let* ds := generate_questions (slice k) in
     let* _ := Questions.extension ds (py "question") in
     Questions.extension ds (py "ground_truth")) = inl e.
Proof.
  intros Hrun. unfold Questions.generate_all in Hrun.
  exact (for_each_batch_raises _ _ _ _ _ _ Hrun).
Qed.

Lemma X15_failed_batch_stops_loop_witness :
  exists k,
    k < Questions.ceil_div 2 Questions.doc_size /\
    [py "In my younger and more vulnerable years"]
    = map (Questions.batch_text_of
             [py "In my younger"; py " and more vulnerable years"])
          (seq 0 (S k)).
Proof.
  destruct (X15_failed_batch_stops_loop questions_only
              [py "In my younger"; py " and more vulnerable years"]
              (KeyError (py "ground_truth"))
              (Questions.Vars 700 [PStr (py "What is said?")] []
                 [py "In my younger and more vulnerable years"])
              eq_refl)
    as (k & Hk & Hasked & _).
  now exists k.
Defined.
